(** * TEO: change-impact analysis pipeline

    A shallow embedding of the impact-mapping core of the TEO test-selection
    tool and the verification of its specification:

    - [src/analyzers/git-analyzer.js]   diff classification and syntax-level
      enrichment ([GitDiffAnalyzer]);
    - [src/mappers/feature-mapper.js]   the four detection strategies and the
      aggregation fold ([FeatureMapper]);
    - [src/integrations/playwright-integration.js] test matching and
      selection ([PlaywrightIntegration]);
    - [src/integrations/test-orchestrator.js], [src/core/engine.js]
      the orchestration of the stages.

    Modelling conventions.
    - JavaScript strings are [string]; case folding is the ASCII one.
    - Confidences and weights are finite JavaScript numbers; they are
      modelled as rationals [Q] (the order, [Math.max] and the sort
      comparator are exact on them; the rounding of a product is not
      modelled).  The selection summary, where a division by zero is
      possible, is computed on IEEE 754 binary64 numbers ([float]).
    - A JavaScript [Map] is an association list in insertion order; a plain
      object used as a dictionary (feature metadata) is a [gmap].
    - [new Set(array)] followed by a spread is [Set_from]: the elements in
      order of first occurrence.
    - Code that can throw returns [Exc], a sum whose left side carries the
      error message; the logger is an explicit list of entries.
    - Collaborators outside the repository (glob expansion, minimatch, the
      regular-expression engine, the file system, tree-sitter) are fields of
      the record [Collaborators]. *)

From Stdlib Require Import ZArith QArith Qround String Ascii List Floats Uint63.
From Stdlib Require Import Sorting.Sorted Sorting.Permutation DecimalString Lia.
From stdpp Require Import base gmap strings list.

Import ListNotations.
Set Warnings "-register-all,-clear-no-such-hyp".
Close Scope Q_scope.
Local Open Scope string_scope.
Local Open Scope list_scope.

(** ** JavaScript built-ins used by the sources *)

Section JsStrings.

Definition is_upper (c : ascii) : bool :=
  let n := nat_of_ascii c in Nat.leb 65 n && Nat.leb n 90.

Definition lower_char (c : ascii) : ascii :=
  if is_upper c then ascii_of_nat (nat_of_ascii c + 32) else c.

(** [String.prototype.toLowerCase] on ASCII text. *)
Fixpoint toLowerCase (s : string) : string :=
  match s with
  | EmptyString => EmptyString
  | String c r => String (lower_char c) (toLowerCase r)
  end.

(** [String.prototype.includes]. *)
Fixpoint includes (s sub : string) : bool :=
  if String.prefix sub s then true
  else match s with
       | EmptyString => false
       | String _ r => includes r sub
       end.

(** [s.replace(/pat/g, rep)] for a literal, non-empty [pat]: the
    occurrences are replaced from left to right without overlap. *)
Fixpoint replace_go (pat rep : string) (skip : nat) (s : string) : string :=
  match s with
  | EmptyString => EmptyString
  | String c r =>
      match skip with
      | S k => replace_go pat rep k r
      | O =>
          if String.prefix pat s
          then rep +:+ replace_go pat rep (String.length pat - 1) r
          else String c (replace_go pat rep 0 r)
      end
  end.

Definition replaceAll (pat rep s : string) : string := replace_go pat rep 0 s.

(** [s.replace(/[-_]/g, '')]. *)
Fixpoint stripSeparators (s : string) : string :=
  match s with
  | EmptyString => EmptyString
  | String c r =>
      if (Ascii.eqb c "-" || Ascii.eqb c "_")%bool then stripSeparators r
      else String c (stripSeparators r)
  end.

(** [s.split(sep)] for a one-character separator. *)
Fixpoint split (sep : ascii) (s : string) : list string :=
  match s with
  | EmptyString => [EmptyString]
  | String c r =>
      if Ascii.eqb c sep then EmptyString :: split sep r
      else match split sep r with
           | h :: t => String c h :: t
           | [] => [String c EmptyString]
           end
  end.

(** [String.prototype.trim] restricted to blanks. *)
Fixpoint trimStart (s : string) : string :=
  match s with
  | String c r => if Ascii.eqb c " " then trimStart r else s
  | EmptyString => EmptyString
  end.

Fixpoint rev_string (acc s : string) : string :=
  match s with
  | EmptyString => acc
  | String c r => rev_string (String c acc) r
  end.

Definition trim (s : string) : string :=
  rev_string "" (trimStart (rev_string "" (trimStart s))).

(** Truthiness of a string value: only the empty string is falsy. *)
Definition truthy (s : string) : bool :=
  match s with EmptyString => false | _ => true end.

(** [array.join(sep)]. *)
Fixpoint join (sep : string) (l : list string) : string :=
  match l with
  | [] => ""
  | [x] => x
  | x :: r => x +:+ sep +:+ join sep r
  end.

End JsStrings.

Section JsArrays.
Context {A : Type} `{EqDecision A}.

Definition mem (x : A) (l : list A) : bool := bool_decide (x ∈ l).

(** [[...new Set(l)]]: a [Set] keeps the first occurrence of every
    element, in insertion order; [seen] are the elements already in it. *)
Fixpoint Set_add_all (seen : list A) (l : list A) : list A :=
  match l with
  | [] => []
  | x :: r =>
      if mem x seen then Set_add_all seen r
      else x :: Set_add_all (x :: seen) r
  end.

Definition Set_from (l : list A) : list A := Set_add_all [] l.

(** [array.indexOf(x)], [None] standing for [-1]. *)
Fixpoint indexOf (x : A) (l : list A) : option nat :=
  match l with
  | [] => None
  | y :: r => if decide (y = x) then Some O else S <$> indexOf x r
  end.

End JsArrays.

(** [Array.prototype.sort(cmp)] is stable (ECMAScript 2019): for a
    consistent comparator its result is the one of any stable sort.  The
    comparator is given by [before a b := cmp(a, b) <= 0]. *)
Section JsSort.
Context {A : Type} (before : A → A → bool).

Fixpoint sort_insert (x : A) (l : list A) : list A :=
  match l with
  | [] => [x]
  | y :: r => if before x y then x :: y :: r else y :: sort_insert x r
  end.

Fixpoint Array_sort (l : list A) : list A :=
  match l with
  | [] => []
  | x :: r => sort_insert x (Array_sort r)
  end.

End JsSort.

(** A JavaScript [Map] with its insertion order. *)
Section JsMap.
Context {K V : Type} `{EqDecision K}.

Definition JsMap : Type := list (K * V).

Fixpoint Map_get (k : K) (m : list (K * V)) : option V :=
  match m with
  | [] => None
  | (k', v) :: r => if decide (k' = k) then Some v else Map_get k r
  end.

Definition Map_has (k : K) (m : list (K * V)) : bool :=
  match Map_get k m with Some _ => true | None => false end.

(** Mutation of the value stored under [k]; the position is kept. *)
Fixpoint Map_update (k : K) (f : V → V) (m : list (K * V)) : list (K * V) :=
  match m with
  | [] => []
  | (k', v) :: r =>
      if decide (k' = k) then (k', f v) :: r else (k', v) :: Map_update k f r
  end.

(** [map.set(k, v)]: a new key goes last, an existing key keeps its place. *)
Definition Map_set (k : K) (v : V) (m : list (K * V)) : list (K * V) :=
  if Map_has k m then Map_update k (fun _ => v) m else m ++ [(k, v)].

Definition Map_values (m : list (K * V)) : list V := m.*2.
Definition Map_keys (m : list (K * V)) : list K := m.*1.

End JsMap.

(** ** Errors and diagnostics *)

Definition Exc (A : Type) : Type := string + A.

Definition ret {A} (x : A) : Exc A := inr x.
Definition throw {A} (msg : string) : Exc A := inl msg.
Definition bind {A B} (m : Exc A) (k : A → Exc B) : Exc B :=
  match m with
  | inl e => inl e
  | inr x => k x
  end.

Inductive LogLevel := LDebug | LInfo | LWarn | LError.

Record LogEntry := mkLog {
  log_level : LogLevel;
  log_message : string;
  log_subject : string;   (* strategy type, file, ... *)
  log_error : string      (* error.message, empty when there is none *)
}.

(** ** Collaborators outside the repository *)

Inductive SyntaxNode :=
  | Node (type : string) (text : string) (children : list SyntaxNode).

Record Collaborators := {
  (** [glob(pattern, {cwd: repoPath, absolute: true, nodir: true})] followed
      by [path.relative(repoPath, _)]; [None] when the call rejects. *)
  glob : string → option (list string);
  (** [minimatch(path, pattern)]; [None] when it throws (a pattern that is
      too long). *)
  minimatch : string → string → option bool;
  (** [fs.promises.readFile(path, 'utf8')]. *)
  readFile : string → option string;
  (** The first capture group of every match of the annotation patterns in
      a content, in the order the [exec] loops find them. *)
  annotationMatches : string → list string;
  (** [new RegExp(source, 'i').test(subject)]; [None] when the source is not
      a regular expression. *)
  regexTest : string → string → option bool;
  (** [git show commit:path]. *)
  gitShow : string → string → option string;
  (** The tree-sitter parser of a language applied to a content; [None]
      when the parser throws. *)
  parse : string → string → option SyntaxNode;
  (** [glob(pattern, {cwd: projectRoot, absolute: false})] of the test
      discovery. *)
  discoverGlob : string → option (list string);
  (** [primaryProvider.analyzeImpact(prompt, ...)]: the text of the
      response, or the message of the error when there is no provider or
      the call fails after its retries, together with the entries the
      provider writes to the log. *)
  analyzeImpact : string → Exc string * list LogEntry
}.

(** ** Node's [path] module (POSIX flavour) *)

Section NodePath.

Fixpoint dropSlashes (s : string) : string :=
  match s with
  | String c r => if Ascii.eqb c "/" then dropSlashes r else s
  | EmptyString => EmptyString
  end.

Fixpoint takeUntil (stop : ascii) (s : string) : string :=
  match s with
  | String c r => if Ascii.eqb c stop then "" else String c (takeUntil stop r)
  | EmptyString => EmptyString
  end.

Fixpoint dropUntil (stop : ascii) (s : string) : option string :=
  match s with
  | String c r => if Ascii.eqb c stop then Some r else dropUntil stop r
  | EmptyString => None
  end.

(** The last component of a path, trailing separators left out, read
    from right to left. *)
Definition lastComponentRev (p : string) : string :=
  takeUntil "/" (dropSlashes (rev_string "" p)).

(** [path.extname]: from the last dot of the last component on; empty
    when there is no dot, when the component starts with its only dot, or
    when the component is [..]. *)
Definition extname (p : string) : string :=
  let rc := lastComponentRev p in
  match dropUntil "." rc with
  | None => ""
  | Some EmptyString => ""
  | Some _ =>
      if String.eqb rc ".." then ""
      else rev_string "" (takeUntil "." rc +:+ ".")
  end.

Fixpoint dropPrefix (pre s : string) : option string :=
  match pre, s with
  | EmptyString, _ => Some s
  | String a p, String b r => if Ascii.eqb a b then dropPrefix p r else None
  | String _ _, EmptyString => None
  end.

(** [path.basename(p, ext)]. *)
Definition basename (p ext : string) : string :=
  let rc := lastComponentRev p in
  match dropPrefix (rev_string "" ext) rc with
  | Some rest =>
      if (truthy ext && truthy rest)%bool then rev_string "" rest
      else rev_string "" rc
  | None => rev_string "" rc
  end.

End NodePath.

(** ** [src/analyzers/git-analyzer.js] *)

Inductive ChangeType := ADDED | MODIFIED | DELETED | RENAMED.

#[export] Instance ChangeType_eq_dec : EqDecision ChangeType.
Proof. solve_decision. Defined.

(** [LANGUAGE_EXTENSIONS]. *)
Definition LANGUAGE_EXTENSIONS : list (string * string) :=
  [ (".js", "javascript"); (".jsx", "javascript");
    (".ts", "typescript"); (".tsx", "typescript");
    (".py", "python"); (".json", "json");
    (".yaml", "yaml"); (".yml", "yaml");
    (".md", "markdown"); (".html", "html");
    (".css", "css"); (".scss", "scss"); (".sass", "sass") ].

(** [PARSERS]: the languages a tree-sitter grammar is loaded for. *)
Definition PARSERS : list string := ["javascript"; "typescript"; "python"].

(** One entry of [diffSummary.files]. *)
Record FileSummary := {
  file : string;
  insertions : Z;
  deletions : Z;
  binary : bool
}.

Record CodeChange := mkCodeChange {
  filePath : string;
  changeType : ChangeType;
  oldPath : option string;
  linesAdded : Z;
  linesRemoved : Z;
  functionsChanged : list string;
  classesChanged : list string;
  importsChanged : list string
}.

Record DiffAnalysisResult := {
  baseCommit : string;
  headCommit : string;
  changes : list CodeChange;
  totalFilesChanged : nat;
  totalLinesAdded : Z;
  totalLinesRemoved : Z;
  languagesAffected : list string
}.

Section GitDiffAnalyzer.
Variable env : Collaborators.
(** [this.parsers]: the languages whose parser was initialised. *)
Variable parsers : list string.

Definition detectLanguage (filePath : string) : option string :=
  Map_get (toLowerCase (extname filePath)) LANGUAGE_EXTENSIONS.

Definition node_type (n : SyntaxNode) : string :=
  match n with Node t _ _ => t end.
Definition node_text (n : SyntaxNode) : string :=
  match n with Node _ t _ => t end.
Definition node_children (n : SyntaxNode) : list SyntaxNode :=
  match n with Node _ _ cs => cs end.

(** [walkTree]: the nodes in the order the cursor visits them, a node
    before its children, the children from left to right. *)
Fixpoint walkTree (n : SyntaxNode) : list SyntaxNode :=
  match n with
  | Node _ _ cs =>
      n :: (fix visit (l : list SyntaxNode) : list SyntaxNode :=
              match l with
              | [] => []
              | c :: r => walkTree c ++ visit r
              end) cs
  end.

Definition functionTypes : list (string * list string) :=
  [ ("javascript",
     ["function_declaration"; "arrow_function"; "method_definition"]);
    ("typescript",
     ["function_declaration"; "arrow_function"; "method_definition"]);
    ("python", ["function_definition"]) ].

Definition classTypes : list (string * list string) :=
  [ ("javascript", ["class_declaration"]);
    ("typescript", ["class_declaration"]);
    ("python", ["class_definition"]) ].

Definition importTypes : list (string * list string) :=
  [ ("javascript", ["import_statement"]);
    ("typescript", ["import_statement"]);
    ("python", ["import_statement"; "import_from_statement"]) ].

Definition nodeIn (table : list (string * list string))
    (node : SyntaxNode) (language : string) : bool :=
  match Map_get language table with
  | Some types => mem (node_type node) types
  | None => false
  end.

Definition isFunctionNode := nodeIn functionTypes.
Definition isClassNode := nodeIn classTypes.
Definition isImportNode := nodeIn importTypes.

(** [extractNodeName]: the text of the first child of type [identifier]. *)
Definition extractNodeName (node : SyntaxNode) (language : string)
    : option string :=
  node_text <$> List.find (fun c => String.eqb (node_type c) "identifier")
                          (node_children node).

(** [getFunctionQuery]: no query is defined for any language. *)
Definition getFunctionQuery (language : string) : option string := None.

(** The names pushed by a walk: [if (name) names.push(name)]. *)
Definition collectNames (sel : SyntaxNode → string → bool)
    (tree : SyntaxNode) (language : string) : list string :=
  omap (fun node =>
          if sel node language then
            match extractNodeName node language with
            | Some name => if truthy name then Some name else None
            | None => None
            end
          else None)
       (walkTree tree).

Definition extractFunctions (tree : SyntaxNode) (language : string)
    : list string :=
  match getFunctionQuery language with
  | None => []
  | Some _ => collectNames isFunctionNode tree language
  end.

Definition extractClasses (tree : SyntaxNode) (language : string)
    : list string :=
  collectNames isClassNode tree language.

Definition extractImports (tree : SyntaxNode) (language : string)
    : list string :=
  omap (fun node =>
          if isImportNode node language then
            if truthy (node_text node) then Some (trim (node_text node))
            else None
          else None)
       (walkTree tree).

(** [getFileContent(...).catch(() => '')]. *)
Definition contentOrEmpty (filePath commit : string) : string :=
  default "" (gitShow env commit filePath).

(** [content ? parser.parse(content) : null]; the outer [None] stands for
    a parser that throws. *)
Definition parseIfAny (language content : string)
    : option (option SyntaxNode) :=
  if truthy content then Some <$> parse env language content else Some None.

(** [performSyntaxAnalysis]: the change record after the enrichment.  Both
    revisions are parsed; a parse failure leaves the record as it is, and
    the symbols are read from the tree of the head revision. *)
Definition performSyntaxAnalysis (change : CodeChange)
    (baseCommit headCommit : string) : CodeChange :=
  match detectLanguage (filePath change) with
  | None => change
  | Some language =>
      if negb (mem language parsers) then change
      else
        let oldContent := contentOrEmpty (filePath change) baseCommit in
        let newContent := contentOrEmpty (filePath change) headCommit in
        match parseIfAny language oldContent,
              parseIfAny language newContent with
        | Some oldTree, Some (Some newTree) =>
            {| filePath := filePath change;
               changeType := changeType change;
               oldPath := oldPath change;
               linesAdded := linesAdded change;
               linesRemoved := linesRemoved change;
               functionsChanged := extractFunctions newTree language;
               classesChanged := extractClasses newTree language;
               importsChanged := extractImports newTree language |}
        | _, _ => change
        end
  end.

(** The change type assigned to an entry of the diff summary. *)
Definition classify (fileSummary : FileSummary) : ChangeType :=
  if binary fileSummary then MODIFIED
  else if (Z.ltb 0 (insertions fileSummary)
           && Z.eqb (deletions fileSummary) 0)%bool then ADDED
  else if (Z.eqb (insertions fileSummary) 0
           && Z.ltb 0 (deletions fileSummary))%bool then DELETED
  else MODIFIED.

Definition analyzeFileChange (fileSummary : FileSummary)
    (baseCommit headCommit : string) : CodeChange :=
  let changeType := classify fileSummary in
  let change :=
    {| filePath := file fileSummary;
       changeType := changeType;
       oldPath := None;
       linesAdded := insertions fileSummary;
       linesRemoved := deletions fileSummary;
       functionsChanged := [];
       classesChanged := [];
       importsChanged := [] |} in
  if (negb (binary fileSummary)
      && negb (bool_decide (changeType = DELETED)))%bool
  then performSyntaxAnalysis change baseCommit headCommit
  else change.

End GitDiffAnalyzer.

(** ** [src/mappers/feature-mapper.js] *)

(** Values stored in feature metadata. *)
Inductive json :=
  | JNull
  | JBool (b : bool)
  | JNum (q : Q)
  | JStr (s : string)
  | JArr (l : list json).

(** [MappingStrategy]. *)
Definition FOLDER_BASED : string := "folder_based".
Definition FILE_BASED : string := "file_based".
Definition ANNOTATION_BASED : string := "annotation_based".
Definition AST_BASED : string := "ast_based".

Record ImpactedFeature := mkFeature {
  featureName : string;
  confidence : Q;
  impactedFiles : list string;
  testFiles : list string;
  changeSummary : string;
  strategyUsed : string;
  metadata : gmap string json
}.

(** An entry of [config.features]; every field may be missing. *)
Record FeatureMappingConfig := {
  source_patterns : option (list string);
  test_patterns : option (list string);
  mapping_confidence : option Q;
  mapping_metadata : option (gmap string json)
}.

(** An entry of [config.feature_detection.strategies]. *)
Record StrategyConfig := {
  strategy_type : string;
  strategy_enabled : option bool;
  strategy_weight : option Q
}.

(** What [PlaywrightIntegration] reads of [config.integrations.playwright]. *)
Record PlaywrightConfig := {
  testDir : option string;
  testPatterns : option (list string)
}.

(** ** [src/core/config.js]: the configuration and its schema *)

Record TEOConfig := {
  feature_detection_strategies : option (list StrategyConfig);
  features : option (list (string * FeatureMappingConfig));
  integrations_playwright : option PlaywrightConfig
}.

(** [x || d] on numbers: zero and a missing value give the default. *)
Definition num_or (x : option Q) (d : Q) : Q :=
  match x with
  | Some v => if Qeq_bool v 0 then d else v
  | None => d
  end.

(** [Math.max] of two finite numbers. *)
Definition Math_max (a b : Q) : Q := if Qle_bool a b then b else a.

(** A strategy object seen from the mapper: its [mapChangesToFeatures]. *)
Definition Strategy : Type :=
  DiffAnalysisResult → list (string * FeatureMappingConfig)
  → Exc (list ImpactedFeature).

Section Strategies.
Variable env : Collaborators.

(** [BaseMappingStrategy]: [this.weight = config.weight || 1.0]. *)
Definition strategyWeight (config : StrategyConfig) : Q :=
  num_or (strategy_weight config) 1.

(** The glob loop shared by the strategies: a pattern whose expansion
    rejects contributes nothing; the result is made duplicate-free. *)
Definition globAll (patterns : list string) : list string :=
  Set_from (patterns ≫= (fun pattern => default [] (glob env pattern))).

(** *** FolderBasedStrategy *)

Definition afterSegment (anchor : string) (parts : list string)
    : option string :=
  match indexOf anchor parts with
  | Some i => parts !! (i + 1)%nat
  | None => None
  end.

Definition extractFeaturesFromPath (pathParts : list string) : list string :=
  let patterns : list (list string → option string) :=
    [ afterSegment "features";
      (fun parts =>
         match parts with
         | p0 :: p1 :: _ => if String.eqb p0 "src" then Some p1 else None
         | _ => None
         end);
      (fun parts => toLowerCase <$> afterSegment "components" parts) ] in
  Set_from (omap (fun pattern =>
                    match pattern pathParts with
                    | Some feature =>
                        if truthy feature then Some feature else None
                    | None => None
                    end) patterns).

Definition findTestFiles (featureName sourcePath : string) : list string :=
  let testDirs := ["tests"; "test"; "__tests__"; "spec"; "e2e"] in
  globAll (testDirs ≫= (fun testDir =>
    [ testDir +:+ "/**/" +:+ featureName +:+ "*.{test,spec}.{js,ts}";
      testDir +:+ "/**/*" +:+ featureName +:+ "*.{test,spec}.{js,ts}";
      testDir +:+ "/" +:+ featureName +:+ "/**/*.{test,spec}.{js,ts}" ])).

Definition FolderBasedStrategy (config : StrategyConfig) : Strategy :=
  fun diffResult existingMappings =>
    ret (changes diffResult ≫= (fun change =>
      let filePath := filePath change in
      let pathParts := split "/" filePath in
      extractFeaturesFromPath pathParts ≫= (fun featureName =>
        let testFiles := findTestFiles featureName filePath in
        if Nat.ltb 0 (length testFiles) then
          [ {| featureName := featureName;
               confidence := (strategyWeight config * (8 # 10))%Q;
               impactedFiles := [filePath];
               testFiles := testFiles;
               changeSummary := "Changes in " +:+ featureName +:+ " module";
               strategyUsed := FOLDER_BASED;
               metadata := ∅ |} ]
        else []))).

(** *** FileBasedStrategy *)

(** [patterns.some(pattern => minimatch(filePath, pattern))]. *)
Fixpoint matchesPatterns (filePath : string) (patterns : list string)
    : Exc bool :=
  match patterns with
  | [] => ret false
  | pattern :: rest =>
      match minimatch env filePath pattern with
      | None => throw "pattern is too long"
      | Some true => ret true
      | Some false => matchesPatterns filePath rest
      end
  end.

Definition resolveTestPatterns (patterns : list string) : list string :=
  globAll patterns.

Fixpoint fileBasedMappings (weight : Q) (filePath : string)
    (entries : list (string * FeatureMappingConfig))
    : Exc (list ImpactedFeature) :=
  match entries with
  | [] => ret []
  | (featureName, mapping) :: rest =>
      bind (matchesPatterns filePath (default [] (source_patterns mapping)))
        (fun matched =>
           bind (fileBasedMappings weight filePath rest) (fun more =>
             ret (if matched : bool then
                    {| featureName := featureName;
                       confidence :=
                         (weight * num_or (mapping_confidence mapping) 1)%Q;
                       impactedFiles := [filePath];
                       testFiles :=
                         resolveTestPatterns
                           (default [] (test_patterns mapping));
                       changeSummary :=
                         "Changes in " +:+ featureName +:+ " feature";
                       strategyUsed := FILE_BASED;
                       metadata := default ∅ (mapping_metadata mapping) |}
                    :: more
                  else more)))
  end.

Fixpoint fileBasedChanges (weight : Q) (changes : list CodeChange)
    (entries : list (string * FeatureMappingConfig))
    : Exc (list ImpactedFeature) :=
  match changes with
  | [] => ret []
  | change :: rest =>
      bind (fileBasedMappings weight (filePath change) entries)
        (fun here =>
           bind (fileBasedChanges weight rest entries) (fun more =>
             ret (here ++ more)))
  end.

Definition FileBasedStrategy (config : StrategyConfig) : Strategy :=
  fun diffResult existingMappings =>
    fileBasedChanges (strategyWeight config) (changes diffResult)
                     existingMappings.

(** *** AnnotationBasedStrategy *)

Definition extractAnnotations (content : string) : list string :=
  Set_from (toLowerCase <$> annotationMatches env content).

Definition findTestFilesForFeature (featureName : string) : list string :=
  globAll
    [ "tests/**/*" +:+ featureName +:+ "*.{test,spec}.{js,ts}";
      "test/**/*" +:+ featureName +:+ "*.{test,spec}.{js,ts}";
      "__tests__/**/*" +:+ featureName +:+ "*.{test,spec}.{js,ts}" ].

Definition AnnotationBasedStrategy (config : StrategyConfig) : Strategy :=
  fun diffResult existingMappings =>
    ret (changes diffResult ≫= (fun change =>
      if bool_decide (changeType change = DELETED) then []
      else
        match readFile env (filePath change) with
        | None => []
        | Some content =>
            (fun featureName =>
               {| featureName := featureName;
                  confidence := (strategyWeight config * (9 # 10))%Q;
                  impactedFiles := [filePath change];
                  testFiles := findTestFilesForFeature featureName;
                  changeSummary := "Annotated feature: " +:+ featureName;
                  strategyUsed := ANNOTATION_BASED;
                  metadata := ∅ |})
            <$> extractAnnotations content
        end)).

(** *** ASTBasedStrategy *)

(** [symbol.replace(/([A-Z])/g, ' $1')]. *)
Fixpoint spaceBeforeUpper (s : string) : string :=
  match s with
  | EmptyString => EmptyString
  | String c r =>
      if is_upper c then String " " (String c (spaceBeforeUpper r))
      else String c (spaceBeforeUpper r)
  end.

Definition extractFeatureFromSymbol (symbol : string) : string :=
  let words := split " " (trim (spaceBeforeUpper symbol)) in
  match words with
  | w0 :: _ :: _ => toLowerCase w0
  | _ => toLowerCase symbol
  end.

Definition extractFeatureFromPath (filePath : string) : string :=
  stripSeparators (toLowerCase (basename filePath (extname filePath))).

Definition mapSymbolsToFeatures (symbols : list string) (filePath : string)
    : list string :=
  Set_from (filter (fun f => truthy f = true)
              (map extractFeatureFromSymbol symbols
               ++ [extractFeatureFromPath filePath])).

Definition findTestsForSymbols (symbols : list string) (featureName : string)
    : list string :=
  globAll (symbols ≫= (fun symbol =>
    [ "tests/**/*" +:+ symbol +:+ "*.{test,spec}.{js,ts}";
      "test/**/*" +:+ symbol +:+ "*.{test,spec}.{js,ts}";
      "tests/**/*" +:+ featureName +:+ "*.{test,spec}.{js,ts}" ])).

Definition ASTBasedStrategy (config : StrategyConfig) : Strategy :=
  fun diffResult existingMappings =>
    ret (changes diffResult ≫= (fun change =>
      let changedSymbols :=
        functionsChanged change ++ classesChanged change in
      if Nat.ltb 0 (length changedSymbols) then
        (fun featureName =>
           {| featureName := featureName;
              confidence := (strategyWeight config * (7 # 10))%Q;
              impactedFiles := [filePath change];
              testFiles := findTestsForSymbols changedSymbols featureName;
              changeSummary :=
                "Symbol changes: " +:+ join ", " changedSymbols;
              strategyUsed := AST_BASED;
              metadata :=
                {[ "changedSymbols" := JArr (JStr <$> changedSymbols) ]} |})
        <$> mapSymbolsToFeatures changedSymbols (filePath change)
      else [])).

End Strategies.

Section FeatureMapper.
Variable env : Collaborators.

(** [initializeStrategies]: the [Map] from a strategy type to its
    strategy object, in the order the types were first registered. *)
Definition strategyOfType (strategyConfig : StrategyConfig)
    : option Strategy :=
  let type := strategy_type strategyConfig in
  if String.eqb type FOLDER_BASED
  then Some (FolderBasedStrategy env strategyConfig)
  else if String.eqb type FILE_BASED
  then Some (FileBasedStrategy env strategyConfig)
  else if String.eqb type ANNOTATION_BASED
  then Some (AnnotationBasedStrategy env strategyConfig)
  else if String.eqb type AST_BASED
  then Some (ASTBasedStrategy env strategyConfig)
  else None.

Definition initializeStrategies (config : TEOConfig)
    : list (string * Strategy) :=
  fold_left
    (fun strategies strategyConfig =>
       if negb (default false (strategy_enabled strategyConfig))
       then strategies
       else match strategyOfType strategyConfig with
            | Some strategy =>
                Map_set (strategy_type strategyConfig) strategy strategies
            | None => strategies
            end)
    (default [] (feature_detection_strategies config)) [].

(** The body of the merge loop for one incoming feature. *)
Definition mergeFeature (allFeatures : list (string * ImpactedFeature))
    (feature : ImpactedFeature) : list (string * ImpactedFeature) :=
  let key := featureName feature in
  if Map_has key allFeatures then
    Map_update key
      (fun existing =>
         {| featureName := featureName existing;
            confidence :=
              Math_max (confidence existing) (confidence feature);
            impactedFiles :=
              Set_from (impactedFiles existing ++ impactedFiles feature);
            testFiles := Set_from (testFiles existing ++ testFiles feature);
            changeSummary := changeSummary existing;
            strategyUsed := strategyUsed existing;
            (* { ...existing.metadata, ...feature.metadata } *)
            metadata := metadata feature ∪ metadata existing |})
      allFeatures
  else Map_set key feature allFeatures.

Definition mergeFeatures (allFeatures : list (string * ImpactedFeature))
    (features : list ImpactedFeature) : list (string * ImpactedFeature) :=
  fold_left mergeFeature features allFeatures.

(** The loop over [this.strategies]: the state is the [allFeatures] map
    and the log. *)
Fixpoint applyStrategies (strategies : list (string * Strategy))
    (diffResult : DiffAnalysisResult)
    (existingMappings : list (string * FeatureMappingConfig))
    (allFeatures : list (string * ImpactedFeature)) (log : list LogEntry)
    : list (string * ImpactedFeature) * list LogEntry :=
  match strategies with
  | [] => (allFeatures, log)
  | (strategyType, strategy) :: rest =>
      let log := log ++ [mkLog LDebug "Applying mapping strategy"
                               strategyType ""] in
      match strategy diffResult existingMappings with
      | inr features =>
          applyStrategies rest diffResult existingMappings
            (mergeFeatures allFeatures features)
            (log ++ [mkLog LDebug "Strategy results" strategyType "";
                     mkLog LDebug "Strategy completed" strategyType ""])
      | inl message =>
          applyStrategies rest diffResult existingMappings allFeatures
            (log ++ [mkLog LWarn "Strategy failed" strategyType message])
      end
  end.

(** [(a, b) => b.confidence - a.confidence] is at most zero. *)
Definition byConfidence (a b : ImpactedFeature) : bool :=
  Qle_bool (confidence b) (confidence a).

(** [FeatureMapper.mapChangesToFeatures] for a mapper holding
    [strategies] and the feature registry [existingMappings]; the
    argument is [None] when no diff result (or no change list) is given. *)
Definition mapChangesWith (strategies : list (string * Strategy))
    (existingMappings : list (string * FeatureMappingConfig))
    (diffResult : option DiffAnalysisResult)
    : Exc (list ImpactedFeature) * list LogEntry :=
  match diffResult with
  | None =>
      (ret [], [mkLog LWarn "No diff result or changes provided" "" ""])
  | Some diffResult =>
      let log := [mkLog LInfo "Starting feature mapping" "" ""] in
      let '(allFeatures, log) :=
        applyStrategies strategies diffResult existingMappings [] log in
      let result := Array_sort byConfidence (Map_values allFeatures) in
      (ret result, log ++ [mkLog LInfo "Feature mapping completed" "" ""])
  end.

Definition mapChangesToFeatures (config : TEOConfig)
    (diffResult : option DiffAnalysisResult)
    : Exc (list ImpactedFeature) * list LogEntry :=
  mapChangesWith (initializeStrategies config)
                 (default [] (features config)) diffResult.

End FeatureMapper.

(** ** [src/integrations/playwright-integration.js] *)

(** An element of [selectedTests]. *)
Record SelectedTest := {
  path : string;
  feature : string;
  test_confidence : Q;
  strategy : string;
  reason : string
}.

(** An element of [selectionReasons]. *)
Record SelectionReason := {
  reason_feature : string;
  reason_confidence : Q;
  testsSelected : nat;
  reason_strategy : string
}.

Record SelectionSummary := {
  totalAvailable : nat;
  totalSelected : nat;
  reductionPercentage : float
}.

Record SelectionResult := {
  selectedTests : list SelectedTest;
  selectionReasons : list SelectionReason;
  summary : SelectionSummary
}.

Section JsNumbers.

(** [Math.round] on a rational: the nearest integer, a tie going up. *)
Definition Math_round_Q (x : Q) : Z := Qfloor (x + (1 # 2))%Q.

(** The decimal rendering of an integer in a template string. *)
Definition Z_to_string (z : Z) : string :=
  NilEmpty.string_of_int (Z.to_int z).

(** The number value of an array length. *)
Definition length_to_float (n : nat) : float :=
  PrimFloat.of_uint63 (Uint63.of_Z (Z.of_nat n)).

Definition two52 : float :=
  Eval cbv in PrimFloat.of_uint63 4503599627370496%uint63.

(** [Math.floor] on binary64: numbers of magnitude [2^52] and more are
    integers; below, adding and subtracting [2^52] rounds to an integer,
    which is corrected downwards when it lies above the argument. *)
Definition Math_floor (x : float) : float :=
  if PrimFloat.ltb (PrimFloat.abs x) two52 then
    let t := if PrimFloat.ltb x 0%float
             then PrimFloat.add (PrimFloat.sub x two52) two52
             else PrimFloat.sub (PrimFloat.add x two52) two52 in
    if PrimFloat.ltb x t then PrimFloat.sub t 1%float else t
  else x.

(** [Math.round] on binary64: [NaN] and the infinities are returned as
    they are, a negative number down to [-0.5] gives [-0]; otherwise the
    nearest integer, a tie going up. *)
Definition Math_round (x : float) : float :=
  if PrimFloat.is_nan x then x
  else if PrimFloat.is_infinity x then x
  else if (PrimFloat.ltb x 0%float && PrimFloat.leb (-0.5)%float x)%bool
  then (-0)%float
  else let f := Math_floor x in
       if PrimFloat.leb 0.5%float (PrimFloat.sub x f)
       then PrimFloat.add f 1%float
       else f.

End JsNumbers.

Section PlaywrightIntegration.
Variable env : Collaborators.

(** [array.filter(callback)] for a callback that can throw. *)
Fixpoint filterExc {A} (f : A → Exc bool) (l : list A) : Exc (list A) :=
  match l with
  | [] => ret []
  | x :: r =>
      bind (f x) (fun keep =>
        bind (filterExc f r) (fun rest =>
          ret (if keep : bool then x :: rest else rest)))
  end.

(** [matchesPattern]: the glob is rewritten into a regular expression,
    which is tested on the path without regard to case. *)
Definition matchesPattern (filePath pattern : string) : Exc bool :=
  let regexPattern :=
    replaceAll "?" "."
      (replaceAll "*" "[^/]*" (replaceAll "**" ".*" pattern)) in
  match regexTest env regexPattern filePath with
  | Some b => ret b
  | None => throw "Invalid regular expression"
  end.

(** The loop over [feature.testFiles]; [candidates] is the parameter
    [testFiles] of [matchTestsToFeature], the available test files. *)
Fixpoint matchPatterns (candidates : list string) (patterns : list string)
    : Exc (list string) :=
  match patterns with
  | [] => ret []
  | testPattern :: rest =>
      bind (filterExc (fun file => matchesPattern file testPattern) candidates)
        (fun matches =>
           bind (matchPatterns candidates rest) (fun more =>
             ret (matches ++ more)))
  end.

(** The fallback of [matchTestsToFeature]: matching on the feature name. *)
Definition matchByName (candidates : list string) (feature : ImpactedFeature)
    : list string :=
  let featureName := toLowerCase (featureName feature) in
  List.filter
    (fun file =>
       (includes (toLowerCase file) featureName
        || includes (toLowerCase file) (stripSeparators featureName))%bool)
    candidates.

Definition matchTestsToFeature (candidates : list string)
    (feature : ImpactedFeature) : Exc (list string) :=
  bind (if Nat.ltb 0 (length (testFiles feature))
        then matchPatterns candidates (testFiles feature)
        else ret [])
    (fun matchingTests =>
       ret (Set_from (if Nat.eqb (length matchingTests) 0
                      then matchByName candidates feature
                      else matchingTests))).

(** The object pushed on [selectedTests] for a test file of a feature. *)
Definition newSelectedTest (feature : ImpactedFeature) (testFile : string)
    : SelectedTest :=
  {| path := testFile;
     feature := featureName feature;
     test_confidence := confidence feature;
     strategy := strategyUsed feature;
     reason :=
       featureName feature +:+ " feature impacted (" +:+
       Z_to_string (Math_round_Q (confidence feature * 100)%Q) +:+
       "% confidence)" |}.

(** The body of the inner loop of [selectTests]: a path already selected
    is skipped. *)
Definition addTest (feature : ImpactedFeature)
    (selectedTests : list SelectedTest) (testFile : string)
    : list SelectedTest :=
  if existsb (fun t => String.eqb (path t) testFile) selectedTests
  then selectedTests
  else selectedTests ++ [newSelectedTest feature testFile].

Definition addTests (feature : ImpactedFeature)
    (selectedTests : list SelectedTest) (featureTests : list string)
    : list SelectedTest :=
  fold_left (addTest feature) featureTests selectedTests.

(** The outer loop of [selectTests]. *)
Fixpoint selectLoop (allTestFiles : list string)
    (impactedFeatures : list ImpactedFeature)
    (selectedTests : list SelectedTest)
    (selectionReasons : list SelectionReason)
    : Exc (list SelectedTest * list SelectionReason) :=
  match impactedFeatures with
  | [] => ret (selectedTests, selectionReasons)
  | feature :: rest =>
      bind (matchTestsToFeature allTestFiles feature) (fun featureTests =>
        selectLoop allTestFiles rest
          (addTests feature selectedTests featureTests)
          (if Nat.ltb 0 (length featureTests)
           then selectionReasons ++
                  [ {| reason_feature := featureName feature;
                       reason_confidence := confidence feature;
                       testsSelected := length featureTests;
                       reason_strategy := strategyUsed feature |} ]
           else selectionReasons))
  end.

(** [Math.round((1 - selected / available) * 100)]. *)
Definition reduction (selected available : nat) : float :=
  Math_round
    (PrimFloat.mul
       (PrimFloat.sub 1%float
          (PrimFloat.div (length_to_float selected)
                         (length_to_float available)))
       100%float).

Definition selectTests (allTestFiles : list string)
    (impactedFeatures : list ImpactedFeature) : Exc SelectionResult :=
  match selectLoop allTestFiles impactedFeatures [] [] with
  | inr (selectedTests, selectionReasons) =>
      ret {| selectedTests := selectedTests;
             selectionReasons := selectionReasons;
             summary :=
               {| totalAvailable := length allTestFiles;
                  totalSelected := length selectedTests;
                  reductionPercentage :=
                    reduction (length selectedTests)
                              (length allTestFiles) |} |}
  | inl message => throw ("Test selection failed: " +:+ message)
  end.

(** The entry [selectTests] writes to the log. *)
Definition selectTestsLog (allTestFiles : list string)
    (impactedFeatures : list ImpactedFeature) : list LogEntry :=
  match selectLoop allTestFiles impactedFeatures [] [] with
  | inr _ => [mkLog LInfo "Selected Playwright tests" "" ""]
  | inl message =>
      [mkLog LError "Failed to select Playwright tests" "" message]
  end.

End PlaywrightIntegration.

Section Discovery.
Variable env : Collaborators.

(** [normalizeString] of Node's [path]: the empty and the [.] segments
    are left out; a [..] segment removes the segment before it unless
    there is none or it is [..] itself, in which case the [..] is kept in
    a relative path and dropped in an absolute one.  [res] holds the
    segments kept so far, the last one first. *)
Fixpoint normalizeSegments (allowAboveRoot : bool) (res : list string)
    (segments : list string) : list string :=
  match segments with
  | [] => rev res
  | segment :: rest =>
      if (String.eqb segment "" || String.eqb segment ".")%bool
      then normalizeSegments allowAboveRoot res rest
      else if String.eqb segment ".."
      then match res with
           | lastSegment :: before =>
               if String.eqb lastSegment ".."
               then normalizeSegments allowAboveRoot
                      (if allowAboveRoot then ".." :: res else res) rest
               else normalizeSegments allowAboveRoot before rest
           | [] =>
               normalizeSegments allowAboveRoot
                 (if allowAboveRoot then [".."] else []) rest
           end
      else normalizeSegments allowAboveRoot (segment :: res) rest
  end.

Fixpoint endsWithSeparator (p : string) : bool :=
  match p with
  | EmptyString => false
  | String c EmptyString => Ascii.eqb c "/"
  | String _ r => endsWithSeparator r
  end.

(** [path.posix.normalize]. *)
Definition path_normalize (p : string) : string :=
  match p with
  | EmptyString => "."
  | String first _ =>
      let isAbsolute := Ascii.eqb first "/" in
      let trailingSeparator := endsWithSeparator p in
      let normalized :=
        join "/" (normalizeSegments (negb isAbsolute) [] (split "/" p)) in
      if truthy normalized
      then (if isAbsolute then "/" else "") +:+ normalized
           +:+ (if trailingSeparator then "/" else "")
      else if isAbsolute then "/"
           else if trailingSeparator then "./" else "."
  end.

(** [path.join(dir, pattern)]: the non-empty arguments joined by [/] and
    normalised. *)
Definition path_join (dir pattern : string) : string :=
  if truthy dir
  then path_normalize (if truthy pattern then dir +:+ "/" +:+ pattern
                       else dir)
  else if truthy pattern then path_normalize pattern else ".".

(** [value || fallback] for a string that may be missing. *)
Definition string_or (value : option string) (fallback : string) : string :=
  match value with
  | Some s => if truthy s then s else fallback
  | None => fallback
  end.

Fixpoint discoverAll (dir : string) (patterns : list string)
    : Exc (list string) :=
  match patterns with
  | [] => ret []
  | pattern :: rest =>
      match discoverGlob env (path_join dir pattern) with
      | None => throw "glob failed"
      | Some files =>
          bind (discoverAll dir rest) (fun more => ret (files ++ more))
      end
  end.

(** [discoverTests]: the matches of all patterns, duplicate-free and in
    the default (code unit) order of [sort()]. *)
Definition discoverTests (config : PlaywrightConfig) : Exc (list string) :=
  match discoverAll (string_or (testDir config) "tests")
          (default ["**/*.spec.js"; "**/*.spec.ts"] (testPatterns config))
  with
  | inr testFiles => ret (Array_sort String.leb (Set_from testFiles))
  | inl message => throw ("Test discovery failed: " +:+ message)
  end.

(** The entries [discoverTests] writes to the log: one before the glob of
    every pattern it reaches, and one at the end. *)
Fixpoint discoverAllLog (dir : string) (patterns : list string)
    : list LogEntry :=
  match patterns with
  | [] => []
  | pattern :: rest =>
      mkLog LInfo
        ("Discovering Playwright tests with pattern: "
         +:+ path_join dir pattern) "" ""
      :: match discoverGlob env (path_join dir pattern) with
         | None => []
         | Some _ => discoverAllLog dir rest
         end
  end.

Definition discoverTestsLog (config : PlaywrightConfig) : list LogEntry :=
  let dir := string_or (testDir config) "tests" in
  let patterns :=
    default ["**/*.spec.js"; "**/*.spec.ts"] (testPatterns config) in
  discoverAllLog dir patterns
  ++ match discoverAll dir patterns with
     | inr _ => [mkLog LInfo "Discovered Playwright tests" "" ""]
     | inl message =>
         [mkLog LError "Failed to discover Playwright tests" "" message]
     end.

End Discovery.

(** ** [src/integrations/test-orchestrator.js] *)

Record TestSelection := {
  framework : string;
  selection : SelectionResult
}.

Section TestOrchestrator.
Variable env : Collaborators.

(** [this.integrations.get(framework)]: only Playwright is registered,
    and only when it is configured. *)
Definition getIntegration (config : TEOConfig) (framework : string)
    : option PlaywrightConfig :=
  if String.eqb framework "playwright" then integrations_playwright config
  else None.

Definition orchestratorSelectTests (config : TEOConfig) (framework : string)
    (impactedFeatures : list ImpactedFeature) : Exc TestSelection :=
  match getIntegration config framework with
  | None => throw ("Unsupported framework: " +:+ framework)
  | Some integration =>
      bind (discoverTests env integration) (fun allTests =>
        bind (selectTests env allTests impactedFeatures)
          (fun selectionResult =>
             ret {| framework := framework;
                    selection := selectionResult |}))
  end.

(** The entries [TestOrchestrator.selectTests] and the integration write
    to the log; an unsupported framework is rejected before the first. *)
Definition orchestratorSelectTestsLog (config : TEOConfig)
    (framework : string) (impactedFeatures : list ImpactedFeature)
    : list LogEntry :=
  match getIntegration config framework with
  | None => []
  | Some integration =>
      [mkLog LInfo ("Selecting tests for " +:+ framework) "" ""]
      ++ discoverTestsLog env integration
      ++ match discoverTests env integration with
         | inr allTests => selectTestsLog env allTests impactedFeatures
         | inl _ => []
         end
      ++ match orchestratorSelectTests config framework impactedFeatures
         with
         | inr _ => []
         | inl message =>
             [mkLog LError ("Test selection failed for " +:+ framework) ""
                    message]
         end
  end.

End TestOrchestrator.

(** ** [src/core/engine.js] *)

Record AnalyzeOptions := {
  useAI : option bool;
  option_framework : option string
}.

(** What the engine reads of the answer of a provider: its [confidence]
    and its [reasoning], [None] for [undefined]. *)
Record AIResult := {
  result_confidence : option Q;
  result_reasoning : option string
}.

(** The answer of every provider is the text of the response, a string,
    which has neither property. *)
Definition textAnswer (content : string) : AIResult :=
  {| result_confidence := None; result_reasoning := None |}.

(** An element of [enhancedFeatures]: the feature with the three added
    properties; the enhanced confidence is [None] when it is [NaN]. *)
Record EnhancedFeature := {
  enhanced_feature : ImpactedFeature;
  aiConfidence : option Q;
  aiReasoning : option string;
  enhancedConfidence : option Q
}.

Record AIAnalysis := {
  ai_confidence : Q;
  ai_reasoning : option string;
  enhancedFeatures : list EnhancedFeature
}.

Record AnalysisSummary := {
  filesChanged : nat;
  featuresDetected : nat;
  summary_testsSelected : nat;
  summary_framework : string;
  summary_reductionPercentage : float;
  estimatedTimeSaved : Z
}.

Record AnalysisResult := {
  diffAnalysis : DiffAnalysisResult;
  featureMapping : list ImpactedFeature;
  aiAnalysis : option AIAnalysis;
  testSelection : TestSelection;
  result_summary : AnalysisSummary
}.

Section TEOEngine.
Variable env : Collaborators.

Definition newline : string := String "010"%char "".

Definition buildAIPrompt (diffAnalysis : DiffAnalysisResult)
    (featureMapping : list ImpactedFeature) : string :=
  let changedFiles := join ", " (filePath <$> changes diffAnalysis) in
  let features := join ", " (featureName <$> featureMapping) in
  "Analyze the impact of code changes on test requirements:" +:+ newline
  +:+ newline
  +:+ "Changed Files: " +:+ changedFiles +:+ newline
  +:+ "Detected Features: " +:+ features +:+ newline
  +:+ "Languages: " +:+ join ", " (languagesAffected diffAnalysis)
  +:+ newline
  +:+ newline
  +:+ "Please assess:" +:+ newline
  +:+ "1. Which features are most likely impacted by these changes?"
  +:+ newline
  +:+ "2. What types of tests should be prioritized?" +:+ newline
  +:+ "3. Are there any cross-feature dependencies to consider?"
  +:+ newline
  +:+ "4. Risk level of these changes (low/medium/high)?" +:+ newline
  +:+ newline
  +:+ "Provide a structured analysis with confidence scores.".

Definition Math_min (a b : Q) : Q := if Qle_bool a b then a else b.

(** [Math.min(feature.confidence + (aiResult.confidence * 0.2), 1.0)]: an
    [undefined] confidence makes the sum, and the minimum, [NaN]. *)
Definition enhanceFeatures (features : list ImpactedFeature)
    (aiResult : AIResult) : list EnhancedFeature :=
  (fun feature =>
     {| enhanced_feature := feature;
        aiConfidence := result_confidence aiResult;
        aiReasoning := result_reasoning aiResult;
        enhancedConfidence :=
          (fun answered =>
             Math_min (confidence feature + answered * (2 # 10))%Q 1)
          <$> result_confidence aiResult |})
  <$> features.

(** [enhanceWithAI]: the analysis, or the message of the error, and the
    entries written to the log. *)
Definition enhanceWithAI (diffAnalysis : DiffAnalysisResult)
    (featureMapping : list ImpactedFeature)
    : Exc AIAnalysis * list LogEntry :=
  let log := [mkLog LInfo "Provider selected for AI analysis" "" ""] in
  let '(answer, providerLog) :=
    analyzeImpact env (buildAIPrompt diffAnalysis featureMapping) in
  match answer with
  | inr content =>
      let aiResult := textAnswer content in
      (ret {| ai_confidence := num_or (result_confidence aiResult) (8 # 10);
              ai_reasoning := result_reasoning aiResult;
              enhancedFeatures := enhanceFeatures featureMapping aiResult |},
       log ++ providerLog)
  | inl message => (throw message, log ++ providerLog)
  end.

Definition calculateTimeSaved (summary : SelectionSummary) : Z :=
  (Z.of_nat (totalAvailable summary) - Z.of_nat (totalSelected summary))
  * 5000.

(** [options.framework || 'playwright']. *)
Definition requestedFramework (options : AnalyzeOptions) : string :=
  string_or (option_framework options) "playwright".

(** The AI step of [analyze]: skipped when the option [useAI] is [false]
    or no feature is detected; a failure is logged and leaves the analysis
    without AI result. *)
Definition aiStep (options : AnalyzeOptions)
    (diffAnalysis : DiffAnalysisResult)
    (featureMapping : list ImpactedFeature)
    : option AIAnalysis * list LogEntry :=
  if (negb (bool_decide (useAI options = Some false))
      && Nat.ltb 0 (length featureMapping))%bool
  then
    let '(enhanced, aiLog) := enhanceWithAI diffAnalysis featureMapping in
    let log := [mkLog LInfo "Starting AI analysis" "" ""] ++ aiLog in
    match enhanced with
    | inr analysis =>
        (Some analysis, log ++ [mkLog LInfo "AI analysis completed" "" ""])
    | inl message =>
        (None,
         log ++ [mkLog LWarn
                   "AI analysis failed, continuing without AI enhancement"
                   "" message])
    end
  else (None, []).

(** The selection step of [analyze]. *)
Definition selectionStep (config : TEOConfig) (framework : string)
    (featureMapping : list ImpactedFeature)
    : Exc TestSelection * list LogEntry :=
  if Nat.ltb 0 (length featureMapping)
  then
    let selected :=
      orchestratorSelectTests env config framework featureMapping in
    (selected,
     orchestratorSelectTestsLog env config framework featureMapping
     ++ match selected with
        | inr _ => [mkLog LInfo "Test selection completed" "" ""]
        | inl _ => []
        end)
  else
    (ret {| framework := framework;
            selection :=
              {| selectedTests := [];
                 selectionReasons := [];
                 summary :=
                   {| totalAvailable := 0;
                      totalSelected := 0;
                      reductionPercentage := 0%float |} |} |},
     [mkLog LInfo "No features detected, no tests selected" "" ""]).

(** [TEOEngine.analyze] from the diff analysis on: the feature mapping,
    the optional AI step and the test selection, with the entries the
    engine, the mapper, the provider, the orchestrator and the integration
    write to the log. *)
Definition analyze (config : TEOConfig) (options : AnalyzeOptions)
    (diffAnalysis : DiffAnalysisResult)
    : Exc AnalysisResult * list LogEntry :=
  let log :=
    [mkLog LInfo "Git diff analysis completed" "" "";
     mkLog LDebug "Diff analysis result" "" ""] in
  let '(mapped, mapperLog) :=
    mapChangesToFeatures env config (Some diffAnalysis) in
  let log := log ++ mapperLog in
  match mapped with
  | inl message =>
      (throw message, log ++ [mkLog LError "TEO analysis failed" "" message])
  | inr featureMapping =>
      let log := log ++ [mkLog LInfo "Feature mapping completed" "" ""] in
      let '(aiAnalysis, aiLog) :=
        aiStep options diffAnalysis featureMapping in
      let framework := requestedFramework options in
      let '(selected, selectionLog) :=
        selectionStep config framework featureMapping in
      let log := log ++ aiLog ++ selectionLog in
      match selected with
      | inl message =>
          (throw message,
           log ++ [mkLog LError "TEO analysis failed" "" message])
      | inr testSelection =>
          (ret {| diffAnalysis := diffAnalysis;
                  featureMapping := featureMapping;
                  aiAnalysis := aiAnalysis;
                  testSelection := testSelection;
                  result_summary :=
                    {| filesChanged := length (changes diffAnalysis);
                       featuresDetected := length featureMapping;
                       summary_testsSelected :=
                         length (selectedTests (selection testSelection));
                       summary_framework := framework;
                       summary_reductionPercentage :=
                         reductionPercentage
                           (summary (selection testSelection));
                       estimatedTimeSaved :=
                         calculateTimeSaved
                           (summary (selection testSelection)) |} |},
           log ++ [mkLog LInfo "TEO analysis completed" "" ""])
      end
  end.

End TEOEngine.

(** The bounds the zod schema of [config.js] puts on the numbers the
    mapper reads. *)
Section ConfigSchema.

Definition in_unit_interval (q : Q) : bool :=
  (Qle_bool 0 q && Qle_bool q 1)%bool.

(** [FeatureDetectionStrategySchema]: [type] is one of the four strategy
    types and [weight] is a number between 0 and 1. *)
Definition FeatureDetectionStrategySchema (s : StrategyConfig) : bool :=
  (mem (strategy_type s)
       [FOLDER_BASED; FILE_BASED; ANNOTATION_BASED; AST_BASED]
   && match strategy_weight s with
      | Some w => in_unit_interval w
      | None => false
      end)%bool.

(** [FeatureMappingSchema]: the pattern lists are present and
    [confidence], when given, is a number between 0 and 1. *)
Definition FeatureMappingSchema (m : FeatureMappingConfig) : bool :=
  (bool_decide (is_Some (source_patterns m))
   && bool_decide (is_Some (test_patterns m))
   && match mapping_confidence m with
      | Some c => in_unit_interval c
      | None => true
      end)%bool.

Definition TEOConfigSchema (config : TEOConfig) : bool :=
  (forallb FeatureDetectionStrategySchema
           (default [] (feature_detection_strategies config))
   && forallb (fun entry => FeatureMappingSchema entry.2)
              (default [] (features config)))%bool.

(** The bounds of the schema alone: a strategy weight and a static
    confidence, where one is given, lie between 0 and 1. *)
Definition withinUnitBounds (config : TEOConfig) : bool :=
  (forallb (fun strategyConfig =>
              match strategy_weight strategyConfig with
              | Some w => in_unit_interval w
              | None => true
              end)
           (default [] (feature_detection_strategies config))
   && forallb (fun entry : string * FeatureMappingConfig =>
                 match mapping_confidence entry.2 with
                 | Some c => in_unit_interval c
                 | None => true
                 end)
              (default [] (features config)))%bool.

End ConfigSchema.

(** * Scenarios

    Concrete collaborators and inputs on which the statements below are
    evaluated. *)

(** The syntax tree of a module with one import, one function and one
    class. *)
Definition loginSource : string :=
  "import db from './db'; function login() {} class Auth {}".

Definition loginTree : SyntaxNode :=
  Node "program" loginSource
    [ Node "import_statement" "import db from './db';"
        [ Node "import" "import" [];
          Node "import_clause" "db" [Node "identifier" "db" []];
          Node "from" "from" [];
          Node "string" "'./db'" [] ];
      Node "function_declaration" "function login() {}"
        [ Node "function" "function" [];
          Node "identifier" "login" [];
          Node "formal_parameters" "()" [];
          Node "statement_block" "{}" [] ];
      Node "class_declaration" "class Auth {}"
        [ Node "class" "class" [];
          Node "identifier" "Auth" [];
          Node "class_body" "{}" [] ] ].

Definition scenarioEnv : Collaborators :=
  {| glob := fun pattern =>
       Some (if String.prefix "tests/auth/" pattern
             then ["tests/auth/login.spec.js"] else []);
     minimatch := fun filePath pattern =>
       Some (String.prefix (takeUntil "*" pattern) filePath);
     readFile := fun _ => None;
     annotationMatches := fun _ => [];
     regexTest := fun source subject =>
       Some (includes (toLowerCase subject) (toLowerCase source));
     gitShow := fun commit filePath =>
       if String.eqb filePath "src/auth/login.js"
       then Some loginSource else None;
     parse := fun language content =>
       if String.eqb content loginSource then Some loginTree else None;
     discoverGlob := fun pattern =>
       Some (if String.eqb pattern "tests/**/*.spec.js"
             then ["tests/payments/pay.spec.js"; "tests/auth/login.spec.js"]
             else []);
     analyzeImpact := fun _ =>
       (inl "Cannot read properties of null (reading 'analyzeImpact')", [])
  |}.

Definition loginSummary : FileSummary :=
  {| file := "src/auth/login.js";
     insertions := 3; deletions := 1; binary := false |}.

(** Scenario C: two strategies report the feature [payments]. *)
Definition scenarioC : list ImpactedFeature :=
  [ {| featureName := "payments"; confidence := 6 # 10;
       impactedFiles := ["a.js"]; testFiles := [];
       changeSummary := "Changes in payments module";
       strategyUsed := FOLDER_BASED; metadata := ∅ |};
    {| featureName := "payments"; confidence := 9 # 10;
       impactedFiles := ["b.js"]; testFiles := [];
       changeSummary := "Annotated feature: payments";
       strategyUsed := ANNOTATION_BASED; metadata := ∅ |} ].

(** Scenario D: two ranked features both match [tests/shared.spec.js]. *)
Definition checkoutFeature : ImpactedFeature :=
  {| featureName := "checkout"; confidence := 9 # 10;
     impactedFiles := ["src/checkout/pay.js"];
     testFiles := ["tests/shared.spec.js"];
     changeSummary := "Changes in checkout feature";
     strategyUsed := FILE_BASED; metadata := ∅ |}.

Definition cartFeature : ImpactedFeature :=
  {| featureName := "cart"; confidence := 6 # 10;
     impactedFiles := ["src/cart/add.js"];
     testFiles := ["tests/shared.spec.js"; "tests/cart.spec.js"];
     changeSummary := "Changes in cart feature";
     strategyUsed := FILE_BASED; metadata := ∅ |}.

Definition scenarioD_tests : list string :=
  ["tests/cart.spec.js"; "tests/other.spec.js"; "tests/shared.spec.js"].

(** Scenario A: the file-based strategy with weight [1.0] and the feature
    definition [authentication]; one changed file. *)
Definition scenarioA_config : TEOConfig :=
  {| feature_detection_strategies :=
       Some [ {| strategy_type := FILE_BASED;
                 strategy_enabled := Some true;
                 strategy_weight := Some 1%Q |} ];
     features :=
       Some [ ("authentication",
               {| source_patterns := Some ["src/auth/**"];
                  test_patterns := Some ["tests/auth/**"];
                  mapping_confidence := Some 1%Q;
                  mapping_metadata := None |}) ];
     integrations_playwright :=
       Some {| testDir := None; testPatterns := None |} |}.

Definition scenarioA_diff : DiffAnalysisResult :=
  {| baseCommit := "base"; headCommit := "head";
     changes :=
       [ {| filePath := "src/auth/login.js"; changeType := MODIFIED;
            oldPath := None; linesAdded := 3; linesRemoved := 1;
            functionsChanged := []; classesChanged := [];
            importsChanged := [] |} ];
     totalFilesChanged := 1; totalLinesAdded := 3; totalLinesRemoved := 1;
     languagesAffected := ["javascript"] |}.

(** An empty change set. *)
Definition emptyDiff : DiffAnalysisResult :=
  {| baseCommit := "base"; headCommit := "base";
     changes := [];
     totalFilesChanged := 0; totalLinesAdded := 0; totalLinesRemoved := 0;
     languagesAffected := [] |}.

Definition defaultOptions : AnalyzeOptions :=
  {| useAI := None; option_framework := None |}.

(** A feature definition whose static confidence is zero, under a
    file-based strategy of weight one half. *)
Definition halfWeight : StrategyConfig :=
  {| strategy_type := FILE_BASED;
     strategy_enabled := Some true;
     strategy_weight := Some (1 # 2)%Q |}.

Definition legacyMapping : FeatureMappingConfig :=
  {| source_patterns := Some ["src/legacy/**"];
     test_patterns := Some [];
     mapping_confidence := Some 0%Q;
     mapping_metadata := None |}.

Definition legacyDiff : DiffAnalysisResult :=
  {| baseCommit := "base"; headCommit := "head";
     changes :=
       [ {| filePath := "src/legacy/old.js"; changeType := MODIFIED;
            oldPath := None; linesAdded := 1; linesRemoved := 1;
            functionsChanged := []; classesChanged := [];
            importsChanged := [] |} ];
     totalFilesChanged := 1; totalLinesAdded := 1; totalLinesRemoved := 1;
     languagesAffected := ["javascript"] |}.

(** Scenario C in the pipeline: the folder-based strategy (weight [0.75])
    reports [payments] for [src/payments/a.js] with confidence [0.6], the
    annotation-based strategy (weight [1.0]) reports it for the annotated
    file [lib/b.js] with confidence [0.9]. *)
Definition paymentsEnv : Collaborators :=
  {| glob := fun pattern =>
       Some (if includes pattern "payments"
             then ["tests/payments.spec.js"] else []);
     minimatch := fun _ _ => Some false;
     readFile := fun filePath =>
       if String.eqb filePath "lib/b.js"
       then Some "// @feature: payments" else None;
     annotationMatches := fun content =>
       if includes content "@feature: payments" then ["payments"] else [];
     regexTest := fun source subject =>
       Some (includes (toLowerCase subject) (toLowerCase source));
     gitShow := fun _ _ => None;
     parse := fun _ _ => None;
     discoverGlob := fun _ => Some ["tests/payments.spec.js"];
     analyzeImpact := fun _ =>
       (inl "Cannot read properties of null (reading 'analyzeImpact')", [])
  |}.

Definition paymentsConfig : TEOConfig :=
  {| feature_detection_strategies :=
       Some [ {| strategy_type := FOLDER_BASED;
                 strategy_enabled := Some true;
                 strategy_weight := Some (3 # 4)%Q |};
              {| strategy_type := ANNOTATION_BASED;
                 strategy_enabled := Some true;
                 strategy_weight := Some 1%Q |} ];
     features := None;
     integrations_playwright :=
       Some {| testDir := None; testPatterns := None |} |}.

Definition paymentsDiff : DiffAnalysisResult :=
  {| baseCommit := "base"; headCommit := "head";
     changes :=
       [ {| filePath := "src/payments/a.js"; changeType := MODIFIED;
            oldPath := None; linesAdded := 2; linesRemoved := 1;
            functionsChanged := []; classesChanged := [];
            importsChanged := [] |};
         {| filePath := "lib/b.js"; changeType := ADDED;
            oldPath := None; linesAdded := 5; linesRemoved := 0;
            functionsChanged := []; classesChanged := [];
            importsChanged := [] |} ];
     totalFilesChanged := 2; totalLinesAdded := 7; totalLinesRemoved := 1;
     languagesAffected := ["javascript"] |}.

(** A configuration outside the schema that the mapper still accepts: a
    file-based strategy of weight [2]. *)
Definition overweightConfig : TEOConfig :=
  {| feature_detection_strategies :=
       Some [ {| strategy_type := FILE_BASED;
                 strategy_enabled := Some true;
                 strategy_weight := Some 2%Q |} ];
     features :=
       Some [ ("authentication",
               {| source_patterns := Some ["src/auth/**"];
                  test_patterns := Some ["tests/auth/**"];
                  mapping_confidence := Some 1%Q;
                  mapping_metadata := None |}) ];
     integrations_playwright :=
       Some {| testDir := None; testPatterns := None |} |}.

(** A configuration that fails the schema (no weight, no test patterns)
    and keeps the bounds: a file-based strategy without weight and a
    feature of static confidence [0.5]. *)
Definition unweightedConfig : TEOConfig :=
  {| feature_detection_strategies :=
       Some [ {| strategy_type := FILE_BASED;
                 strategy_enabled := Some true;
                 strategy_weight := None |} ];
     features :=
       Some [ ("authentication",
               {| source_patterns := Some ["src/auth/**"];
                  test_patterns := None;
                  mapping_confidence := Some (1 # 2)%Q;
                  mapping_metadata := None |}) ];
     integrations_playwright :=
       Some {| testDir := None; testPatterns := None |} |}.

(** Scenario B: strategy [a] throws, strategy [b] reports the feature [x]
    with confidence [0.7]. *)
Definition featureX : ImpactedFeature :=
  {| featureName := "x"; confidence := 7 # 10;
     impactedFiles := ["src/x.js"]; testFiles := [];
     changeSummary := "Symbol changes: x";
     strategyUsed := AST_BASED; metadata := ∅ |}.

Definition scenarioB : list (string * Strategy) :=
  [ ("a", fun _ _ => throw "boom"); ("b", fun _ _ => ret [featureX]) ].

(** * Notions used in the statements *)

(** The results of a collection that carry a feature name, in processing
    order. *)
Definition contributing (name : string) (results : list ImpactedFeature)
    : list ImpactedFeature :=
  filter (fun r => featureName r = name) results.

(** A strategy result lists no file twice. *)
Definition well_formed (r : ImpactedFeature) : Prop :=
  NoDup (impactedFiles r) ∧ NoDup (testFiles r).

Definition is_maximum (q : Q) (qs : list Q) : Prop :=
  q ∈ qs ∧ ∀ c, c ∈ qs → (c <= q)%Q.

(** [u] is the duplicate-free union of the lists [parts]. *)
Definition is_union (u : list string) (parts : list (list string)) : Prop :=
  NoDup u ∧ ∀ x, x ∈ u ↔ ∃ l, l ∈ parts ∧ x ∈ l.

(** The shallow merge of objects in processing order: a later object
    overwrites the keys it shares with an earlier one. *)
Definition shallowMerge (objects : list (gmap string json))
    : gmap string json :=
  fold_left (fun merged object => object ∪ merged) objects ∅.

(** The features the merge loop processes: the results of the strategies
    that return, in execution order. *)
Definition processed (strategies : list (string * Strategy))
    (diffResult : DiffAnalysisResult)
    (existingMappings : list (string * FeatureMappingConfig))
    : list ImpactedFeature :=
  strategies ≫= (fun entry =>
    match entry.2 diffResult existingMappings with
    | inr features => features
    | inl _ => []
    end).

(** The strategies whose detection returns. *)
Definition succeeds (diffResult : DiffAnalysisResult)
    (existingMappings : list (string * FeatureMappingConfig))
    (entry : string * Strategy) : bool :=
  match entry.2 diffResult existingMappings with
  | inr _ => true
  | inl _ => false
  end.

Definition in_unit (q : Q) : Prop := (0 <= q)%Q ∧ (q <= 1)%Q.

(** A selection entry is attributed to the first feature, in ranked order,
    whose matching tests contain its path: [f] claims the path, no feature
    before [f] does, and the entry carries the data of [f]. *)
Definition claimed_by_first (env : Collaborators) (allTestFiles : list string)
    (ranked : list ImpactedFeature) (t : SelectedTest) : Prop :=
  ∃ earlier f later tests,
    ranked = earlier ++ f :: later
    ∧ matchTestsToFeature env allTestFiles f = inr tests
    ∧ path t ∈ tests
    ∧ (∀ g tg, g ∈ earlier →
         matchTestsToFeature env allTestFiles g = inr tg → path t ∉ tg)
    ∧ feature t = featureName f
    ∧ test_confidence t = confidence f
    ∧ strategy t = strategyUsed f.

(** * Verification *)

(** ** Diff classification and enrichment *)

Section GitDiffAnalyzerFacts.
Variable env : Collaborators.
Variable parsers : list string.

Lemma performSyntaxAnalysis_changeType change baseCommit headCommit :
  changeType (performSyntaxAnalysis env parsers change baseCommit headCommit)
  = changeType change.
Proof.
  unfold performSyntaxAnalysis.
  destruct (detectLanguage _); [|done].
  destruct (negb _); [done|].
  destruct (parseIfAny _ _ _); [|done].
  by destruct (parseIfAny _ _ _) as [[tree|]|].
Qed.

Lemma analyzeFileChange_changeType fileSummary baseCommit headCommit :
  changeType (analyzeFileChange env parsers fileSummary baseCommit headCommit)
  = classify fileSummary.
Proof.
  unfold analyzeFileChange.
  destruct (_ && _)%bool; [|done].
  by rewrite performSyntaxAnalysis_changeType.
Qed.

(** No syntax tree yields a function name: the walk is guarded by a
    query that no language has. *)
Lemma extractFunctions_nil tree language :
  extractFunctions tree language = [].
Proof. reflexivity. Qed.

Lemma analyzeFileChange_functionsChanged fileSummary baseCommit headCommit :
  functionsChanged
    (analyzeFileChange env parsers fileSummary baseCommit headCommit) = [].
Proof.
  unfold analyzeFileChange, performSyntaxAnalysis.
  destruct (_ && _)%bool; [|done]. simpl.
  destruct (detectLanguage _); [|done].
  destruct (negb _); [done|].
  destruct (parseIfAny _ _ _); [|done].
  by destruct (parseIfAny _ _ _) as [[tree|]|].
Qed.

End GitDiffAnalyzerFacts.

(** C6: the change type of a file of the diff summary is [modified] for a
    binary file; otherwise [added] when there are insertions and no
    deletion, [deleted] when there are deletions and no insertion, and
    [modified] in every other case. *)
Theorem analyzeFileChange_classification
    (env : Collaborators) (parsers : list string)
    (fileSummary : FileSummary) (baseCommit headCommit : string) :
  let change :=
    analyzeFileChange env parsers fileSummary baseCommit headCommit in
  let added := (0 < insertions fileSummary ∧ deletions fileSummary = 0)%Z in
  let deleted := (insertions fileSummary = 0 ∧ 0 < deletions fileSummary)%Z in
  (binary fileSummary = true → changeType change = MODIFIED)
  ∧ (binary fileSummary = false → added → changeType change = ADDED)
  ∧ (binary fileSummary = false → ¬ added → deleted →
     changeType change = DELETED)
  ∧ (binary fileSummary = false → ¬ added → ¬ deleted →
     changeType change = MODIFIED).
Proof.
  intros change added deleted. subst change added deleted.
  rewrite analyzeFileChange_changeType. unfold classify.
  destruct (binary fileSummary); [by repeat split|].
  destruct (Z.ltb_spec 0 (insertions fileSummary));
    destruct (Z.eqb_spec (deletions fileSummary) 0);
    destruct (Z.eqb_spec (insertions fileSummary) 0);
    destruct (Z.ltb_spec 0 (deletions fileSummary)); simpl;
    repeat split; intros; try done; try lia; exfalso; intuition lia.
Qed.

(** C2: for the JavaScript file [src/auth/login.js], neither deleted nor
    binary, whose head revision declares the function [login], the class
    [Auth] and one import, the enrichment records the class and the import
    but no function: [functionsChanged] stays empty although the walk the
    other two extractions perform finds the name [login] on the
    [function_declaration] node. *)
Theorem enrichment_misses_functions :
  let change :=
    analyzeFileChange scenarioEnv PARSERS loginSummary "base" "head" in
  changeType change = MODIFIED
  ∧ detectLanguage (filePath change) = Some "javascript"
  ∧ collectNames isFunctionNode loginTree "javascript" = ["login"]
  ∧ functionsChanged change = []
  ∧ classesChanged change = ["Auth"]
  ∧ importsChanged change = ["import db from './db';"].
Proof. vm_compute. by repeat split. Qed.

(** ** Test selection *)

Section SelectionFacts.
Variable env : Collaborators.

Lemma matchPatterns_no_candidates patterns :
  matchPatterns env [] patterns = ret [].
Proof. induction patterns as [|p ps IH]; simpl; [done|]. by rewrite IH. Qed.

Lemma matchTestsToFeature_no_candidates feature :
  matchTestsToFeature env [] feature = ret [].
Proof.
  unfold matchTestsToFeature.
  destruct (Nat.ltb _ _); [rewrite matchPatterns_no_candidates|]; reflexivity.
Qed.

Lemma selectLoop_no_candidates features selected reasons :
  selectLoop env [] features selected reasons = ret (selected, reasons).
Proof.
  revert selected reasons.
  induction features as [|f fs IH]; intros; simpl; [done|].
  rewrite matchTestsToFeature_no_candidates. simpl. apply IH.
Qed.

End SelectionFacts.

(** C10: whenever the test selection is given no available test file, it
    returns a summary with [totalAvailable = 0] and [totalSelected = 0]
    whose [reductionPercentage] is [NaN]: it is not a number of the
    interval from 0 to 100, because [0 / 0] is evaluated unguarded. *)
Theorem selectTests_without_available_tests
    (env : Collaborators) (impactedFeatures : list ImpactedFeature) :
  ∃ result,
    selectTests env [] impactedFeatures = inr result
    ∧ selectedTests result = []
    ∧ totalAvailable (summary result) = 0
    ∧ totalSelected (summary result) = 0
    ∧ reductionPercentage (summary result) = nan
    ∧ PrimFloat.is_nan (reductionPercentage (summary result)) = true
    ∧ (PrimFloat.leb 0 (reductionPercentage (summary result))
       && PrimFloat.leb (reductionPercentage (summary result)) 100)%bool
      = false.
Proof.
  unfold selectTests. rewrite selectLoop_no_candidates. simpl.
  eexists. split; [reflexivity|]. simpl.
  repeat split; vm_compute; reflexivity.
Qed.

(** ** Sets, maps and sorting *)

Section SetFacts.
Context {A : Type} `{EqDecision A}.
Implicit Types (l seen : list A) (x : A).

Lemma mem_spec x l : mem x l = true ↔ x ∈ l.
Proof. apply bool_decide_eq_true. Qed.

Lemma elem_of_Set_add_all x seen l :
  x ∈ Set_add_all seen l ↔ x ∈ l ∧ x ∉ seen.
Proof.
  revert seen. induction l as [|y l IH]; intros seen; simpl.
  - set_solver.
  - unfold mem. case_bool_decide as Hy.
    + rewrite IH. set_solver.
    + rewrite !elem_of_cons, IH. rewrite elem_of_cons.
      destruct (decide (x = y)) as [->|Hne]; naive_solver.
Qed.

Lemma NoDup_Set_add_all seen l : NoDup (Set_add_all seen l).
Proof.
  revert seen. induction l as [|y l IH]; intros seen; simpl.
  - constructor.
  - unfold mem. case_bool_decide; [apply IH|].
    constructor; [|apply IH].
    rewrite elem_of_Set_add_all. set_solver.
Qed.

Lemma Set_add_all_ext seen1 seen2 l :
  (∀ x, x ∈ seen1 ↔ x ∈ seen2) → Set_add_all seen1 l = Set_add_all seen2 l.
Proof.
  revert seen1 seen2. induction l as [|y l IH]; intros s1 s2 Hs; simpl; [done|].
  unfold mem. rewrite (bool_decide_ext _ _ (Hs y)).
  case_bool_decide; [by apply IH|].
  f_equal. apply IH. intros x. rewrite !elem_of_cons. naive_solver.
Qed.

Lemma Set_add_all_app seen l1 l2 :
  Set_add_all seen (l1 ++ l2)
  = Set_add_all seen l1 ++ Set_add_all (l1 ++ seen) l2.
Proof.
  revert seen. induction l1 as [|y l1 IH]; intros seen; simpl; [done|].
  unfold mem. case_bool_decide as Hy.
  - rewrite IH. f_equal. apply Set_add_all_ext. set_solver.
  - simpl. rewrite IH. do 2 f_equal. apply Set_add_all_ext. set_solver.
Qed.

Lemma Set_add_all_NoDup seen l :
  NoDup l → (∀ x, x ∈ l → x ∉ seen) → Set_add_all seen l = l.
Proof.
  revert seen. induction l as [|y l IH]; intros seen Hnd Hseen; simpl; [done|].
  apply NoDup_cons in Hnd as [Hy Hnd].
  unfold mem. rewrite bool_decide_eq_false_2 by set_solver.
  f_equal. apply IH; [done|]. intros x Hx. set_solver.
Qed.

Lemma elem_of_Set_from x l : x ∈ Set_from l ↔ x ∈ l.
Proof. unfold Set_from. rewrite elem_of_Set_add_all. set_solver. Qed.

Lemma NoDup_Set_from l : NoDup (Set_from l).
Proof. apply NoDup_Set_add_all. Qed.

Lemma Set_from_NoDup l : NoDup l → Set_from l = l.
Proof. intros. apply Set_add_all_NoDup; [done|set_solver]. Qed.

Lemma Set_from_app_l l1 l2 : Set_from (Set_from l1 ++ l2) = Set_from (l1 ++ l2).
Proof.
  unfold Set_from. rewrite !Set_add_all_app.
  rewrite (Set_add_all_NoDup [] (Set_add_all [] l1))
    by (apply NoDup_Set_add_all || set_solver).
  f_equal. apply Set_add_all_ext. intros x.
  rewrite !elem_of_app, elem_of_Set_add_all. set_solver.
Qed.

Lemma Set_from_snoc l x :
  Set_from (l ++ [x])
  = if decide (x ∈ l) then Set_from l else Set_from l ++ [x].
Proof.
  unfold Set_from. rewrite Set_add_all_app. simpl. unfold mem.
  rewrite app_nil_r. case_bool_decide; case_decide; try done.
  by rewrite app_nil_r.
Qed.

End SetFacts.

Section MapFacts.
Context {K V : Type} `{EqDecision K}.
Implicit Types (m : list (K * V)) (k : K) (v : V).

Lemma Map_has_true k m : Map_has k m = true ↔ k ∈ Map_keys m.
Proof.
  unfold Map_has, Map_keys. induction m as [|[k' v'] m IH]; simpl.
  - split; [done|]. by intros ?%elem_of_nil.
  - rewrite elem_of_cons. case_decide; subst; [naive_solver|].
    rewrite IH. naive_solver.
Qed.

Lemma Map_has_false k m : Map_has k m = false ↔ k ∉ Map_keys m.
Proof. rewrite <- Map_has_true. by destruct (Map_has k m). Qed.

Lemma Map_get_None k m : Map_get k m = None ↔ k ∉ Map_keys m.
Proof.
  rewrite <- Map_has_false. unfold Map_has. by destruct (Map_get k m).
Qed.

Lemma Map_get_elem_of k v m : Map_get k m = Some v → (k, v) ∈ m.
Proof.
  induction m as [|[k' v'] m IH]; simpl; [done|].
  case_decide; subst.
  - intros [= ->]. left.
  - intros. right. by apply IH.
Qed.

Lemma elem_of_Map_get k v m :
  NoDup (Map_keys m) → (k, v) ∈ m → Map_get k m = Some v.
Proof.
  unfold Map_keys. induction m as [|[k' v'] m IH]; simpl.
  - by intros _ ?%elem_of_nil.
  - intros [Hk Hnd]%NoDup_cons [[= -> ->]|Hin]%elem_of_cons.
    + by rewrite decide_True.
    + rewrite decide_False; [by apply IH|].
      intros ->. apply Hk. apply list_elem_of_fmap. by exists (k, v).
Qed.

Lemma Map_keys_update k f m : Map_keys (Map_update k f m) = Map_keys m.
Proof.
  unfold Map_keys. induction m as [|[k' v'] m IH]; simpl; [done|].
  case_decide; simpl; [done|]. f_equal. apply IH.
Qed.

Lemma Map_get_update k k' f m :
  Map_get k' (Map_update k f m)
  = if decide (k = k') then f <$> Map_get k' m else Map_get k' m.
Proof.
  induction m as [|[k0 v0] m IH]; simpl; [by case_decide|].
  destruct (decide (k0 = k)) as [->|Hk0]; simpl.
  - destruct (decide (k = k')) as [->|]; [done|done].
  - destruct (decide (k0 = k')) as [->|].
    + by rewrite decide_False by done.
    + apply IH.
Qed.

Lemma Map_get_snoc k k' v m :
  Map_get k' (m ++ [(k, v)])
  = match Map_get k' m with
    | Some x => Some x
    | None => if decide (k = k') then Some v else None
    end.
Proof.
  induction m as [|[k0 v0] m IH]; simpl; [done|].
  destruct (decide (k0 = k')); [done|apply IH].
Qed.

Lemma Map_set_elem_of k v k' v' m :
  (k', v') ∈ Map_set k v m → (k', v') = (k, v) ∨ (k', v') ∈ m.
Proof.
  unfold Map_set. destruct (Map_has k m).
  - induction m as [|[k0 v0] m IH]; simpl; [by intros ?%elem_of_nil|].
    case_decide; subst; rewrite !elem_of_cons; naive_solver.
  - rewrite elem_of_app, list_elem_of_singleton. naive_solver.
Qed.

End MapFacts.

Section SortFacts.
Context {A : Type} (before : A → A → bool).

Lemma sort_insert_perm x l : sort_insert before x l ≡ₚ x :: l.
Proof.
  induction l as [|y l IH]; simpl; [done|].
  destruct (before x y); [done|].
  rewrite IH. apply Permutation_swap.
Qed.

Lemma Array_sort_perm l : Array_sort before l ≡ₚ l.
Proof.
  induction l as [|x l IH]; simpl; [done|].
  by rewrite sort_insert_perm, IH.
Qed.

(** An element moves only past elements it does not sort before; a
    property that none of those has keeps its elements in place. *)
Lemma sort_insert_filter (P : A → Prop) `{∀ a, Decision (P a)} x l :
  (∀ y, P x → P y → before x y = true) →
  filter P (sort_insert before x l) = filter P (x :: l).
Proof.
  intros HP. induction l as [|y l IH]; simpl; [done|].
  destruct (before x y) eqn:Hxy; [done|].
  rewrite filter_cons, IH, !filter_cons.
  destruct (decide (P y)) as [Hy|]; [|done].
  destruct (decide (P x)) as [Hx|]; [|done].
  rewrite HP in Hxy; done.
Qed.

Lemma Array_sort_filter (P : A → Prop) `{∀ a, Decision (P a)} l :
  (∀ x y, P x → P y → before x y = true) →
  filter P (Array_sort before l) = filter P l.
Proof.
  intros HP. induction l as [|x l IH]; simpl; [done|].
  rewrite sort_insert_filter by eauto.
  by rewrite !filter_cons, IH.
Qed.

Lemma sort_insert_sorted (R : relation A) x l :
  (∀ a b, before a b = true → R a b) →
  (∀ a b, before a b = false → R b a) →
  Transitive R →
  StronglySorted R l → StronglySorted R (sort_insert before x l).
Proof.
  intros Ht Hf Htrans. induction 1 as [|y l Hs IH Hy]; simpl.
  - repeat constructor.
  - destruct (before x y) eqn:Hxy.
    + constructor; [by constructor|].
      constructor; [by apply Ht|].
      eapply Forall_impl; [exact Hy|]. intros z Hz.
      etransitivity; [|exact Hz]. by apply Ht.
    + constructor; [done|].
      eapply Permutation_Forall; [symmetry; apply sort_insert_perm|].
      constructor; [by apply Hf|done].
Qed.

Lemma Array_sort_sorted (R : relation A) l :
  (∀ a b, before a b = true → R a b) →
  (∀ a b, before a b = false → R b a) →
  Transitive R →
  StronglySorted R (Array_sort before l).
Proof.
  intros. induction l as [|x l IH]; simpl; [constructor|].
  by apply sort_insert_sorted.
Qed.

End SortFacts.

(** ** Aggregation *)

Section AggregationFacts.

Lemma Math_max_cases a b :
  (Math_max a b = a ∧ (b <= a)%Q) ∨ (Math_max a b = b ∧ (a <= b)%Q).
Proof.
  unfold Math_max. destruct (Qle_bool a b) eqn:Hab.
  - right. split; [done|]. by apply Qle_bool_iff.
  - left. split; [done|]. apply Qlt_le_weak, Qnot_le_lt.
    intros Hle. apply Qle_bool_iff in Hle. congruence.
Qed.

Lemma is_maximum_singleton q : is_maximum q [q].
Proof.
  split; [left|]. intros c ->%list_elem_of_singleton. apply Qle_refl.
Qed.

Lemma is_maximum_snoc q qs c :
  is_maximum q qs → is_maximum (Math_max q c) (qs ++ [c]).
Proof.
  intros [Hin Hmax].
  destruct (Math_max_cases q c) as [[-> Hle]|[-> Hle]]; split.
  - apply elem_of_app. by left.
  - intros x [Hx| ->%list_elem_of_singleton]%elem_of_app; auto.
  - apply elem_of_app. right. left.
  - intros x [Hx| ->%list_elem_of_singleton]%elem_of_app.
    + eapply Qle_trans; [by apply Hmax|done].
    + apply Qle_refl.
Qed.

Lemma shallowMerge_snoc objects object :
  shallowMerge (objects ++ [object]) = object ∪ shallowMerge objects.
Proof. unfold shallowMerge. by rewrite fold_left_app. Qed.

Lemma shallowMerge_lookup {B} (g : B → gmap string json) (l : list B) k v :
  shallowMerge (g <$> l) !! k = Some v
  ↔ ∃ l1 b l2, l = l1 ++ b :: l2 ∧ g b !! k = Some v
               ∧ ∀ b', b' ∈ l2 → g b' !! k = None.
Proof.
  induction l as [|b l IH] using rev_ind.
  - simpl. unfold shallowMerge. simpl. rewrite lookup_empty. split; [done|].
    intros (l1 & b & l2 & Heq & _). by destruct l1.
  - rewrite fmap_app. simpl. rewrite shallowMerge_snoc.
    rewrite lookup_union_Some_raw, IH. split.
    + intros [Hb|[Hb (l1 & b0 & l2 & -> & Hb0 & Hl2)]].
      * exists l, b, []. split; [done|]. split; [done|].
        by intros ? ?%elem_of_nil.
      * exists l1, b0, (l2 ++ [b]). split; [by rewrite <- app_assoc|].
        split; [done|].
        intros b' [?| ->%list_elem_of_singleton]%elem_of_app; auto.
    + intros (l1 & b0 & l2 & Heq & Hb0 & Hl2).
      destruct l2 as [|b2 l2 _] using rev_ind.
      * apply app_inj_tail in Heq as [-> ->]. by left.
      * rewrite app_comm_cons, app_assoc in Heq.
        apply app_inj_tail in Heq as [-> ->].
        right. split; [apply Hl2; set_solver|].
        exists l1, b0, l2. split; [done|]. split; [done|].
        intros. apply Hl2. set_solver.
Qed.

Lemma is_union_bind (f : ImpactedFeature → list string) cs :
  is_union (Set_from (cs ≫= f)) (f <$> cs).
Proof.
  split; [apply NoDup_Set_from|]. intros x.
  rewrite elem_of_Set_from, list_elem_of_bind. split.
  - intros (y & Hx & Hy). exists (f y). split; [|done].
    by apply list_elem_of_fmap_2.
  - intros (l & (y & -> & Hy)%list_elem_of_fmap & Hx). eauto.
Qed.

Lemma mergeFeatures_snoc all results r :
  mergeFeatures all (results ++ [r])
  = mergeFeature (mergeFeatures all results) r.
Proof. unfold mergeFeatures. by rewrite fold_left_app. Qed.

Lemma mergeFeatures_app all rs1 rs2 :
  mergeFeatures all (rs1 ++ rs2) = mergeFeatures (mergeFeatures all rs1) rs2.
Proof. unfold mergeFeatures. by rewrite fold_left_app. Qed.

(** The keys of the map are the feature names in order of first
    occurrence. *)
Lemma mergeFeatures_keys results :
  Map_keys (mergeFeatures [] results) = Set_from (featureName <$> results).
Proof.
  induction results as [|r results IH] using rev_ind; [done|].
  rewrite mergeFeatures_snoc, fmap_app.
  change (featureName <$> [r]) with [featureName r].
  rewrite Set_from_snoc. unfold mergeFeature.
  destruct (Map_has _ _) eqn:Hhas.
  - rewrite Map_keys_update, IH.
    apply Map_has_true in Hhas. rewrite IH, elem_of_Set_from in Hhas.
    by rewrite decide_True.
  - apply Map_has_false in Hhas. unfold Map_set.
    rewrite (proj2 (Map_has_false _ _) Hhas).
    rewrite IH, elem_of_Set_from in Hhas.
    rewrite decide_False by done.
    unfold Map_keys in *. by rewrite fmap_app, IH.
Qed.

Lemma contributing_snoc name results r :
  contributing name (results ++ [r])
  = contributing name results
    ++ (if decide (featureName r = name) then [r] else []).
Proof. unfold contributing. by rewrite filter_app. Qed.

Lemma contributing_nil name results :
  name ∉ featureName <$> results → contributing name results = [].
Proof.
  intros Hname. unfold contributing.
  induction results as [|r results IH]; [done|].
  rewrite fmap_cons, not_elem_of_cons in Hname. destruct Hname as [Hr Hrs].
  rewrite filter_cons_False by done. by apply IH.
Qed.

(** What the entry stored under a name holds after the fold. *)
Definition aggregates (results : list ImpactedFeature) (name : string)
    (merged : ImpactedFeature) : Prop :=
  let cs := contributing name results in
  featureName merged = name
  ∧ is_maximum (confidence merged) (confidence <$> cs)
  ∧ impactedFiles merged = Set_from (cs ≫= impactedFiles)
  ∧ testFiles merged = Set_from (cs ≫= testFiles)
  ∧ metadata merged = shallowMerge (metadata <$> cs).

Lemma mergeFeatures_aggregates results name merged :
  Forall well_formed results →
  Map_get name (mergeFeatures [] results) = Some merged →
  aggregates results name merged.
Proof.
  revert name merged.
  induction results as [|r results IH] using rev_ind; intros name merged Hwf;
    [done|].
  apply Forall_app in Hwf as [Hwf [[Hr1 Hr2] _]%Forall_cons].
  rewrite mergeFeatures_snoc. unfold mergeFeature.
  pose proof (mergeFeatures_keys results) as Hkeys.
  unfold aggregates. rewrite contributing_snoc.
  destruct (Map_has _ _) eqn:Hhas.
  - rewrite Map_get_update. case_decide as Hname.
    + destruct (Map_get name _) as [old|] eqn:Hold; [|done].
      intros [= <-]. simpl.
      destruct (IH _ _ Hwf Hold) as (Hn & Hmax & Hfiles & Htests & Hmeta).
      rewrite !fmap_app, !bind_app. simpl. rewrite !app_nil_r.
      rewrite Hfiles, Htests, Hmeta, !Set_from_app_l, shallowMerge_snoc.
      split; [done|]. split; [by apply is_maximum_snoc|done].
    + intros Hget. rewrite app_nil_r. by apply IH.
  - apply Map_has_false in Hhas. unfold Map_set.
    rewrite (proj2 (Map_has_false _ _) Hhas), Map_get_snoc.
    destruct (Map_get name _) as [old|] eqn:Hold.
    + intros [= <-]. rewrite decide_False, app_nil_r; [by apply IH|].
      intros Heq. apply Hhas. rewrite Heq.
      apply Map_get_elem_of in Hold.
      apply list_elem_of_fmap. by exists (name, old).
    + case_decide as Hname; [|done]. intros [= <-].
      apply Map_get_None in Hold. rewrite Hkeys, elem_of_Set_from in Hold.
      rewrite (contributing_nil _ _ Hold). simpl. rewrite !app_nil_r.
      rewrite !Set_from_NoDup by done.
      split; [done|]. split; [apply is_maximum_singleton|].
      split; [done|]. split; [done|].
      unfold shallowMerge. simpl. by rewrite (right_id_L ∅ (∪)).
Qed.

Lemma mergeFeatures_names results name merged :
  (name, merged) ∈ mergeFeatures [] results → featureName merged = name.
Proof.
  revert name merged.
  induction results as [|r results IH] using rev_ind; intros name merged.
  - by intros ?%elem_of_nil.
  - rewrite mergeFeatures_snoc. unfold mergeFeature.
    destruct (Map_has _ _) eqn:Hhas.
    + generalize (mergeFeatures [] results) IH. clear.
      intros m IH. induction m as [|[k0 v0] m IHm]; simpl;
        [by intros ?%elem_of_nil|].
      case_decide; subst; rewrite !elem_of_cons.
      * intros [[= -> ->]|Hin]; simpl; [|apply IH; by right].
        apply IH. left.
      * intros [[= -> ->]|Hin]; [apply IH; left|].
        apply IHm; [|done]. intros. apply IH. by right.
    + intros [[= -> ->]|Hin]%Map_set_elem_of; [done|by apply IH].
Qed.

End AggregationFacts.

(** The fold over any results that list no file twice: the entry of a
    feature name that occurs is the only one of that name and combines the
    contributing results. *)
Lemma mergeFeatures_merges
    (results : list ImpactedFeature) (name : string) :
  Forall well_formed results →
  name ∈ featureName <$> results →
  let allFeatures := mergeFeatures [] results in
  let cs := contributing name results in
  ∃ merged,
    Map_get name allFeatures = Some merged
    ∧ (∀ other, other ∈ Map_values allFeatures →
                featureName other = name → other = merged)
    ∧ featureName merged = name
    ∧ is_maximum (confidence merged) (confidence <$> cs)
    ∧ is_union (impactedFiles merged) (impactedFiles <$> cs)
    ∧ is_union (testFiles merged) (testFiles <$> cs)
    ∧ metadata merged = shallowMerge (metadata <$> cs)
    ∧ ∀ k v, metadata merged !! k = Some v
             ↔ ∃ cs1 r cs2, cs = cs1 ++ r :: cs2
                 ∧ metadata r !! k = Some v
                 ∧ ∀ r', r' ∈ cs2 → metadata r' !! k = None.
Proof.
  intros Hwf Hname allFeatures cs.
  pose proof (mergeFeatures_keys results) as Hkeys. fold allFeatures in Hkeys.
  destruct (Map_get name allFeatures) as [merged|] eqn:Hget.
  2: { apply Map_get_None in Hget. rewrite Hkeys, elem_of_Set_from in Hget.
       done. }
  exists merged. split; [done|].
  destruct (mergeFeatures_aggregates _ _ _ Hwf Hget)
    as (Hn & Hmax & Hfiles & Htests & Hmeta).
  fold cs in Hmax, Hfiles, Htests, Hmeta.
  split.
  { intros other [[k o] [-> Hin]]%list_elem_of_fmap Hother. simpl in *.
    pose proof (mergeFeatures_names _ _ _ Hin) as Hk.
    assert (Map_get k allFeatures = Some o) as Hgo.
    { apply elem_of_Map_get; [|done]. rewrite Hkeys. apply NoDup_Set_from. }
    congruence. }
  split; [done|]. split; [done|].
  split; [rewrite Hfiles; apply is_union_bind|].
  split; [rewrite Htests; apply is_union_bind|].
  split; [done|].
  intros k v. rewrite Hmeta. apply shallowMerge_lookup.
Qed.

(** Scenario C: confidences [0.6] and [0.9] with evidence [a.js] and
    [b.js] merge into one entry. *)
Example mergeFeatures_scenario_C :
  ∃ merged,
    Map_get "payments" (mergeFeatures [] scenarioC) = Some merged
    ∧ is_maximum (confidence merged)
                 (confidence <$> contributing "payments" scenarioC)
    ∧ is_union (impactedFiles merged)
               (impactedFiles <$> contributing "payments" scenarioC).
Proof.
  destruct (mergeFeatures_merges scenarioC "payments")
    as (merged & Hget & _ & _ & Hmax & Hfiles & _).
  - repeat constructor; simpl; set_solver.
  - simpl. set_solver.
  - exists merged. auto.
Qed.

Example mergeFeatures_scenario_C_value :
  (fun f => (featureName f, confidence f, impactedFiles f))
  <$> Map_values (mergeFeatures [] scenarioC)
  = [("payments", (9 # 10)%Q, ["a.js"; "b.js"])].
Proof. reflexivity. Qed.

(** ** The mapper *)

Section MapperFacts.

Lemma applyStrategies_features strategies diff mappings all log :
  (applyStrategies strategies diff mappings all log).1
  = mergeFeatures all (processed strategies diff mappings).
Proof.
  revert all log.
  induction strategies as [|[ty s] strategies IH]; intros all log; [done|].
  unfold processed. simpl.
  destruct (s diff mappings) as [msg|features]; rewrite IH; [done|].
  by rewrite mergeFeatures_app.
Qed.

Lemma applyStrategies_log_keeps strategies diff mappings all log entry :
  entry ∈ log → entry ∈ (applyStrategies strategies diff mappings all log).2.
Proof.
  revert all log.
  induction strategies as [|[ty s] strategies IH]; intros all log Hin; [done|].
  simpl. destruct (s diff mappings); apply IH; set_solver.
Qed.

Lemma applyStrategies_warns strategies diff mappings all log ty s message :
  (ty, s) ∈ strategies → s diff mappings = inl message →
  mkLog LWarn "Strategy failed" ty message
  ∈ (applyStrategies strategies diff mappings all log).2.
Proof.
  revert all log.
  induction strategies as [|[ty0 s0] strategies IH]; intros all log Hin Hs.
  - by apply elem_of_nil in Hin.
  - apply elem_of_cons in Hin as [[= <- <-]|Hin]; simpl.
    + rewrite Hs. apply applyStrategies_log_keeps. set_solver.
    + destruct (s0 diff mappings); by apply IH.
Qed.

Lemma mapChangesWith_returns strategies mappings diff :
  (mapChangesWith strategies mappings (Some diff)).1
  = inr (Array_sort byConfidence
           (Map_values
              (mergeFeatures [] (processed strategies diff mappings)))).
Proof.
  unfold mapChangesWith.
  pose proof (applyStrategies_features strategies diff mappings []
                [mkLog LInfo "Starting feature mapping" "" ""]) as H.
  destruct (applyStrategies _ _ _ _ _) as [all log]. simpl in *. by rewrite H.
Qed.

Lemma mapChangesWith_log strategies mappings diff entry :
  entry ∈ (applyStrategies strategies diff mappings []
             [mkLog LInfo "Starting feature mapping" "" ""]).2 →
  entry ∈ (mapChangesWith strategies mappings (Some diff)).2.
Proof.
  unfold mapChangesWith.
  destruct (applyStrategies _ _ _ _ _) as [all log]. simpl. set_solver.
Qed.

Lemma processed_successful strategies diff mappings :
  processed (List.filter (succeeds diff mappings) strategies) diff mappings
  = processed strategies diff mappings.
Proof.
  unfold processed.
  induction strategies as [|[ty s] strategies IH]; [done|].
  simpl. unfold succeeds at 1. simpl.
  destruct (s diff mappings) as [msg|features] eqn:Hs; simpl.
  - apply IH.
  - rewrite Hs. f_equal. apply IH.
Qed.

Lemma processed_emptied strategies diff mappings :
  processed
    ((fun entry => if succeeds diff mappings entry then entry
                   else (entry.1, fun _ _ => ret [])) <$> strategies)
    diff mappings
  = processed strategies diff mappings.
Proof.
  unfold processed.
  induction strategies as [|[ty s] strategies IH]; [done|].
  simpl. unfold succeeds at 1. simpl.
  destruct (s diff mappings) as [msg|features] eqn:Hs; simpl.
  - apply IH.
  - rewrite Hs. f_equal. apply IH.
Qed.

Lemma applyStrategies_log_levels strategies diff mappings all log entry :
  (∀ ty s, (ty, s) ∈ strategies → ∃ features, s diff mappings = inr features) →
  entry ∈ (applyStrategies strategies diff mappings all log).2 →
  entry ∈ log ∨ log_level entry = LDebug.
Proof.
  revert all log.
  induction strategies as [|[ty s] strategies IH]; intros all log Hok; simpl;
    [by left|].
  destruct (Hok ty s) as [features ->]; [left|].
  intros [Hin|Hdebug]%IH;
    [|by right|intros ty' s' ?; apply (Hok ty' s'); by right].
  rewrite !elem_of_app, !elem_of_cons in Hin.
  destruct Hin as [[Hin|[->|[]%elem_of_nil]]|[->|[->|[]%elem_of_nil]]]; auto.
Qed.

Lemma mapChangesWith_quiet strategies mappings diff entry :
  (∀ ty s, (ty, s) ∈ strategies → ∃ features, s diff mappings = inr features) →
  entry ∈ (mapChangesWith strategies mappings (Some diff)).2 →
  log_level entry ≠ LWarn.
Proof.
  intros Hok. unfold mapChangesWith.
  pose proof (applyStrategies_log_levels strategies diff mappings []
                [mkLog LInfo "Starting feature mapping" "" ""] entry Hok)
    as Hlevels.
  destruct (applyStrategies _ _ _ _ _) as [all log]. simpl in *.
  intros [Hin| ->%list_elem_of_singleton]%elem_of_app; [|done].
  destruct (Hlevels Hin) as [->%list_elem_of_singleton| ->]; done.
Qed.

End MapperFacts.

Lemma Map_values_names (m : list (string * ImpactedFeature)) :
  (∀ k v, (k, v) ∈ m → featureName v = k) →
  featureName <$> Map_values m = Map_keys m.
Proof.
  unfold Map_values, Map_keys.
  induction m as [|[k v] m IH]; intros Hm; [done|].
  simpl. f_equal; [apply Hm; left|]. apply IH. intros. apply Hm. by right.
Qed.

(** The results the merge loop processes are those of the strategies that
    return. *)
Lemma elem_of_processed strategies diff mappings r :
  r ∈ processed strategies diff mappings
  ↔ ∃ ty s results,
      (ty, s) ∈ strategies ∧ s diff mappings = inr results ∧ r ∈ results.
Proof.
  unfold processed. rewrite list_elem_of_bind. split.
  - intros ([ty s] & Hr & Hin). simpl in Hr.
    destruct (s diff mappings) as [msg|results] eqn:Hs;
      [by apply elem_of_nil in Hr|].
    by exists ty, s, results.
  - intros (ty & s & results & Hin & Hs & Hr).
    exists (ty, s). simpl. by rewrite Hs.
Qed.

(** Every processed result is taken up by the entry of its name: the
    entry has at least its confidence and holds its files. *)
Lemma mergeFeatures_covers results r :
  r ∈ results →
  ∃ merged,
    Map_get (featureName r) (mergeFeatures [] results) = Some merged
    ∧ (confidence r <= confidence merged)%Q
    ∧ (∀ x, x ∈ impactedFiles r → x ∈ impactedFiles merged)
    ∧ (∀ x, x ∈ testFiles r → x ∈ testFiles merged).
Proof.
  induction results as [|r0 results IH] using rev_ind;
    [by intros ?%elem_of_nil|].
  rewrite mergeFeatures_snoc. unfold mergeFeature.
  intros [Hin| ->%list_elem_of_singleton]%elem_of_app.
  - destruct (IH Hin) as (merged & Hget & Hconf & Hfiles & Htests).
    destruct (Map_has _ _) eqn:Hhas.
    + rewrite Map_get_update, Hget. case_decide; [|by exists merged].
      eexists. split; [reflexivity|]. simpl. split; [|split].
      * destruct (Math_max_cases (confidence merged) (confidence r0))
          as [[-> _]|[-> Hle]]; [done|]. by eapply Qle_trans.
      * intros x Hx. apply elem_of_Set_from, elem_of_app. left. by apply Hfiles.
      * intros x Hx. apply elem_of_Set_from, elem_of_app. left. by apply Htests.
    + unfold Map_set. rewrite Hhas, Map_get_snoc, Hget. by exists merged.
  - destruct (Map_has _ _) eqn:Hhas.
    + rewrite Map_get_update, decide_True by done.
      unfold Map_has in Hhas.
      destruct (Map_get (featureName r0) (mergeFeatures [] results))
        as [existing|]; [|done].
      eexists. split; [reflexivity|]. simpl. split; [|split].
      * destruct (Math_max_cases (confidence existing) (confidence r0))
          as [[-> Hle]|[-> _]]; [done|apply Qle_refl].
      * intros x Hx. apply elem_of_Set_from, elem_of_app. by right.
      * intros x Hx. apply elem_of_Set_from, elem_of_app. by right.
    + unfold Map_set. rewrite Hhas, Map_get_snoc.
      unfold Map_has in Hhas.
      destruct (Map_get (featureName r0) (mergeFeatures [] results));
        [done|].
      rewrite decide_True by done. exists r0.
      split; [done|]. split; [apply Qle_refl|done].
Qed.

(** Every entry stands for a processed result of its name and carries the
    confidence of one. *)
Lemma mergeFeatures_origin results name merged :
  Map_get name (mergeFeatures [] results) = Some merged →
  ∃ r, r ∈ results ∧ featureName r = name ∧ confidence r = confidence merged.
Proof.
  revert name merged.
  induction results as [|r0 results IH] using rev_ind; intros name merged;
    [done|].
  rewrite mergeFeatures_snoc. unfold mergeFeature.
  destruct (Map_has _ _) eqn:Hhas.
  - rewrite Map_get_update. case_decide as Hname.
    + destruct (Map_get name (mergeFeatures [] results)) as [existing|]
        eqn:Hget; [|done].
      intros [= <-]. simpl.
      destruct (IH _ _ Hget) as (r & Hr & Hrname & Hrconf).
      destruct (Math_max_cases (confidence existing) (confidence r0))
        as [[-> _]|[-> _]].
      * exists r. split; [|done]. apply elem_of_app. by left.
      * exists r0. split; [|done]. apply elem_of_app. right. left.
    + intros (r & Hr & ?)%IH. exists r. split; [|done].
      apply elem_of_app. by left.
  - unfold Map_set. rewrite Hhas, Map_get_snoc.
    destruct (Map_get name (mergeFeatures [] results)) as [existing|]
      eqn:Hget.
    + intros [= <-]. destruct (IH _ _ Hget) as (r & Hr & ?).
      exists r. split; [|done]. apply elem_of_app. by left.
    + case_decide as Hname; [|done]. intros [= Heq]. subst merged.
      exists r0. split; [|done]. apply elem_of_app. right. left.
Qed.

(** C7: when the detection of a strategy throws, the mapping step still
    returns, and the log holds a warning [Strategy failed] with the type of
    the strategy and the message of the error.  The list returned is the
    one the successful strategies alone give, which is also the one
    obtained when every failing strategy is replaced by a strategy that
    reports nothing.  It holds every feature name once; every result of a
    strategy that returns is taken up by the feature of its name, which
    has at least its confidence and holds its impacted files and test
    files; and every feature of the list stands for such a result, whose
    confidence it carries. *)
Theorem failing_strategy_is_isolated
    (strategies : list (string * Strategy))
    (existingMappings : list (string * FeatureMappingConfig))
    (diffResult : DiffAnalysisResult) :
  let run := mapChangesWith strategies existingMappings (Some diffResult) in
  let successful :=
    List.filter (succeeds diffResult existingMappings) strategies in
  let emptied :=
    (fun entry => if succeeds diffResult existingMappings entry then entry
                  else (entry.1, (fun _ _ => ret []) : Strategy))
    <$> strategies in
  ∃ features,
    run.1 = inr features
    ∧ run.1 = (mapChangesWith successful existingMappings (Some diffResult)).1
    ∧ run.1 = (mapChangesWith emptied existingMappings (Some diffResult)).1
    ∧ NoDup (featureName <$> features)
    ∧ (∀ strategyType strategy results r,
         (strategyType, strategy) ∈ strategies →
         strategy diffResult existingMappings = inr results →
         r ∈ results →
         ∃ f, f ∈ features
              ∧ featureName f = featureName r
              ∧ (confidence r <= confidence f)%Q
              ∧ (∀ x, x ∈ impactedFiles r → x ∈ impactedFiles f)
              ∧ (∀ x, x ∈ testFiles r → x ∈ testFiles f))
    ∧ (∀ f, f ∈ features →
         ∃ strategyType strategy results r,
           (strategyType, strategy) ∈ strategies
           ∧ strategy diffResult existingMappings = inr results
           ∧ r ∈ results
           ∧ featureName r = featureName f
           ∧ confidence r = confidence f)
    ∧ ∀ strategyType strategy message,
        (strategyType, strategy) ∈ strategies →
        strategy diffResult existingMappings = inl message →
        mkLog LWarn "Strategy failed" strategyType message ∈ run.2.
Proof.
  intros run successful emptied. subst run successful emptied.
  rewrite !mapChangesWith_returns, processed_successful, processed_emptied.
  set (results := processed strategies diffResult existingMappings).
  set (allFeatures := mergeFeatures [] results).
  assert (NoDup (Map_keys allFeatures)) as Hkeys.
  { subst allFeatures. rewrite mergeFeatures_keys. apply NoDup_Set_from. }
  eexists. split; [reflexivity|]. split; [done|]. split; [done|].
  split; [|split; [|split]].
  - rewrite Array_sort_perm, Map_values_names; [done|].
    apply mergeFeatures_names.
  - intros ty s rs r Hin Hs Hr.
    assert (r ∈ results) as Hprocessed.
    { apply elem_of_processed. by exists ty, s, rs. }
    destruct (mergeFeatures_covers results r Hprocessed)
      as (merged & Hget & Hcovers).
    exists merged. split.
    { rewrite Array_sort_perm. apply list_elem_of_fmap.
      exists (featureName r, merged). split; [done|].
      by apply Map_get_elem_of. }
    split; [|done].
    apply (mergeFeatures_names results). by apply Map_get_elem_of.
  - intros f Hf. rewrite Array_sort_perm in Hf.
    apply list_elem_of_fmap in Hf as ([name merged] & -> & Hin). simpl.
    apply (elem_of_Map_get _ _ _ Hkeys) in Hin as Hget.
    destruct (mergeFeatures_origin results name merged Hget)
      as (r & Hr & Hname & Hconf).
    apply elem_of_processed in Hr as (ty & s & rs & Hs & Hrun & Hr).
    exists ty, s, rs, r. split; [done|]. split; [done|]. split; [done|].
    split; [|done]. rewrite Hname. symmetry.
    by apply (mergeFeatures_names results).
  - intros ty s message Hin Hs.
    by apply mapChangesWith_log, applyStrategies_warns with s.
Qed.

(** Scenario B: the list is [[x]], the failure of [a] is logged. *)
Example failing_strategy_scenario_B :
  mapChangesWith scenarioB [] (Some scenarioA_diff)
  = (inr [featureX],
     [ mkLog LInfo "Starting feature mapping" "" "";
       mkLog LDebug "Applying mapping strategy" "a" "";
       mkLog LWarn "Strategy failed" "a" "boom";
       mkLog LDebug "Applying mapping strategy" "b" "";
       mkLog LDebug "Strategy results" "b" "";
       mkLog LDebug "Strategy completed" "b" "";
       mkLog LInfo "Feature mapping completed" "" "" ]).
Proof. reflexivity. Qed.

(** Scenario B: strategy [a] throws for the only changed file and strategy
    [b] reports [x] with confidence [0.7]; the list returned holds one
    feature, [x] with confidence [0.7] and the file of the result, and the
    failure of [a] is in the log. *)
Lemma failing_strategy_isolated_scenario_B :
  let run := mapChangesWith scenarioB [] (Some scenarioA_diff) in
  ∃ f,
    run.1 = inr [f]
    ∧ featureName f = "x"
    ∧ confidence f = (7 # 10)%Q
    ∧ "src/x.js" ∈ impactedFiles f
    ∧ mkLog LWarn "Strategy failed" "a" "boom" ∈ run.2.
Proof.
  intros run.
  destruct (failing_strategy_is_isolated scenarioB [] scenarioA_diff)
    as (features & Hrun & _ & _ & Hnd & Hcovers & Horigin & Hwarn).
  fold run in Hrun, Hwarn.
  assert (∀ f, f ∈ features →
            featureName f = "x" ∧ confidence f = (7 # 10)%Q) as Hx.
  { intros f (ty & s & rs & r & Hin & Hs & Hr & <- & <-)%Horigin.
    apply elem_of_cons in Hin as [[= -> ->]|Hin]; [done|].
    apply list_elem_of_singleton in Hin as [= -> ->].
    injection Hs as <-. by apply list_elem_of_singleton in Hr as ->. }
  destruct (Hcovers "b" (λ _ _, ret [featureX]) [featureX] featureX)
    as (f & Hf & _ & _ & Hfiles & _);
    [right; left|done|left|].
  destruct features as [|g features]; [by apply elem_of_nil in Hf|].
  destruct features as [|h features].
  - apply list_elem_of_singleton in Hf as ->.
    exists g. split; [exact Hrun|].
    destruct (Hx g) as [Hname Hconf]; [left|].
    split; [done|]. split; [done|]. split; [apply Hfiles; left|].
    apply (Hwarn "a" (λ _ _, throw "boom")); [left|done].
  - exfalso. simpl in Hnd. apply NoDup_cons in Hnd as [Hg _].
    apply Hg. destruct (Hx g) as [-> _]; [left|].
    destruct (Hx h) as [<- _]; [right; left|]. left.
Defined.

(** ** Ranking *)

Section RankingFacts.

Lemma filter_eq_cons_inv {A} (P : A → Prop) `{∀ a, Decision (P a)}
    (l : list A) x rest :
  filter P l = x :: rest →
  ∃ l1 l2, l = l1 ++ x :: l2 ∧ filter P l2 = rest.
Proof.
  induction l as [|y l IH]; [done|].
  rewrite filter_cons. case_decide.
  - intros [= -> <-]. by exists [], l.
  - intros (l1 & l2 & -> & Hl2)%IH. by exists (y :: l1), l2.
Qed.

Lemma filter_eq_app_cons_inv {A} (P : A → Prop) `{∀ a, Decision (P a)}
    (l : list A) front x rest :
  filter P l = front ++ x :: rest →
  ∃ l1 l2, l = l1 ++ x :: l2 ∧ filter P l2 = rest.
Proof.
  revert l. induction front as [|y front IH]; intros l; simpl.
  - apply filter_eq_cons_inv.
  - intros (l1 & l2 & -> & Hl2)%filter_eq_cons_inv.
    apply IH in Hl2 as (l3 & l4 & -> & Hl4).
    exists (l1 ++ y :: l3), l4. split; [|done].
    by rewrite <- app_assoc.
Qed.

(** A stable sort keeps two elements of equal rank in their order. *)
Lemma equal_rank_order {A} (P : A → Prop) `{∀ a, Decision (P a)}
    (sorted original : list A) a b l1 l2 l3 :
  filter P sorted = filter P original →
  P a → P b →
  sorted = l1 ++ a :: l2 ++ b :: l3 →
  ∃ m1 m2 m3, original = m1 ++ a :: m2 ++ b :: m3.
Proof.
  intros Hfilter Ha Hb ->.
  rewrite filter_app, filter_cons_True, filter_app, filter_cons_True
    in Hfilter by done.
  symmetry in Hfilter.
  apply filter_eq_app_cons_inv in Hfilter as (m1 & rest & -> & Hrest).
  apply filter_eq_app_cons_inv in Hrest as (m2 & m3 & -> & _).
  by exists m1, m2, m3.
Qed.

Lemma byConfidence_true a b :
  byConfidence a b = true → (confidence b <= confidence a)%Q.
Proof. apply Qle_bool_iff. Qed.

Lemma byConfidence_false a b :
  byConfidence a b = false → (confidence a <= confidence b)%Q.
Proof.
  intros Hab. apply Qlt_le_weak, Qnot_le_lt. intros Hle.
  apply Qle_bool_iff in Hle. unfold byConfidence in Hab. congruence.
Qed.

End RankingFacts.

(** C8: the mapping step returns the merged features sorted by confidence
    in descending order; the merged features are held in the order in
    which their names were first inserted, and two features of equal
    confidence appear in the ranking in that order. *)
Theorem ranking_sorted_and_stable
    (strategies : list (string * Strategy))
    (existingMappings : list (string * FeatureMappingConfig))
    (diffResult : DiffAnalysisResult) :
  let results := processed strategies diffResult existingMappings in
  let inserted := Map_values (mergeFeatures [] results) in
  ∃ ranked,
    (mapChangesWith strategies existingMappings (Some diffResult)).1
    = inr ranked
    ∧ ranked ≡ₚ inserted
    ∧ featureName <$> inserted = Set_from (featureName <$> results)
    ∧ StronglySorted (fun a b => (confidence b <= confidence a)%Q) ranked
    ∧ ∀ a b l1 l2 l3,
        ranked = l1 ++ a :: l2 ++ b :: l3 →
        (confidence a == confidence b)%Q →
        ∃ m1 m2 m3, inserted = m1 ++ a :: m2 ++ b :: m3.
Proof.
  intros results inserted. eexists.
  split; [apply mapChangesWith_returns|]. fold results. fold inserted.
  split; [apply Array_sort_perm|].
  split.
  { unfold inserted. rewrite Map_values_names; [apply mergeFeatures_keys|].
    apply mergeFeatures_names. }
  split.
  { apply Array_sort_sorted.
    - apply byConfidence_true.
    - apply byConfidence_false.
    - intros a b c Hab Hbc. by apply Qle_trans with (confidence b). }
  intros a b l1 l2 l3 Hranked Hab.
  pose (P := fun x : ImpactedFeature => (confidence x == confidence a)%Q).
  assert (∀ x, Decision (P x)) as Hdec by (intros x; apply Qeq_dec).
  apply (equal_rank_order P (Array_sort byConfidence inserted) inserted
           a b l1 l2 l3); [| |by symmetry|done].
  - apply Array_sort_filter. intros x y Hx Hy. unfold P in *.
    apply Qle_bool_iff. rewrite Hx, Hy. apply Qle_refl.
  - unfold P. apply Qeq_refl.
Qed.

(** ** Selection by first match *)

Section FirstMatch.
Variable env : Collaborators.
Variable allTestFiles : list string.

Lemma existsb_path (selected : list SelectedTest) testFile :
  existsb (fun t => String.eqb (path t) testFile) selected = true
  ↔ testFile ∈ path <$> selected.
Proof.
  rewrite existsb_exists, list_elem_of_fmap. split.
  - intros (t & Ht & Heq%String.eqb_eq). exists t.
    split; [done|]. by apply list_elem_of_In.
  - intros (t & -> & Ht). exists t.
    split; [by apply list_elem_of_In|]. apply String.eqb_refl.
Qed.

(** The entries a feature adds: their paths are among its tests and were
    not selected before; they carry the data of the feature. *)
Definition added_by (f : ImpactedFeature) (tests : list string)
    (before : list SelectedTest) (t : SelectedTest) : Prop :=
  path t ∈ tests ∧ (path t ∉ path <$> before)
  ∧ feature t = featureName f
  ∧ test_confidence t = confidence f
  ∧ strategy t = strategyUsed f.

Lemma addTests_spec f tests selected :
  ∃ added,
    addTests f selected tests = selected ++ added
    ∧ Forall (added_by f tests selected) added
    ∧ (NoDup (path <$> selected) →
       NoDup (path <$> addTests f selected tests))
    ∧ ∀ p, p ∈ tests → p ∈ path <$> addTests f selected tests.
Proof.
  revert selected. induction tests as [|testFile tests IH]; intros selected.
  - exists []. simpl. rewrite app_nil_r.
    repeat split; try done. by intros ? ?%elem_of_nil.
  - change (addTests f selected (testFile :: tests))
      with (addTests f (addTest f selected testFile) tests).
    unfold addTest. destruct (existsb _ selected) eqn:Hex.
    + apply existsb_path in Hex.
      destruct (IH selected) as (added & Heq & Hadded & Hnd & Hall).
      exists added. split; [done|]. split.
      { eapply Forall_impl; [exact Hadded|].
        intros t (? & ? & ?). split; [by right|done]. }
      split; [done|].
      intros p [->|Hp]%elem_of_cons; [|by apply Hall].
      rewrite Heq, fmap_app, elem_of_app. by left.
    + assert (testFile ∉ path <$> selected) as Hnew.
      { intros Hin%existsb_path. congruence. }
      set (entry := newSelectedTest f testFile).
      destruct (IH (selected ++ [entry]))
        as (added & Heq & Hadded & Hnd & Hall).
      exists (entry :: added).
      split; [by rewrite Heq, <- app_assoc|]. split.
      { constructor.
        - split; [left|done].
        - eapply Forall_impl; [exact Hadded|].
          intros t (? & Hnot & ?). split; [by right|].
          split; [|done]. intros Hin. apply Hnot.
          rewrite fmap_app, elem_of_app. by left. }
      split.
      { intros Hsel. apply Hnd. rewrite fmap_app.
        apply NoDup_app. split; [done|]. split.
        - intros p Hp [->|[]%elem_of_nil]%elem_of_cons. done.
        - apply NoDup_singleton. }
      intros p [->|Hp]%elem_of_cons; [|by apply Hall].
      rewrite Heq, !fmap_app, !elem_of_app. left. right. left.
Qed.

(** The invariant of the outer loop after the features [done]. *)
Definition selection_invariant (done : list ImpactedFeature)
    (selected : list SelectedTest) : Prop :=
  NoDup (path <$> selected)
  ∧ Forall (claimed_by_first env allTestFiles done) selected
  ∧ ∀ f tests p,
      f ∈ done → matchTestsToFeature env allTestFiles f = inr tests →
      p ∈ tests → p ∈ path <$> selected.

Lemma selection_invariant_step done selected f tests :
  matchTestsToFeature env allTestFiles f = inr tests →
  selection_invariant done selected →
  selection_invariant (done ++ [f]) (addTests f selected tests).
Proof.
  intros Hf (Hnd & Hclaimed & Hall).
  destruct (addTests_spec f tests selected)
    as (added & Heq & Hadded & Hnd' & Hall').
  split; [by apply Hnd'|]. split.
  - rewrite Heq. apply Forall_app. split.
    + eapply Forall_impl; [exact Hclaimed|].
      intros t (earlier & f0 & later & tests0 & -> & ?).
      exists earlier, f0, (later ++ [f]), tests0.
      split; [by rewrite <- app_assoc|done].
    + eapply Forall_impl; [exact Hadded|].
      intros t (Hin & Hnew & ?).
      exists done, f, [], tests. split; [done|]. split; [done|].
      split; [done|]. split; [|done].
      intros g tg Hg Hgt Hp. apply Hnew. by apply (Hall g tg).
  - intros f' tests' p [Hdone| ->%list_elem_of_singleton]%elem_of_app Hm Hp.
    + rewrite Heq, fmap_app, elem_of_app. left. by apply (Hall f' tests').
    + rewrite Hf in Hm. injection Hm as <-. by apply Hall'.
Qed.

Lemma selectLoop_invariant features done selected reasons selected' reasons' :
  selectLoop env allTestFiles features selected reasons
  = inr (selected', reasons') →
  selection_invariant done selected →
  selection_invariant (done ++ features) selected'.
Proof.
  revert done selected reasons.
  induction features as [|f features IH]; intros done selected reasons; simpl.
  - intros [= <- <-]. by rewrite app_nil_r.
  - destruct (matchTestsToFeature env allTestFiles f) as [msg|tests] eqn:Hf;
      simpl; [done|].
    intros Hloop Hinv.
    replace (done ++ f :: features) with ((done ++ [f]) ++ features)
      by (by rewrite <- app_assoc).
    eapply IH; [exact Hloop|]. by apply selection_invariant_step.
Qed.

Lemma filterExc_returns {A} (f : A → Exc bool) (l : list A) :
  (∀ x, ∃ b, f x = inr b) → ∃ kept, filterExc f l = inr kept.
Proof.
  intros Hf. induction l as [|x l [kept IH]]; simpl; [by eexists|].
  destruct (Hf x) as [b ->]. simpl. rewrite IH. simpl. by eexists.
Qed.

Lemma matchTestsToFeature_returns f :
  (∀ source subject, is_Some (regexTest env source subject)) →
  ∃ tests, matchTestsToFeature env allTestFiles f = inr tests.
Proof.
  intros Hregex. unfold matchTestsToFeature.
  assert (∀ patterns, ∃ matches,
            matchPatterns env allTestFiles patterns = inr matches) as Hpat.
  { induction patterns as [|pattern patterns [more IH]]; simpl; [by eexists|].
    destruct (filterExc_returns
                (fun file => matchesPattern env file pattern) allTestFiles)
      as [kept ->].
    - intros file. unfold matchesPattern.
      destruct (Hregex
                  (replaceAll "?" "."
                     (replaceAll "*" "[^/]*" (replaceAll "**" ".*" pattern)))
                  file) as [b ->].
      by eexists.
    - simpl. rewrite IH. simpl. by eexists. }
  destruct (Nat.ltb _ _); [|simpl; by eexists].
  destruct (Hpat (testFiles f)) as [matches ->]. simpl. by eexists.
Qed.

Lemma selectLoop_returns features selected reasons :
  (∀ source subject, is_Some (regexTest env source subject)) →
  ∃ out, selectLoop env allTestFiles features selected reasons = inr out.
Proof.
  intros Hregex. revert selected reasons.
  induction features as [|f features IH]; intros; simpl; [by eexists|].
  destruct (matchTestsToFeature_returns f Hregex) as [tests ->]. simpl.
  apply IH.
Qed.

End FirstMatch.

(** C5: in the result of a test selection every selected path occurs in
    one entry only; the entry is attributed to the first feature, in
    ranked order, whose matching tests contain the path (a later feature
    matching the same path adds no entry for it); and every path matched by
    some feature is selected. *)
Theorem first_feature_claims_test
    (env : Collaborators) (allTestFiles : list string)
    (impactedFeatures : list ImpactedFeature) (result : SelectionResult) :
  selectTests env allTestFiles impactedFeatures = inr result →
  NoDup (path <$> selectedTests result)
  ∧ (∀ t, t ∈ selectedTests result →
          claimed_by_first env allTestFiles impactedFeatures t)
  ∧ ∀ f tests p,
      f ∈ impactedFeatures →
      matchTestsToFeature env allTestFiles f = inr tests →
      p ∈ tests → p ∈ path <$> selectedTests result.
Proof.
  unfold selectTests.
  destruct (selectLoop env allTestFiles impactedFeatures [] [])
    as [msg|[selected reasons]] eqn:Hloop; [done|].
  intros [= <-]. simpl.
  apply (selectLoop_invariant env allTestFiles _ []) in Hloop
    as (Hnd & Hclaimed & Hall).
  - split; [done|]. split; [|done].
    intros t Ht. by eapply Forall_forall in Hclaimed.
  - split; [constructor|]. split; [constructor|].
    by intros f tests p ?%elem_of_nil.
Qed.

(** Scenario D: [checkout], ranked first, claims [tests/shared.spec.js];
    [cart] keeps only [tests/cart.spec.js]. *)
Lemma selection_scenario_D :
  ∃ result,
    selectTests scenarioEnv scenarioD_tests [checkoutFeature; cartFeature]
    = inr result
    ∧ ((fun t => (path t, feature t)) <$> selectedTests result
       = [("tests/shared.spec.js", "checkout"); ("tests/cart.spec.js", "cart")])
    ∧ NoDup (path <$> selectedTests result)
    ∧ ∀ t, t ∈ selectedTests result →
        claimed_by_first scenarioEnv scenarioD_tests
                         [checkoutFeature; cartFeature] t.
Proof.
  eexists. split; [vm_compute; reflexivity|].
  split; [vm_compute; reflexivity|].
  match goal with
  | |- NoDup (path <$> selectedTests ?r) ∧ _ =>
      destruct (first_feature_claims_test scenarioEnv scenarioD_tests
                  [checkoutFeature; cartFeature] r) as (Hnd & Hfirst & _)
  end.
  - vm_compute. reflexivity.
  - split; [exact Hnd|exact Hfirst].
Defined.

(** The selection returns whenever every rewritten pattern is a regular
    expression. *)
Lemma selectTests_returns
    (env : Collaborators) (allTestFiles : list string)
    (impactedFeatures : list ImpactedFeature) :
  (∀ source subject, is_Some (regexTest env source subject)) →
  ∃ result, selectTests env allTestFiles impactedFeatures = inr result.
Proof.
  intros Hregex. unfold selectTests.
  destruct (selectLoop_returns env allTestFiles impactedFeatures [] [] Hregex)
    as [[selected reasons] ->].
  by eexists.
Qed.

(** ** The strategies *)

Section StrategyFacts.
Variable env : Collaborators.

Definition confident (features : list ImpactedFeature) : Prop :=
  Forall (fun f => in_unit (confidence f)) features.

Definition mapping_bounded (mapping : FeatureMappingConfig) : Prop :=
  ∀ c, mapping_confidence mapping = Some c → in_unit c.

Lemma in_unit_interval_spec q : in_unit_interval q = true ↔ in_unit q.
Proof.
  unfold in_unit_interval, in_unit.
  by rewrite andb_true_iff, !Qle_bool_iff.
Qed.

Lemma in_unit_mult a b : in_unit a → in_unit b → in_unit (a * b)%Q.
Proof.
  intros [Ha0 Ha1] [Hb0 Hb1]. split.
  - by apply Qmult_le_0_compat.
  - apply Qle_trans with (1 * 1)%Q; [by apply Qmult_le_compat_nonneg|].
    unfold Qle. simpl. lia.
Qed.

Lemma in_unit_tenths n : (n <= 10)%positive → in_unit (Z.pos n # 10).
Proof. intros. split; unfold Qle; simpl; lia. Qed.

Lemma in_unit_one : in_unit 1.
Proof. split; unfold Qle; simpl; lia. Qed.

Lemma num_or_unit x :
  (∀ v, x = Some v → in_unit v) → in_unit (num_or x 1).
Proof.
  intros Hx. unfold num_or. destruct x as [v|]; [|apply in_unit_one].
  destruct (Qeq_bool v 0); [apply in_unit_one|by apply Hx].
Qed.

Lemma globAll_NoDup patterns : NoDup (globAll env patterns).
Proof. apply NoDup_Set_from. Qed.

(** *** The four strategies: bounds, well-formedness, empty change sets *)

Lemma FolderBased_results config diff mappings :
  ∃ features,
    FolderBasedStrategy env config diff mappings = inr features
    ∧ Forall well_formed features
    ∧ (in_unit (strategyWeight config) → confident features)
    ∧ (changes diff = [] → features = []).
Proof.
  eexists. split; [reflexivity|]. split; [|split].
  - apply Forall_forall. intros f (change & Hf & _)%list_elem_of_bind.
    apply list_elem_of_bind in Hf as (name & Hf & _). cbv zeta in Hf.
    destruct (Nat.ltb _ _); [|by apply elem_of_nil in Hf].
    apply list_elem_of_singleton in Hf as ->.
    split; simpl; [apply NoDup_singleton|apply globAll_NoDup].
  - intros Hw. apply Forall_forall.
    intros f (change & Hf & _)%list_elem_of_bind.
    apply list_elem_of_bind in Hf as (name & Hf & _). cbv zeta in Hf.
    destruct (Nat.ltb _ _); [|by apply elem_of_nil in Hf].
    apply list_elem_of_singleton in Hf as ->. simpl.
    apply in_unit_mult; [done|]. by apply in_unit_tenths.
  - by intros ->.
Qed.

Lemma fileBasedMappings_results weight filePath entries features :
  fileBasedMappings env weight filePath entries = inr features →
  Forall well_formed features
  ∧ (in_unit weight → Forall mapping_bounded entries.*2 → confident features).
Proof.
  revert features.
  induction entries as [|[name mapping] entries IH]; intros features; simpl.
  - intros [= <-]. by split; [constructor|constructor].
  - destruct (matchesPatterns _ _ _) as [msg|matched]; simpl; [done|].
    destruct (fileBasedMappings _ _ _ entries) as [msg|more]; simpl; [done|].
    destruct (IH more eq_refl) as [Hwf Hconf].
    intros [= <-]. destruct matched; split; try done.
    + constructor; [|done].
      split; simpl; [apply NoDup_singleton|apply globAll_NoDup].
    + intros Hw [Hm Hms]%Forall_cons. constructor; [|by apply Hconf].
      simpl. apply in_unit_mult; [done|]. by apply num_or_unit.
    + intros Hw [Hm Hms]%Forall_cons. by apply Hconf.
Qed.

Lemma fileBasedChanges_results weight changes entries features :
  fileBasedChanges env weight changes entries = inr features →
  Forall well_formed features
  ∧ (in_unit weight → Forall mapping_bounded entries.*2 → confident features).
Proof.
  revert features.
  induction changes as [|change changes IH]; intros features; simpl.
  - intros [= <-]. by split; [constructor|constructor].
  - destruct (fileBasedMappings _ _ _ _) as [msg|here] eqn:Hhere; simpl;
      [done|].
    destruct (fileBasedChanges _ _ changes _) as [msg|more]; simpl; [done|].
    apply fileBasedMappings_results in Hhere as [Hwf1 Hconf1].
    destruct (IH more eq_refl) as [Hwf2 Hconf2].
    intros [= <-]. split; [by apply Forall_app|].
    intros. apply Forall_app. split; [by apply Hconf1|by apply Hconf2].
Qed.

Lemma FileBased_results config diff mappings features :
  FileBasedStrategy env config diff mappings = inr features →
  Forall well_formed features
  ∧ (in_unit (strategyWeight config) → Forall mapping_bounded mappings.*2 →
     confident features)
  ∧ (changes diff = [] → features = []).
Proof.
  unfold FileBasedStrategy. intros Hrun.
  destruct (fileBasedChanges_results _ _ _ _ Hrun) as [Hwf Hconf].
  split; [done|]. split; [done|].
  intros Hnil. rewrite Hnil in Hrun. simpl in Hrun. by injection Hrun.
Qed.

Lemma FileBased_empty config diff mappings :
  changes diff = [] → FileBasedStrategy env config diff mappings = inr [].
Proof. unfold FileBasedStrategy. by intros ->. Qed.

Lemma AnnotationBased_results config diff mappings :
  ∃ features,
    AnnotationBasedStrategy env config diff mappings = inr features
    ∧ Forall well_formed features
    ∧ (in_unit (strategyWeight config) → confident features)
    ∧ (changes diff = [] → features = []).
Proof.
  eexists. split; [reflexivity|]. split; [|split].
  - apply Forall_forall. intros f (change & Hf & _)%list_elem_of_bind.
    cbv zeta in Hf. destruct (bool_decide _); [by apply elem_of_nil in Hf|].
    destruct (readFile _ _); [|by apply elem_of_nil in Hf].
    apply list_elem_of_fmap in Hf as (name & -> & _).
    split; simpl; [apply NoDup_singleton|apply globAll_NoDup].
  - intros Hw. apply Forall_forall.
    intros f (change & Hf & _)%list_elem_of_bind.
    cbv zeta in Hf. destruct (bool_decide _); [by apply elem_of_nil in Hf|].
    destruct (readFile _ _); [|by apply elem_of_nil in Hf].
    apply list_elem_of_fmap in Hf as (name & -> & _). simpl.
    apply in_unit_mult; [done|]. by apply in_unit_tenths.
  - by intros ->.
Qed.

Lemma ASTBased_results config diff mappings :
  ∃ features,
    ASTBasedStrategy env config diff mappings = inr features
    ∧ Forall well_formed features
    ∧ (in_unit (strategyWeight config) → confident features)
    ∧ (changes diff = [] → features = []).
Proof.
  eexists. split; [reflexivity|]. split; [|split].
  - apply Forall_forall. intros f (change & Hf & _)%list_elem_of_bind.
    cbv zeta in Hf. destruct (Nat.ltb _ _); [|by apply elem_of_nil in Hf].
    apply list_elem_of_fmap in Hf as (name & -> & _).
    split; simpl; [apply NoDup_singleton|apply globAll_NoDup].
  - intros Hw. apply Forall_forall.
    intros f (change & Hf & _)%list_elem_of_bind.
    cbv zeta in Hf. destruct (Nat.ltb _ _); [|by apply elem_of_nil in Hf].
    apply list_elem_of_fmap in Hf as (name & -> & _). simpl.
    apply in_unit_mult; [done|]. by apply in_unit_tenths.
  - by intros ->.
Qed.

(** Every strategy the mapper can instantiate. *)
Lemma strategyOfType_results config strategy diff mappings features :
  strategyOfType env config = Some strategy →
  strategy diff mappings = inr features →
  Forall well_formed features
  ∧ (in_unit (strategyWeight config) → Forall mapping_bounded mappings.*2 →
     confident features)
  ∧ (changes diff = [] → features = []).
Proof.
  unfold strategyOfType.
  repeat (destruct (String.eqb _ _); [intros [= <-]|]); [| | | |done].
  - destruct (FolderBased_results config diff mappings)
      as (fs & -> & Hwf & Hconf & Hnil).
    intros [= <-]. auto.
  - intros Hrun. apply FileBased_results in Hrun. naive_solver.
  - destruct (AnnotationBased_results config diff mappings)
      as (fs & -> & Hwf & Hconf & Hnil).
    intros [= <-]. auto.
  - destruct (ASTBased_results config diff mappings)
      as (fs & -> & Hwf & Hconf & Hnil).
    intros [= <-]. auto.
Qed.

Lemma strategyOfType_empty config strategy diff mappings :
  strategyOfType env config = Some strategy →
  changes diff = [] → strategy diff mappings = inr [].
Proof.
  unfold strategyOfType.
  repeat (destruct (String.eqb _ _); [intros [= <-]|]); [| | | |done];
    intros Hnil.
  - destruct (FolderBased_results config diff mappings)
      as (fs & -> & _ & _ & ->); done.
  - by apply FileBased_empty.
  - destruct (AnnotationBased_results config diff mappings)
      as (fs & -> & _ & _ & ->); done.
  - destruct (ASTBased_results config diff mappings)
      as (fs & -> & _ & _ & ->); done.
Qed.

Lemma initializeStrategies_origin config strategyType strategy :
  (strategyType, strategy) ∈ initializeStrategies env config →
  ∃ strategyConfig,
    strategyConfig ∈ default [] (feature_detection_strategies config)
    ∧ strategyOfType env strategyConfig = Some strategy.
Proof.
  unfold initializeStrategies.
  generalize (default [] (feature_detection_strategies config)).
  intros configs.
  assert (∀ registered,
    (strategyType, strategy)
      ∈ fold_left
          (fun strategies strategyConfig =>
             if negb (default false (strategy_enabled strategyConfig))
             then strategies
             else match strategyOfType env strategyConfig with
                  | Some strategy =>
                      Map_set (strategy_type strategyConfig) strategy strategies
                  | None => strategies
                  end)
          configs registered →
    (strategyType, strategy) ∈ registered
    ∨ ∃ strategyConfig, strategyConfig ∈ configs
        ∧ strategyOfType env strategyConfig = Some strategy) as Hfold.
  { induction configs as [|sc configs IH]; intros registered; simpl; [auto|].
    intros [Hin|(sc' & Hin & Hsc')]%IH.
    - destruct (negb _); [by left|].
      destruct (strategyOfType env sc) as [s|] eqn:Hsc; [|by left].
      apply Map_set_elem_of in Hin as [[= -> ->]|Hin]; [|by left].
      right. exists sc. split; [left|done].
    - right. exists sc'. split; [by right|done]. }
  intros [[]%elem_of_nil|Hin]%Hfold. done.
Qed.

Lemma processed_Forall (P : ImpactedFeature → Prop) strategies diff mappings :
  (∀ strategyType strategy features,
     (strategyType, strategy) ∈ strategies →
     strategy diff mappings = inr features → Forall P features) →
  Forall P (processed strategies diff mappings).
Proof.
  intros Hs. apply Forall_forall.
  intros f ([ty s] & Hf & Hin)%list_elem_of_bind. simpl in Hf.
  destruct (s diff mappings) as [msg|features] eqn:Hrun;
    [by apply elem_of_nil in Hf|].
  eapply Forall_forall; [by eapply Hs|done].
Qed.

Lemma Map_update_Forall {V} (P : string * V → Prop) k f
    (m : list (string * V)) :
  (∀ v, P (k, v) → P (k, f v)) → Forall P m → Forall P (Map_update k f m).
Proof.
  intros Hf. induction 1 as [|[k0 v0] m H0 Hm IH]; simpl; [constructor|].
  case_decide; subst; constructor; auto.
Qed.

Lemma mergeFeatures_confident all features :
  Forall (fun entry => in_unit (confidence entry.2)) all →
  confident features →
  Forall (fun entry => in_unit (confidence entry.2))
         (mergeFeatures all features).
Proof.
  intros Hall Hfs. revert all Hall.
  induction Hfs as [|f features Hf Hfs IH]; intros all Hall; [done|].
  simpl. apply IH. unfold mergeFeature.
  destruct (Map_has _ _).
  - apply Map_update_Forall; [|done]. simpl. intros v Hv.
    by destruct (Math_max_cases (confidence v) (confidence f))
      as [[-> _]|[-> _]].
  - unfold Map_set. destruct (Map_has _ _).
    + apply Map_update_Forall; [|done]. by intros.
    + apply Forall_app. split; [done|]. by constructor.
Qed.

End StrategyFacts.

(** ** Confidence bounds *)

Section SchemaFacts.
Variable env : Collaborators.

Lemma schema_bounds config :
  TEOConfigSchema config = true → withinUnitBounds config = true.
Proof.
  unfold TEOConfigSchema, withinUnitBounds.
  intros [Hs Hm]%andb_true_iff. apply andb_true_iff.
  rewrite !forallb_forall in *. split.
  - intros sc Hin. apply Hs in Hin.
    unfold FeatureDetectionStrategySchema in Hin.
    apply andb_true_iff in Hin as [_ Hw].
    by destruct (strategy_weight sc).
  - intros entry Hin. apply Hm in Hin.
    unfold FeatureMappingSchema in Hin.
    by apply andb_true_iff in Hin as [_ Hc].
Qed.

Lemma bounds_weight config strategyConfig :
  withinUnitBounds config = true →
  strategyConfig ∈ default [] (feature_detection_strategies config) →
  in_unit (strategyWeight strategyConfig).
Proof.
  unfold withinUnitBounds. intros [Hs _]%andb_true_iff Hin.
  rewrite forallb_forall in Hs.
  apply list_elem_of_In, Hs in Hin. rename Hin into Hw.
  unfold strategyWeight. apply num_or_unit. intros v Hv.
  rewrite Hv in Hw. by apply in_unit_interval_spec.
Qed.

Lemma bounds_mappings config :
  withinUnitBounds config = true →
  Forall mapping_bounded (default [] (features config)).*2.
Proof.
  unfold withinUnitBounds. intros [_ Hm]%andb_true_iff.
  rewrite forallb_forall in Hm.
  apply Forall_forall. intros mapping ([name m] & -> & Hin)%list_elem_of_fmap.
  apply list_elem_of_In, Hm in Hin. simpl in *. rename Hin into Hc.
  intros c Hconf. rewrite Hconf in Hc. by apply in_unit_interval_spec.
Qed.

Lemma mapper_confident config diff :
  withinUnitBounds config = true →
  confident (processed (initializeStrategies env config) diff
                       (default [] (features config))).
Proof.
  intros Hschema. apply processed_Forall.
  intros ty s features Hin Hrun.
  apply initializeStrategies_origin in Hin as (sc & Hsc & Hs).
  destruct (strategyOfType_results env _ _ _ _ _ Hs Hrun) as (_ & Hconf & _).
  apply Hconf; [by eapply bounds_weight|by apply bounds_mappings].
Qed.

Lemma mapper_well_formed config diff :
  Forall well_formed
    (processed (initializeStrategies env config) diff
               (default [] (features config))).
Proof.
  apply processed_Forall.
  intros ty s features Hin Hrun.
  apply initializeStrategies_origin in Hin as (sc & Hsc & Hs).
  by destruct (strategyOfType_results env _ _ _ _ _ Hs Hrun) as (? & _).
Qed.

Lemma mapper_empty config diff :
  changes diff = [] →
  processed (initializeStrategies env config) diff
            (default [] (features config)) = [].
Proof.
  intros Hnil. unfold processed.
  generalize (initializeStrategies_origin env config).
  induction (initializeStrategies env config) as [|[ty s] strategies IH];
    intros Horigin; [done|].
  simpl. destruct (Horigin ty s) as (sc & _ & Hs); [left|].
  rewrite (strategyOfType_empty env _ _ _ _ Hs Hnil). simpl.
  apply IH. intros ty' s' Hin. apply (Horigin ty' s'). by right.
Qed.

End SchemaFacts.

(** C1: in every run of the mapping step, for every feature name that
    occurs among the strategy results the fold processes, the returned
    list holds one feature of that name; its confidence is the maximum of
    the confidences of the contributing results, its impacted files and
    its test files are the duplicate-free unions of theirs, and its
    metadata is the shallow merge of theirs in processing order: a key has
    the value that the last contributing result defining it gives it. *)
Theorem aggregation_merges_contributions
    (env : Collaborators) (config : TEOConfig)
    (diffResult : DiffAnalysisResult) (name : string) :
  let results :=
    processed (initializeStrategies env config) diffResult
              (default [] (features config)) in
  let cs := contributing name results in
  name ∈ featureName <$> results →
  ∃ ranked merged,
    (mapChangesToFeatures env config (Some diffResult)).1 = inr ranked
    ∧ merged ∈ ranked
    ∧ (∀ other, other ∈ ranked → featureName other = name → other = merged)
    ∧ featureName merged = name
    ∧ is_maximum (confidence merged) (confidence <$> cs)
    ∧ is_union (impactedFiles merged) (impactedFiles <$> cs)
    ∧ is_union (testFiles merged) (testFiles <$> cs)
    ∧ metadata merged = shallowMerge (metadata <$> cs)
    ∧ ∀ k v, metadata merged !! k = Some v
             ↔ ∃ cs1 r cs2, cs = cs1 ++ r :: cs2
                 ∧ metadata r !! k = Some v
                 ∧ ∀ r', r' ∈ cs2 → metadata r' !! k = None.
Proof.
  intros results cs Hname.
  destruct (mergeFeatures_merges results name
              (mapper_well_formed env config diffResult) Hname)
    as (merged & Hget & Hunique & Hrest).
  eexists _, merged.
  split; [apply mapChangesWith_returns|]. fold results.
  split.
  { rewrite Array_sort_perm. apply Map_get_elem_of in Hget.
    apply list_elem_of_fmap. by exists (name, merged). }
  split; [|exact Hrest].
  intros other Hother. apply Hunique. by rewrite Array_sort_perm in Hother.
Qed.

(** Scenario C: the two reports of [payments] merge into one feature of
    confidence [0.9] with both files as evidence. *)
Lemma aggregation_scenario_C :
  ((fun f => (featureName f, confidence f, impactedFiles f))
   <$> processed (initializeStrategies paymentsEnv paymentsConfig)
         paymentsDiff []
   = [ ("payments", (24 # 40)%Q, ["src/payments/a.js"]);
       ("payments", (9 # 10)%Q, ["lib/b.js"]) ])
  ∧ ∃ ranked merged,
      (mapChangesToFeatures paymentsEnv paymentsConfig (Some paymentsDiff)).1
      = inr ranked
      ∧ merged ∈ ranked
      ∧ featureName merged = "payments"
      ∧ confidence merged = (9 # 10)%Q
      ∧ impactedFiles merged = ["src/payments/a.js"; "lib/b.js"]
      ∧ is_maximum (confidence merged)
          (confidence <$> contributing "payments"
             (processed (initializeStrategies paymentsEnv paymentsConfig)
                        paymentsDiff []))
      ∧ is_union (impactedFiles merged)
          (impactedFiles <$> contributing "payments"
             (processed (initializeStrategies paymentsEnv paymentsConfig)
                        paymentsDiff [])).
Proof.
  split; [vm_compute; reflexivity|].
  destruct (aggregation_merges_contributions paymentsEnv paymentsConfig
              paymentsDiff "payments")
    as (ranked & merged & Hrun & Hin & _ & Hname & Hmax & Hfiles & _).
  { vm_compute. left. }
  exists ranked, merged.
  assert (ranked = [merged]) as Hranked.
  { revert Hrun Hin. vm_compute. intros [= <-] Hin.
    by apply list_elem_of_singleton in Hin as ->. }
  revert Hrun. rewrite Hranked. vm_compute. intros [= <-].
  repeat split; try done; try apply Hmax; try apply Hfiles. left.
Defined.

(** C3, amended: for a configuration whose strategy weights and static
    confidences, where given, lie between 0 and 1, every impacted feature
    the mapping step returns has a confidence between 0 and 1; nothing
    else of the schema is needed. *)
Theorem confidence_in_unit_interval
    (env : Collaborators) (config : TEOConfig)
    (diffResult : option DiffAnalysisResult)
    (impacted : list ImpactedFeature) (log : list LogEntry) :
  withinUnitBounds config = true →
  mapChangesToFeatures env config diffResult = (inr impacted, log) →
  ∀ f, f ∈ impacted → (0 <= confidence f)%Q ∧ (confidence f <= 1)%Q.
Proof.
  intros Hschema Hrun f Hf. unfold mapChangesToFeatures in Hrun.
  destruct diffResult as [diff|].
  2: { injection Hrun as <- _. by apply elem_of_nil in Hf. }
  pose proof (mapChangesWith_returns (initializeStrategies env config)
                (default [] (features config)) diff) as Hret.
  rewrite Hrun in Hret. simpl in Hret. injection Hret as ->.
  rewrite Array_sort_perm in Hf.
  apply list_elem_of_fmap in Hf as ([k v] & -> & Hin).
  pose proof (mergeFeatures_confident [] _ (Forall_nil_2 _)
                (mapper_confident env config diff Hschema)) as Hall.
  by eapply Forall_forall in Hall.
Qed.

(** Scenario A: the feature [authentication] is reported with confidence
    [1.0]; and a configuration outside the schema but inside the bounds:
    the feature is reported with confidence [0.5]. *)
Lemma confidence_scenario_A :
  (∃ impacted log,
     mapChangesToFeatures scenarioEnv scenarioA_config (Some scenarioA_diff)
     = (inr impacted, log)
     ∧ (featureName <$> impacted = ["authentication"])
     ∧ ∀ f, f ∈ impacted → (0 <= confidence f)%Q ∧ (confidence f <= 1)%Q)
  ∧ TEOConfigSchema unweightedConfig = false
  ∧ withinUnitBounds unweightedConfig = true
  ∧ ∃ impacted log,
      mapChangesToFeatures scenarioEnv unweightedConfig (Some scenarioA_diff)
      = (inr impacted, log)
      ∧ ((λ f, (featureName f, confidence f)) <$> impacted
         = [("authentication", (1 # 2)%Q)])
      ∧ ∀ f, f ∈ impacted → (0 <= confidence f)%Q ∧ (confidence f <= 1)%Q.
Proof.
  split.
  { eexists _, _. split; [vm_compute; reflexivity|].
    split; [vm_compute; reflexivity|].
    eapply (confidence_in_unit_interval scenarioEnv scenarioA_config
              (Some scenarioA_diff));
      vm_compute; reflexivity. }
  split; [reflexivity|]. split; [reflexivity|].
  eexists _, _. split; [vm_compute; reflexivity|].
  split; [vm_compute; reflexivity|].
  eapply (confidence_in_unit_interval scenarioEnv unweightedConfig
            (Some scenarioA_diff));
    vm_compute; reflexivity.
Defined.

(** Outside the bounds the claim fails: a strategy weight [2], which the
    mapper accepts as it is, gives the feature [authentication] the
    confidence [2]. *)
Lemma overweight_strategy_exceeds_one :
  ¬ (∀ impacted log f,
       mapChangesToFeatures scenarioEnv overweightConfig (Some scenarioA_diff)
       = (inr impacted, log) →
       f ∈ impacted → (0 <= confidence f)%Q ∧ (confidence f <= 1)%Q).
Proof.
  intros Hbound.
  destruct (mapChangesToFeatures scenarioEnv overweightConfig
              (Some scenarioA_diff)) as [[msg|impacted] log] eqn:Hrun;
    [by vm_compute in Hrun|].
  destruct impacted as [|f impacted]; [by vm_compute in Hrun|].
  destruct (Hbound (f :: impacted) log f eq_refl) as [_ Hle]; [left|].
  revert Hrun. vm_compute. intros [= <- _ _]. by apply Hle.
Qed.

(** ** The file-based strategy *)

Section FileBasedFacts.
Variable env : Collaborators.

Lemma fileBasedMappings_emits weight filePath entries features name mapping :
  fileBasedMappings env weight filePath entries = inr features →
  (name, mapping) ∈ entries →
  matchesPatterns env filePath (default [] (source_patterns mapping))
  = inr true →
  ∃ f, f ∈ features ∧ featureName f = name
       ∧ impactedFiles f = [filePath]
       ∧ confidence f = (weight * num_or (mapping_confidence mapping) 1)%Q.
Proof.
  revert features.
  induction entries as [|[n m] entries IH]; intros features; simpl.
  - by intros _ ?%elem_of_nil.
  - destruct (matchesPatterns _ _ (default [] (source_patterns m)))
      as [msg|matched] eqn:Hm; simpl; [done|].
    destruct (fileBasedMappings _ _ _ entries) as [msg|more]; simpl; [done|].
    intros [= <-] [[= <- <-]|Hin]%elem_of_cons Hmatch.
    + rewrite Hm in Hmatch. injection Hmatch as ->.
      eexists. split; [left|]. done.
    + destruct (IH more eq_refl Hin Hmatch) as (f & Hf & ?).
      exists f. split; [|done]. destruct matched; [by right|done].
Qed.

(** What the file-based strategy emits for a changed file that matches a
    source pattern of a feature definition. *)
Lemma FileBased_emits config diff mappings features change name mapping :
  FileBasedStrategy env config diff mappings = inr features →
  change ∈ changes diff →
  (name, mapping) ∈ mappings →
  matchesPatterns env (filePath change) (default [] (source_patterns mapping))
  = inr true →
  ∃ f, f ∈ features ∧ featureName f = name
       ∧ impactedFiles f = [filePath change]
       ∧ confidence f
         = (strategyWeight config * num_or (mapping_confidence mapping) 1)%Q.
Proof.
  unfold FileBasedStrategy. generalize (strategyWeight config) as weight.
  intros weight. revert features.
  induction (changes diff) as [|c cs IH]; intros features; simpl.
  - by intros _ ?%elem_of_nil.
  - destruct (fileBasedMappings _ _ _ _) as [msg|here] eqn:Hhere; simpl;
      [done|].
    destruct (fileBasedChanges _ _ cs _) as [msg|more]; simpl; [done|].
    intros [= <-] [->|Hin]%elem_of_cons Hmapping Hmatch.
    + destruct (fileBasedMappings_emits _ _ _ _ _ _ Hhere Hmapping Hmatch)
        as (f & Hf & ?).
      exists f. split; [|done]. apply elem_of_app. by left.
    + destruct (IH more eq_refl Hin Hmapping Hmatch) as (f & Hf & ?).
      exists f. split; [|done]. apply elem_of_app. by right.
Qed.

Lemma num_or_nonzero c d : ¬ (c == 0)%Q → num_or (Some c) d = c.
Proof.
  intros Hc. unfold num_or. destruct (Qeq_bool c 0) eqn:Heq; [|done].
  by apply Qeq_bool_iff in Heq.
Qed.

(** For a static confidence other than zero the confidence is the product
    of the weight and the static confidence. *)
Lemma FileBased_emits_nonzero config diff mappings features change name
    mapping c :
  FileBasedStrategy env config diff mappings = inr features →
  change ∈ changes diff →
  (name, mapping) ∈ mappings →
  matchesPatterns env (filePath change) (default [] (source_patterns mapping))
  = inr true →
  mapping_confidence mapping = Some c → ¬ (c == 0)%Q →
  ∃ f, f ∈ features ∧ featureName f = name
       ∧ confidence f = (strategyWeight config * c)%Q.
Proof.
  intros Hrun Hchange Hmapping Hmatch Hc Hnz.
  destruct (FileBased_emits _ _ _ _ _ _ _ Hrun Hchange Hmapping Hmatch)
    as (f & Hf & Hname & _ & Hconf).
  exists f. rewrite Hc, num_or_nonzero in Hconf by done. done.
Qed.

End FileBasedFacts.

(** C4: a feature definition with static confidence [0] under a
    file-based strategy of weight [0.5]: the changed file matches, one
    result is emitted for the feature, and its confidence is [0.5], the
    weight multiplied by the default [1.0], not the weight multiplied by
    the static confidence. *)
Theorem zero_static_confidence_is_replaced :
  matchesPatterns scenarioEnv "src/legacy/old.js"
    (default [] (source_patterns legacyMapping)) = inr true
  ∧ ∃ f,
      FileBasedStrategy scenarioEnv halfWeight legacyDiff
        [("legacy", legacyMapping)] = inr [f]
      ∧ featureName f = "legacy"
      ∧ (confidence f == 1 # 2)%Q
      ∧ ¬ (confidence f == strategyWeight halfWeight * 0)%Q.
Proof.
  split; [reflexivity|]. eexists. split; [reflexivity|].
  split; [reflexivity|]. split; [reflexivity|]. by vm_compute.
Qed.

(** ** The empty change set *)

(** C9: when the change set holds no change record, the analysis returns
    without error, with no impacted feature, no AI step and an empty
    selection. *)
Theorem empty_change_set
    (env : Collaborators) (config : TEOConfig) (options : AnalyzeOptions)
    (diffAnalysis : DiffAnalysisResult) :
  changes diffAnalysis = [] →
  ∃ result log,
    analyze env config options diffAnalysis = (inr result, log)
    ∧ featureMapping result = []
    ∧ aiAnalysis result = None
    ∧ selectedTests (selection (testSelection result)) = []
    ∧ selectionReasons (selection (testSelection result)) = []
    ∧ totalSelected (summary (selection (testSelection result))) = 0
    ∧ ∀ strategyType message,
        mkLog LWarn "Strategy failed" strategyType message ∉ log.
Proof.
  intros Hnil. unfold analyze.
  pose proof (mapChangesWith_returns (initializeStrategies env config)
                (default [] (features config)) diffAnalysis) as Hret.
  rewrite (mapper_empty env config diffAnalysis Hnil) in Hret.
  fold (mapChangesToFeatures env config (Some diffAnalysis)) in Hret.
  destruct (mapChangesToFeatures env config (Some diffAnalysis))
    as [mapped log] eqn:Hrun.
  simpl in Hret. subst mapped. unfold aiStep, selectionStep. simpl.
  rewrite andb_false_r. eexists _, _. split; [reflexivity|]. simpl.
  do 5 (split; [done|]).
  intros strategyType message Hin.
  assert (mkLog LWarn "Strategy failed" strategyType message ∈ log) as Hlog.
  { clear -Hin. set_unfold in Hin. naive_solver. }
  clear Hin. rename Hlog into Hin.
  assert (log = (mapChangesToFeatures env config (Some diffAnalysis)).2)
    as -> by (by rewrite Hrun).
  apply mapChangesWith_quiet in Hin; [done|].
  intros ty s (sc & _ & Hs)%initializeStrategies_origin.
  exists []. by apply (strategyOfType_empty env sc).
Qed.

(** The analysis of an empty change set under the configuration of
    scenario A. *)
Lemma empty_change_set_scenario :
  ∃ result log,
    analyze scenarioEnv scenarioA_config defaultOptions emptyDiff
    = (inr result, log)
    ∧ featureMapping result = []
    ∧ selectedTests (selection (testSelection result)) = [].
Proof.
  destruct (empty_change_set scenarioEnv scenarioA_config defaultOptions
              emptyDiff) as (result & log & Hrun & Hf & _ & Hs & _).
  - reflexivity.
  - exists result, log. auto.
Defined.

(** Scenario A, from the diff analysis to the selection: the feature
    [authentication] with confidence [1.0], and the one test of the corpus
    under [tests/auth]. *)
Example analysis_scenario_A :
  ∃ result,
    (analyze scenarioEnv scenarioA_config defaultOptions scenarioA_diff).1
    = inr result
    ∧ (fun f => (featureName f, confidence f)) <$> featureMapping result
      = [("authentication", 1%Q)]
    ∧ path <$> selectedTests (selection (testSelection result))
      = ["tests/auth/login.spec.js"]
    ∧ totalAvailable (summary (selection (testSelection result))) = 2.
Proof. eexists. split; [vm_compute; reflexivity|]. by vm_compute. Qed.

(** * Further coverage

    The rest of the files the statements above draw on: the diff analysis
    around the classification, the helpers of the strategies and of the
    mapper, the selection summary, the engine's post-processing and the
    retry logic of the AI provider base class. *)

(** ** [git-analyzer.js]: the analysis of a whole diff *)

(** [String.prototype.trim] on ASCII text: blanks, tabs and line ends. *)
Definition is_whitespace (c : ascii) : bool :=
  let n := nat_of_ascii c in
  (Nat.eqb n 32 || (Nat.leb 9 n && Nat.leb n 13))%bool.

Fixpoint trimStartWs (s : string) : string :=
  match s with
  | String c r => if is_whitespace c then trimStartWs r else s
  | EmptyString => EmptyString
  end.

Definition trimWs (s : string) : string :=
  rev_string "" (trimStartWs (rev_string "" (trimStartWs s))).

(** The answer of [git.diffSummary]. *)
Record DiffSummary := {
  files : list FileSummary;
  summary_insertions : Z;
  summary_deletions : Z
}.

(** The [simple-git] calls of [analyzeDiff]; the left side of a result is
    the message of the rejection. *)
Record GitCollaborators := {
  checkIsRepo : Exc bool;
  revparse : string → Exc string;
  diffSummary : string → string → Exc DiffSummary
}.

Section AnalyzeDiff.
Variable env : Collaborators.
Variable git : GitCollaborators.
Variable parsers : list string.
Variable repoPath : string.

(** [validateRepository]: only a rejected check is an error; the answer of
    the check is not read. *)
Definition validateRepository : Exc unit :=
  match checkIsRepo git with
  | inl _ => throw ("Not a git repository: " +:+ repoPath)
  | inr _ => ret tt
  end.

Definition resolveRef (ref : string) : Exc string :=
  match revparse git ref with
  | inl message =>
      throw ("Failed to resolve reference '" +:+ ref +:+ "': " +:+ message)
  | inr result => ret (trimWs result)
  end.

Definition analyzeDiff (baseRef headRef : string) : Exc DiffAnalysisResult :=
  bind validateRepository (fun _ =>
  bind (resolveRef baseRef) (fun baseCommit =>
  bind (resolveRef headRef) (fun headCommit =>
  bind (diffSummary git baseCommit headCommit) (fun summary =>
    let changes :=
      (fun file => analyzeFileChange env parsers file baseCommit headCommit)
      <$> files summary in
    ret {| baseCommit := baseCommit;
           headCommit := headCommit;
           changes := changes;
           totalFilesChanged := length (files summary);
           totalLinesAdded := summary_insertions summary;
           totalLinesRemoved := summary_deletions summary;
           languagesAffected :=
             Set_from (omap (fun change => detectLanguage (filePath change))
                            changes) |})))).

(** [getChangedFiles]. *)
Definition getChangedFiles (baseRef headRef : string) : Exc (list string) :=
  bind (diffSummary git baseRef headRef) (fun summary =>
    ret (file <$> files summary)).

End AnalyzeDiff.

(** A node of a syntax tree: the tree itself or a node of one of its
    children. *)
Inductive subnode : SyntaxNode → SyntaxNode → Prop :=
  | subnode_here n : subnode n n
  | subnode_child n c t :
      c ∈ node_children t → subnode n c → subnode n t.

(** Induction on syntax trees, with the property available for every
    child. *)
Fixpoint SyntaxNode_nested_ind (P : SyntaxNode → Prop)
    (step : ∀ type text children,
        Forall P children → P (Node type text children))
    (n : SyntaxNode) : P n :=
  match n with
  | Node type text children =>
      step type text children
        ((fix all (l : list SyntaxNode) : Forall P l :=
            match l with
            | [] => List.Forall_nil P
            | c :: r =>
                @List.Forall_cons _ P c r
                  (SyntaxNode_nested_ind P step c) (all r)
            end) children)
  end.

Section EnrichmentFacts.
Variable env : Collaborators.
Variable parsers : list string.

Lemma performSyntaxAnalysis_frame change baseCommit headCommit :
  let enriched :=
    performSyntaxAnalysis env parsers change baseCommit headCommit in
  filePath enriched = filePath change
  ∧ oldPath enriched = oldPath change
  ∧ linesAdded enriched = linesAdded change
  ∧ linesRemoved enriched = linesRemoved change.
Proof.
  intros enriched. subst enriched. unfold performSyntaxAnalysis.
  by repeat case_match.
Qed.

Lemma analyzeFileChange_frame fileSummary baseCommit headCommit :
  let change :=
    analyzeFileChange env parsers fileSummary baseCommit headCommit in
  filePath change = file fileSummary
  ∧ oldPath change = None
  ∧ linesAdded change = insertions fileSummary
  ∧ linesRemoved change = deletions fileSummary.
Proof.
  intros change. subst change. unfold analyzeFileChange.
  destruct (_ && _)%bool; [|done].
  match goal with
  | |- context [performSyntaxAnalysis env parsers ?c _ _] =>
      destruct (performSyntaxAnalysis_frame c baseCommit headCommit)
        as (Hp & Ho & Ha & Hr)
  end.
  by rewrite Hp, Ho, Ha, Hr.
Qed.

Lemma walkTree_unfold type text children :
  walkTree (Node type text children)
  = Node type text children :: (children ≫= walkTree).
Proof. reflexivity. Qed.

Lemma elem_of_walkTree node tree : node ∈ walkTree tree ↔ subnode node tree.
Proof.
  split.
  - revert node. induction tree as [type text children IH]
      using SyntaxNode_nested_ind.
    intros node. rewrite walkTree_unfold, elem_of_cons, list_elem_of_bind.
    intros [->|(c & Hnode & Hc)]; [constructor|].
    apply subnode_child with c; [done|].
    rewrite Forall_forall in IH. by apply IH.
  - induction 1 as [n|n c t Hc _ IH].
    + destruct n as [type text children]. rewrite walkTree_unfold. left.
    + destruct t as [type text children]. rewrite walkTree_unfold.
      right. apply list_elem_of_bind. by exists c.
Qed.

Lemma elem_of_collectNames sel tree language name :
  name ∈ collectNames sel tree language
  ↔ ∃ node, subnode node tree
      ∧ sel node language = true
      ∧ extractNodeName node language = Some name
      ∧ name ≠ "".
Proof.
  unfold collectNames. rewrite list_elem_of_omap. split.
  - intros (node & Hnode%elem_of_walkTree & Hsel).
    exists node. split; [done|].
    destruct (sel node language); [|done].
    destruct (extractNodeName node language) as [n|]; [|done].
    destruct n; [done|]. simpl in Hsel. injection Hsel as <-. done.
  - intros (node & Hnode%elem_of_walkTree & Hsel & Hname & Hne).
    exists node. split; [done|]. rewrite Hsel, Hname.
    by destruct name.
Qed.

End EnrichmentFacts.

(** A tree with a class declared inside a function body, and the
    collaborators of a diff of two files: a documentation file and a binary
    file; the repository check answers [false] without rejecting. *)
Definition nestedTree : SyntaxNode :=
  Node "program" "function outer() { class Inner {} }"
    [ Node "function_declaration" "function outer() { class Inner {} }"
        [ Node "identifier" "outer" [];
          Node "statement_block" "{ class Inner {} }"
            [ Node "class_declaration" "class Inner {}"
                [ Node "class" "class" [];
                  Node "identifier" "Inner" [] ] ] ] ].

Definition readmeSummary : FileSummary :=
  {| file := "README.md"; insertions := 4; deletions := 0; binary := false |}.

Definition logoSummary : FileSummary :=
  {| file := "assets/logo.png"; insertions := 0; deletions := 0;
     binary := true |}.

Definition scenarioGit : GitCollaborators :=
  {| checkIsRepo := inr false;
     revparse := fun ref =>
       if String.eqb ref "main" then inr ("abc123" +:+ String "010" "")
       else if String.eqb ref "HEAD" then inr ("def456" +:+ String "010" "")
       else inl "unknown revision";
     diffSummary := fun _ _ =>
       inr {| files := [loginSummary; readmeSummary; logoSummary];
              summary_insertions := 7; summary_deletions := 1 |} |}.

(** X1: whatever the enrichment does, the change record of a file keeps
    the path and the line counts of the diff summary; for a binary file
    and for a deleted file no symbol is recorded. *)
Theorem analyzeFileChange_keeps_raw_stats
    (env : Collaborators) (parsers : list string)
    (fileSummary : FileSummary) (baseCommit headCommit : string) :
  let change :=
    analyzeFileChange env parsers fileSummary baseCommit headCommit in
  filePath change = file fileSummary
  ∧ oldPath change = None
  ∧ linesAdded change = insertions fileSummary
  ∧ linesRemoved change = deletions fileSummary
  ∧ (binary fileSummary = true ∨ changeType change = DELETED →
     functionsChanged change = []
     ∧ classesChanged change = []
     ∧ importsChanged change = []).
Proof.
  intros change.
  destruct (analyzeFileChange_frame env parsers fileSummary
              baseCommit headCommit) as (Hp & Ho & Ha & Hr).
  do 4 (split; [done|]).
  pose proof (analyzeFileChange_changeType env parsers fileSummary
                baseCommit headCommit) as Htype.
  fold change in Htype. subst change. unfold analyzeFileChange in *.
  destruct (binary fileSummary) eqn:Hbin; simpl in *; [done|].
  case_bool_decide as Hdel; simpl in *; [done|].
  intros [?|Hd]; [done|]. congruence.
Qed.

(** X2: the enrichment leaves the change record exactly as it is when the
    extension maps to no language, when the language has no parser, when
    the head revision has no (or an empty) content, or when the parser
    throws on either revision. *)
Theorem performSyntaxAnalysis_degrades
    (env : Collaborators) (parsers : list string) (change : CodeChange)
    (baseCommit headCommit : string) :
  let p := filePath change in
  detectLanguage p = None
  ∨ (∃ language, detectLanguage p = Some language ∧ language ∉ parsers)
  ∨ gitShow env headCommit p = None
  ∨ gitShow env headCommit p = Some ""
  ∨ (∃ language content,
       detectLanguage p = Some language
       ∧ gitShow env headCommit p = Some content
       ∧ parse env language content = None)
  ∨ (∃ language content,
       detectLanguage p = Some language
       ∧ gitShow env baseCommit p = Some content
       ∧ content ≠ ""
       ∧ parse env language content = None) →
  performSyntaxAnalysis env parsers change baseCommit headCommit = change.
Proof.
  intros p Hcase. subst p. unfold performSyntaxAnalysis.
  destruct (detectLanguage (filePath change)) as [language|] eqn:Hlang;
    [|done].
  unfold mem. case_bool_decide as Hparser; simpl; [|done].
  unfold parseIfAny, contentOrEmpty.
  destruct Hcase as [?|[(l & [= <-] & Hl)|[Hhead|[Hhead|[Hhead|Hbase]]]]];
    [done|done| | | |].
  - rewrite Hhead. simpl. by repeat case_match.
  - rewrite Hhead. simpl. by repeat case_match.
  - destruct Hhead as (l & content & [= <-] & -> & Hparse). simpl.
    rewrite Hparse. by repeat case_match.
  - destruct Hbase as (l & content & [= <-] & -> & Hne & Hparse). simpl.
    destruct content; [done|]. simpl. by rewrite Hparse.
Qed.

(** A documentation file: its language has no parser. *)
Lemma performSyntaxAnalysis_degrades_readme :
  let change :=
    {| filePath := "README.md"; changeType := ADDED; oldPath := None;
       linesAdded := 4; linesRemoved := 0; functionsChanged := [];
       classesChanged := []; importsChanged := [] |} in
  detectLanguage "README.md" = Some "markdown"
  ∧ performSyntaxAnalysis scenarioEnv PARSERS change "base" "head" = change.
Proof.
  intros change. split; [reflexivity|].
  apply (performSyntaxAnalysis_degrades scenarioEnv PARSERS change).
  right. left. exists "markdown". split; [reflexivity|].
  unfold PARSERS. set_solver.
Defined.

(** X3: the class and import extraction reach the nodes of the tree at
    every depth: a name is reported exactly when some node of the tree is
    class-like and has it as the non-empty text of its first [identifier]
    child, and an import text exactly when it is the trimmed, non-empty
    text of some import-like node of the tree. *)
Theorem extraction_reaches_every_depth
    (tree : SyntaxNode) (language : string) (x : string) :
  (x ∈ extractClasses tree language
   ↔ ∃ node, subnode node tree
       ∧ isClassNode node language = true
       ∧ extractNodeName node language = Some x
       ∧ x ≠ "")
  ∧ (x ∈ extractImports tree language
     ↔ ∃ node, subnode node tree
         ∧ isImportNode node language = true
         ∧ node_text node ≠ ""
         ∧ x = trim (node_text node)).
Proof.
  split; [apply elem_of_collectNames|].
  unfold extractImports. rewrite list_elem_of_omap. split.
  - intros (node & Hnode%elem_of_walkTree & Hsel).
    exists node. split; [done|].
    destruct (isImportNode node language); [|done].
    destruct (node_text node); [done|]. simpl in Hsel.
    injection Hsel as <-. done.
  - intros (node & Hnode%elem_of_walkTree & Hsel & Hne & ->).
    exists node. split; [done|]. rewrite Hsel.
    by destruct (node_text node).
Qed.

Example extraction_nested_class :
  extractClasses nestedTree "javascript" = ["Inner"].
Proof. reflexivity. Qed.

Section AnalyzeDiffFacts.
Variable env : Collaborators.
Variable git : GitCollaborators.
Variable parsers : list string.
Variable repoPath : string.

Lemma analyzeDiff_inv baseRef headRef result :
  analyzeDiff env git parsers repoPath baseRef headRef = inr result →
  ∃ accepted base head summary,
    checkIsRepo git = inr accepted
    ∧ revparse git baseRef = inr base
    ∧ revparse git headRef = inr head
    ∧ diffSummary git (trimWs base) (trimWs head) = inr summary
    ∧ result
      = {| baseCommit := trimWs base;
           headCommit := trimWs head;
           changes :=
             (fun file =>
                analyzeFileChange env parsers file (trimWs base) (trimWs head))
             <$> files summary;
           totalFilesChanged := length (files summary);
           totalLinesAdded := summary_insertions summary;
           totalLinesRemoved := summary_deletions summary;
           languagesAffected :=
             Set_from
               (omap (fun change => detectLanguage (filePath change))
                  ((fun file =>
                      analyzeFileChange env parsers file
                        (trimWs base) (trimWs head))
                   <$> files summary)) |}.
Proof.
  unfold analyzeDiff, validateRepository, resolveRef.
  destruct (checkIsRepo git) as [?|accepted]; simpl; [done|].
  destruct (revparse git baseRef) as [?|base]; simpl; [done|].
  destruct (revparse git headRef) as [?|head]; simpl; [done|].
  destruct (diffSummary git _ _) as [?|summary] eqn:Hsum; simpl; [done|].
  intros [= <-]. by exists accepted, base, head, summary.
Qed.

End AnalyzeDiffFacts.

(** X4: a diff analysis that returns holds one change record per file of
    the diff summary, in the order of the summary and with its path and line
    counts; [totalFilesChanged] is their number, the totals are those of
    the summary, and [languagesAffected] lists, without repetition, exactly
    the languages detected for the changed paths. *)
Theorem analyzeDiff_one_record_per_file
    (env : Collaborators) (git : GitCollaborators) (parsers : list string)
    (repoPath baseRef headRef : string) (result : DiffAnalysisResult) :
  analyzeDiff env git parsers repoPath baseRef headRef = inr result →
  ∃ summary,
    diffSummary git (baseCommit result) (headCommit result) = inr summary
    ∧ filePath <$> changes result = file <$> files summary
    ∧ linesAdded <$> changes result = insertions <$> files summary
    ∧ linesRemoved <$> changes result = deletions <$> files summary
    ∧ totalFilesChanged result = length (changes result)
    ∧ totalLinesAdded result = summary_insertions summary
    ∧ totalLinesRemoved result = summary_deletions summary
    ∧ NoDup (languagesAffected result)
    ∧ ∀ language,
        language ∈ languagesAffected result
        ↔ ∃ change, change ∈ changes result
            ∧ detectLanguage (filePath change) = Some language.
Proof.
  intros (accepted & base & head & summary & _ & _ & _ & Hsum & ->)
    %analyzeDiff_inv.
  exists summary. simpl. split; [done|].
  assert (∀ {B} (g : CodeChange → B) (h : FileSummary → B),
            (∀ fs, g (analyzeFileChange env parsers fs (trimWs base)
                        (trimWs head)) = h fs) →
            g <$> ((fun fs => analyzeFileChange env parsers fs (trimWs base)
                                (trimWs head)) <$> files summary)
            = h <$> files summary) as Hmap.
  { intros B g h Hgh. rewrite <- list_fmap_compose.
    apply list_fmap_ext. intros i fs _. apply Hgh. }
  split; [apply Hmap; intros; apply analyzeFileChange_frame|].
  split; [apply Hmap; intros; apply analyzeFileChange_frame|].
  split; [apply Hmap; intros; apply analyzeFileChange_frame|].
  split; [by rewrite length_fmap|]. split; [done|]. split; [done|].
  split; [apply NoDup_Set_from|].
  intros language. rewrite elem_of_Set_from, list_elem_of_omap. done.
Qed.

(** The diff of scenario [scenarioGit]: three records in the order of the
    summary, the commit identifiers trimmed, two languages. *)
Lemma analyzeDiff_scenario :
  ∃ result summary,
    analyzeDiff scenarioEnv scenarioGit PARSERS "/repo" "main" "HEAD"
    = inr result
    ∧ baseCommit result = "abc123"
    ∧ languagesAffected result = ["javascript"; "markdown"]
    ∧ diffSummary scenarioGit (baseCommit result) (headCommit result)
      = inr summary
    ∧ filePath <$> changes result = file <$> files summary
    ∧ totalFilesChanged result = length (changes result).
Proof.
  eexists. 
  match goal with
  | |- ∃ summary, ?run = inr ?r ∧ _ =>
      assert (run = inr r) as Hrun by (vm_compute; reflexivity)
  end.
  destruct (analyzeDiff_one_record_per_file _ _ _ _ _ _ _ Hrun)
    as (summary & Hsum & Hpaths & _ & _ & Htotal & _).
  exists summary. split; [exact Hrun|].
  split; [reflexivity|]. split; [reflexivity|]. auto.
Defined.

(** X5: a diff analysis fails only when the repository check rejects, a
    reference does not resolve or the diff summary cannot be read, in that
    order and with the message of that step; no file of the summary can
    make it fail, and a check that answers without rejecting is accepted
    whatever it answers. *)
Theorem analyzeDiff_failures
    (env : Collaborators) (git : GitCollaborators) (parsers : list string)
    (repoPath baseRef headRef : string) (message : string) :
  analyzeDiff env git parsers repoPath baseRef headRef = inl message
  ↔ (∃ e, checkIsRepo git = inl e
          ∧ message = "Not a git repository: " +:+ repoPath)
    ∨ (∃ accepted, checkIsRepo git = inr accepted
         ∧ ((∃ e, revparse git baseRef = inl e
                ∧ message = "Failed to resolve reference '" +:+ baseRef
                            +:+ "': " +:+ e)
            ∨ ∃ base, revparse git baseRef = inr base
                ∧ ((∃ e, revparse git headRef = inl e
                       ∧ message = "Failed to resolve reference '"
                                   +:+ headRef +:+ "': " +:+ e)
                   ∨ ∃ head, revparse git headRef = inr head
                       ∧ diffSummary git (trimWs base) (trimWs head)
                         = inl message))).
Proof.
  unfold analyzeDiff, validateRepository, resolveRef.
  destruct (checkIsRepo git) as [e0|accepted]; simpl.
  { split; [intros [= <-]; left; eauto|].
    intros [(e & [= <-] & ->)|(a & [=] & _)]. done. }
  split.
  - intros Hrun. right. exists accepted. split; [done|].
    destruct (revparse git baseRef) as [e|base]; simpl in *.
    { injection Hrun as <-. left. eauto. }
    right. exists base. split; [done|].
    destruct (revparse git headRef) as [e|head]; simpl in *.
    { injection Hrun as <-. left. eauto. }
    right. exists head. split; [done|].
    destruct (diffSummary git _ _) as [e|summary]; simpl in *; [|done].
    by injection Hrun as <-.
  - intros [(e & [=] & _)|(a & _ & Hrest)].
    destruct Hrest as [(e & -> & ->)|(base & -> & Hrest)]; simpl; [done|].
    destruct Hrest as [(e & -> & ->)|(head & -> & Hsum)]; simpl; [done|].
    by rewrite Hsum.
Qed.

(** ** [feature-mapper.js]: the helpers of the mapper *)

Section MapperHelpers.

(** [getTestFilesForFeatures]. *)
Definition getTestFilesForFeatures (features : list ImpactedFeature)
    : list string :=
  Set_from (features ≫= testFiles).

(** [filterFeaturesByConfidence(features, threshold = 0.5)]. *)
Definition filterFeaturesByConfidence (features : list ImpactedFeature)
    (threshold : option Q) : list ImpactedFeature :=
  List.filter (fun feature =>
                 Qle_bool (default (1 # 2)%Q threshold) (confidence feature))
              features.

Record MappingSummary := {
  totalFeatures : nat;
  highConfidence : nat;
  mediumConfidence : nat;
  lowConfidence : nat;
  strategiesUsed : list string;
  totalTestFiles : nat
}.

(** [getSummary]. *)
Definition getSummary (features : list ImpactedFeature) : MappingSummary :=
  {| totalFeatures := length features;
     highConfidence :=
       length (List.filter (fun f => Qle_bool (8 # 10) (confidence f))
                           features);
     mediumConfidence :=
       length (List.filter
                 (fun f => (Qle_bool (5 # 10) (confidence f)
                            && negb (Qle_bool (8 # 10) (confidence f)))%bool)
                 features);
     lowConfidence :=
       length (List.filter (fun f => negb (Qle_bool (5 # 10) (confidence f)))
                           features);
     strategiesUsed := Set_from (strategyUsed <$> features);
     totalTestFiles := length (Set_from (features ≫= testFiles)) |}.

End MapperHelpers.

Section CandidateFacts.
Context {A : Type} `{EqDecision A}.

Lemma Set_add_all_length (seen l : list A) :
  (length (Set_add_all seen l) ≤ length l)%nat.
Proof.
  revert seen. induction l as [|x l IH]; intros seen; simpl; [done|].
  destruct (mem x seen); simpl; [specialize (IH seen)|specialize (IH (x :: seen))];
    lia.
Qed.

Lemma indexOf_None (x : A) (l : list A) : x ∉ l → indexOf x l = None.
Proof.
  induction l as [|y l IH]; [done|].
  intros [Hy Hl]%not_elem_of_cons. simpl.
  rewrite decide_False by done. by rewrite IH.
Qed.

End CandidateFacts.

(** X6: the feature candidates read from a path are at most three
    non-empty names without repetition; the directory that follows a
    leading [src] is always one of them, and a path without the segments
    [features] and [components] that does not start with [src] has none. *)
Theorem extractFeaturesFromPath_candidates (pathParts : list string) :
  let candidates := extractFeaturesFromPath pathParts in
  NoDup candidates
  ∧ (length candidates ≤ 3)%nat
  ∧ (∀ name, name ∈ candidates → name ≠ "")
  ∧ (∀ name rest,
       pathParts = "src" :: name :: rest → name ≠ "" → name ∈ candidates)
  ∧ ("features" ∉ pathParts → "components" ∉ pathParts →
     pathParts !! 0 ≠ Some "src" → candidates = []).
Proof.
  intros candidates. subst candidates. unfold extractFeaturesFromPath.
  split; [apply NoDup_Set_from|]. split.
  { etransitivity; [apply Set_add_all_length|]. simpl.
    repeat case_match; simpl; lia. }
  split.
  { intros name. rewrite elem_of_Set_from, list_elem_of_omap.
    intros (pattern & _ & Hname).
    destruct (pattern pathParts) as [feature|]; [|done].
    destruct feature; [done|]. by injection Hname as <-. }
  split.
  { intros name rest -> Hne. rewrite elem_of_Set_from, list_elem_of_omap.
    eexists. split; [right; left|]. simpl. by destruct name. }
  intros Hf Hc Hsrc. unfold afterSegment. cbn [omap list_omap].
  rewrite !indexOf_None by done. simpl.
  destruct pathParts as [|p0 [|p1 rest]]; [done|done|].
  destruct (String.eqb_spec p0 "src") as [->|]; [done|done].
Qed.

(** ** [feature-mapper.js]: what the strategies report *)

(** A string without upper-case letter. *)
Definition lower_case (s : string) : Prop := toLowerCase s = s.

Section LowerCaseFacts.

Lemma lower_char_idemp c : lower_char (lower_char c) = lower_char c.
Proof. by destruct c as [[] [] [] [] [] [] [] []]. Qed.

Lemma lower_char_separator c :
  (Ascii.eqb (lower_char c) "-" || Ascii.eqb (lower_char c) "_")%bool
  = (Ascii.eqb c "-" || Ascii.eqb c "_")%bool.
Proof. by destruct c as [[] [] [] [] [] [] [] []]. Qed.

Lemma toLowerCase_lower_case s : lower_case (toLowerCase s).
Proof.
  unfold lower_case. induction s as [|c s IH]; [done|].
  simpl. by rewrite lower_char_idemp, IH.
Qed.

Lemma toLowerCase_stripSeparators s :
  toLowerCase (stripSeparators s) = stripSeparators (toLowerCase s).
Proof.
  induction s as [|c s IH]; [done|].
  simpl. rewrite lower_char_separator.
  destruct (_ || _)%bool; simpl; by rewrite IH.
Qed.

Lemma extractFeatureFromSymbol_lower_case symbol :
  lower_case (extractFeatureFromSymbol symbol).
Proof.
  unfold extractFeatureFromSymbol.
  destruct (split _ _) as [|w0 [|w1 ws]]; apply toLowerCase_lower_case.
Qed.

Lemma extractFeatureFromPath_lower_case filePath :
  lower_case (extractFeatureFromPath filePath).
Proof.
  unfold extractFeatureFromPath, lower_case.
  rewrite toLowerCase_stripSeparators. f_equal. apply toLowerCase_lower_case.
Qed.

Lemma mapSymbolsToFeatures_names symbols filePath name :
  name ∈ mapSymbolsToFeatures symbols filePath →
  name ≠ "" ∧ lower_case name.
Proof.
  unfold mapSymbolsToFeatures.
  rewrite elem_of_Set_from, list_elem_of_filter, elem_of_app.
  intros [Htruthy Hin]. split; [by destruct name|].
  destruct Hin as [(symbol & -> & _)%list_elem_of_fmap
                  | ->%list_elem_of_singleton].
  - apply extractFeatureFromSymbol_lower_case.
  - apply extractFeatureFromPath_lower_case.
Qed.

End LowerCaseFacts.

(** X7: the folder-based strategy never throws and reports a feature only
    with at least one test file: every result stands for a changed file
    and one of the candidates of its path whose test search found
    something, and a diff none of whose candidates has a test yields no
    result. *)
Theorem FolderBased_reports_tested_candidates
    (env : Collaborators) (config : StrategyConfig)
    (diffResult : DiffAnalysisResult)
    (existingMappings : list (string * FeatureMappingConfig)) :
  ∃ reported,
    FolderBasedStrategy env config diffResult existingMappings = inr reported
    ∧ Forall (fun f =>
        ∃ change, change ∈ changes diffResult
          ∧ impactedFiles f = [filePath change]
          ∧ featureName f
            ∈ extractFeaturesFromPath (split "/" (filePath change))
          ∧ testFiles f = findTestFiles env (featureName f) (filePath change)
          ∧ testFiles f ≠ []
          ∧ strategyUsed f = FOLDER_BASED) reported
    ∧ ((∀ change name,
          change ∈ changes diffResult →
          name ∈ extractFeaturesFromPath (split "/" (filePath change)) →
          findTestFiles env name (filePath change) = []) →
       reported = []).
Proof.
  eexists. split; [reflexivity|]. split.
  - apply Forall_forall. intros f (change & Hf & Hchange)%list_elem_of_bind.
    cbv zeta in Hf. apply list_elem_of_bind in Hf as (name & Hf & Hname).
    cbv zeta in Hf.
    destruct (findTestFiles env name (filePath change)) as [|t ts] eqn:Htests;
      [by apply elem_of_nil in Hf|].
    simpl in Hf. apply list_elem_of_singleton in Hf as ->. simpl.
    exists change. by rewrite Htests.
  - intros Hnone. apply elem_of_nil_inv.
    intros f (change & Hf & Hchange)%list_elem_of_bind.
    cbv zeta in Hf. apply list_elem_of_bind in Hf as (name & Hf & Hname).
    cbv zeta in Hf. rewrite (Hnone change name) in Hf by done.
    by apply elem_of_nil in Hf.
Qed.

(** X8: the annotation-based strategy never throws; every result stands
    for a changed file that is not deleted and could be read, and for an
    annotation of its content; the feature names are in lower case; and
    a diff of deleted or unreadable files yields no result. *)
Theorem AnnotationBased_skips_deleted_and_unreadable
    (env : Collaborators) (config : StrategyConfig)
    (diffResult : DiffAnalysisResult)
    (existingMappings : list (string * FeatureMappingConfig)) :
  ∃ reported,
    AnnotationBasedStrategy env config diffResult existingMappings
    = inr reported
    ∧ Forall (fun f =>
        ∃ change content, change ∈ changes diffResult
          ∧ changeType change ≠ DELETED
          ∧ readFile env (filePath change) = Some content
          ∧ featureName f ∈ extractAnnotations env content
          ∧ impactedFiles f = [filePath change]
          ∧ lower_case (featureName f)) reported
    ∧ ((∀ change, change ∈ changes diffResult →
          changeType change = DELETED
          ∨ readFile env (filePath change) = None) →
       reported = []).
Proof.
  eexists. split; [reflexivity|]. split.
  - apply Forall_forall. intros f (change & Hf & Hchange)%list_elem_of_bind.
    case_bool_decide as Hdel; [by apply elem_of_nil in Hf|].
    destruct (readFile env (filePath change)) as [content|] eqn:Hread;
      [|by apply elem_of_nil in Hf].
    apply list_elem_of_fmap in Hf as (name & -> & Hname). simpl.
    exists change, content. do 4 (split; [done|]). split; [done|].
    unfold extractAnnotations in Hname.
    apply elem_of_Set_from, list_elem_of_fmap in Hname as (m & -> & _).
    apply toLowerCase_lower_case.
  - intros Hnone. apply elem_of_nil_inv.
    intros f (change & Hf & Hchange)%list_elem_of_bind.
    case_bool_decide as Hdel; [by apply elem_of_nil in Hf|].
    destruct (Hnone change Hchange) as [?|Hread]; [done|].
    rewrite Hread in Hf. by apply elem_of_nil in Hf.
Qed.

(** X9: the symbol-based strategy never throws; every result stands for a
    changed file with at least one changed symbol and records these
    symbols under the metadata key [changedSymbols]; the feature names are
    non-empty and in lower case; and a diff without changed symbol yields
    no result. *)
Theorem ASTBased_reports_changed_symbols
    (env : Collaborators) (config : StrategyConfig)
    (diffResult : DiffAnalysisResult)
    (existingMappings : list (string * FeatureMappingConfig)) :
  ∃ reported,
    ASTBasedStrategy env config diffResult existingMappings = inr reported
    ∧ Forall (fun f =>
        ∃ change, change ∈ changes diffResult
          ∧ functionsChanged change ++ classesChanged change ≠ []
          ∧ impactedFiles f = [filePath change]
          ∧ metadata f !! "changedSymbols"
            = Some (JArr (JStr <$> functionsChanged change
                                   ++ classesChanged change))
          ∧ featureName f ≠ ""
          ∧ lower_case (featureName f)) reported
    ∧ ((∀ change, change ∈ changes diffResult →
          functionsChanged change = [] ∧ classesChanged change = []) →
       reported = []).
Proof.
  eexists. split; [reflexivity|]. split.
  - apply Forall_forall. intros f (change & Hf & Hchange)%list_elem_of_bind.
    cbv zeta in Hf.
    destruct (functionsChanged change ++ classesChanged change)
      as [|s ss] eqn:Hsymbols; [by apply elem_of_nil in Hf|].
    simpl in Hf. apply list_elem_of_fmap in Hf as (name & -> & Hname).
    apply mapSymbolsToFeatures_names in Hname as [Hne Hlower]. simpl.
    exists change. rewrite Hsymbols. do 3 (split; [done|]).
    split; [apply lookup_singleton_eq|done].
  - intros Hnone. apply elem_of_nil_inv.
    intros f (change & Hf & Hchange)%list_elem_of_bind. cbv zeta in Hf.
    destruct (Hnone change Hchange) as [Hfn Hcl]. rewrite Hfn, Hcl in Hf.
    by apply elem_of_nil in Hf.
Qed.

(** ** [feature-mapper.js]: the registry of strategies *)

Section RegistryFacts.
Context {K V : Type} `{EqDecision K}.
Implicit Types (m : list (K * V)) (k : K) (v : V).

Lemma Map_get_set k k' v m :
  Map_get k' (Map_set k v m)
  = if decide (k = k') then Some v else Map_get k' m.
Proof.
  unfold Map_set, Map_has.
  destruct (Map_get k m) as [old|] eqn:Hk.
  - rewrite Map_get_update. case_decide as Hkk; [|done]. subst k'.
    by rewrite Hk.
  - rewrite Map_get_snoc. case_decide as Hkk.
    + subst k'. by rewrite Hk.
    + by destruct (Map_get k' m).
Qed.

Lemma Map_keys_set k v m :
  Map_keys (Map_set k v m)
  = if Map_has k m then Map_keys m else Map_keys m ++ [k].
Proof.
  unfold Map_set. destruct (Map_has k m); [apply Map_keys_update|].
  unfold Map_keys. by rewrite fmap_app.
Qed.

Lemma Map_set_NoDup k v m :
  NoDup (Map_keys m) → NoDup (Map_keys (Map_set k v m)).
Proof.
  intros Hnd. rewrite Map_keys_set.
  destruct (Map_has k m) eqn:Hhas; [done|].
  apply Map_has_false in Hhas. apply NoDup_app. split; [done|].
  split; [|apply NoDup_singleton].
  intros x Hx ->%list_elem_of_singleton. done.
Qed.

End RegistryFacts.

Section InitializeFacts.
Variable env : Collaborators.

Lemma strategyOfType_type config strategy :
  strategyOfType env config = Some strategy →
  strategy_type config
  ∈ [FOLDER_BASED; FILE_BASED; ANNOTATION_BASED; AST_BASED].
Proof.
  unfold strategyOfType.
  destruct (String.eqb_spec (strategy_type config) FOLDER_BASED) as [Heq|_];
    [rewrite Heq; intros _; set_solver|].
  destruct (String.eqb_spec (strategy_type config) FILE_BASED) as [Heq|_];
    [rewrite Heq; intros _; set_solver|].
  destruct (String.eqb_spec (strategy_type config) ANNOTATION_BASED)
    as [Heq|_]; [rewrite Heq; intros _; set_solver|].
  destruct (String.eqb_spec (strategy_type config) AST_BASED) as [Heq|_];
    [rewrite Heq; intros _; set_solver|done].
Qed.

Lemma strategyOfType_None config config' :
  strategyOfType env config = None →
  strategy_type config' = strategy_type config →
  strategyOfType env config' = None.
Proof.
  unfold strategyOfType. intros Hnone ->.
  by repeat (destruct (String.eqb _ _); [done|]).
Qed.

End InitializeFacts.

(** X10: the mapper registers at most one strategy per type, and only the
    four known types; the strategy registered for a type is the one built
    from the last enabled configuration entry of that type (an entry
    that is disabled, or whose [enabled] is missing, registers nothing),
    so a repeated type takes the weight of its last entry. *)
Theorem initializeStrategies_registry
    (env : Collaborators) (config : TEOConfig) :
  let configs := default [] (feature_detection_strategies config) in
  let registry := initializeStrategies env config in
  NoDup (Map_keys registry)
  ∧ (∀ type, type ∈ Map_keys registry →
       type ∈ [FOLDER_BASED; FILE_BASED; ANNOTATION_BASED; AST_BASED])
  ∧ ∀ type,
      Map_get type registry
      = last (filter (fun entry => strategy_enabled entry = Some true
                                   ∧ strategy_type entry = type) configs)
        ≫= strategyOfType env.
Proof.
  intros configs registry. subst registry. unfold initializeStrategies.
  fold configs. generalize configs. clear configs. intros configs.
  assert (NoDup (Map_keys (fold_left
            (fun strategies strategyConfig =>
               if negb (default false (strategy_enabled strategyConfig))
               then strategies
               else match strategyOfType env strategyConfig with
                    | Some strategy =>
                        Map_set (strategy_type strategyConfig) strategy
                                strategies
                    | None => strategies
                    end) configs []))
          ∧ ∀ type,
              Map_get type (fold_left
                (fun strategies strategyConfig =>
                   if negb (default false (strategy_enabled strategyConfig))
                   then strategies
                   else match strategyOfType env strategyConfig with
                        | Some strategy =>
                            Map_set (strategy_type strategyConfig) strategy
                                    strategies
                        | None => strategies
                        end) configs [])
              = last (filter (fun entry =>
                                strategy_enabled entry = Some true
                                ∧ strategy_type entry = type) configs)
                ≫= strategyOfType env) as [Hnd Hget].
  { induction configs as [|sc configs [IHnd IHget]] using rev_ind.
    { split; [constructor|done]. }
    rewrite fold_left_app. simpl.
    destruct (strategy_enabled sc) as [[|]|] eqn:Henabled; simpl.
    - destruct (strategyOfType env sc) as [s|] eqn:Hs.
      + split; [by apply Map_set_NoDup|].
        intros type. rewrite Map_get_set, filter_app, filter_cons, filter_nil.
        case_decide as Htype.
        * rewrite decide_True by done. by rewrite last_snoc.
        * rewrite decide_False by naive_solver.
          rewrite app_nil_r. apply IHget.
      + split; [done|].
        intros type. rewrite filter_app, filter_cons, filter_nil.
        case_decide as Htype; [|rewrite app_nil_r; apply IHget].
        destruct Htype as [_ Htype]. rewrite last_snoc. simpl.
        rewrite Hs, IHget.
        destruct (last _) as [sc'|] eqn:Hlast; [|done]. simpl.
        apply last_Some_elem_of, list_elem_of_filter in Hlast as [[_ Hty] _].
        apply (strategyOfType_None env sc); [done|congruence].
    - split; [done|]. intros type.
      rewrite filter_app, filter_cons, filter_nil.
      rewrite decide_False by (intros [? _]; congruence).
      rewrite app_nil_r. apply IHget.
    - split; [done|]. intros type.
      rewrite filter_app, filter_cons, filter_nil.
      rewrite decide_False by (intros [? _]; congruence).
      rewrite app_nil_r. apply IHget. }
  split; [done|]. split; [|done].
  intros type Hin. specialize (Hget type).
  match type of Hget with
  | Map_get type ?registry = _ =>
      destruct (Map_get type registry) as [s|] eqn:Hs;
        [|by apply Map_get_None in Hs]
  end.
  destruct (last _) as [sc|] eqn:Hlast; [|done]. simpl in Hget.
  apply last_Some_elem_of, list_elem_of_filter in Hlast as [[_ <-] _].
  by apply (strategyOfType_type env sc s).
Qed.

(** ** [feature-mapper.js]: more on the aggregation *)

Section AttributionFacts.

Lemma mergeFeatures_first results name merged :
  Map_get name (mergeFeatures [] results) = Some merged →
  ∃ first rest,
    contributing name results = first :: rest
    ∧ changeSummary merged = changeSummary first
    ∧ strategyUsed merged = strategyUsed first.
Proof.
  revert name merged.
  induction results as [|r results IH] using rev_ind; intros name merged;
    [done|].
  rewrite mergeFeatures_snoc. unfold mergeFeature.
  pose proof (mergeFeatures_keys results) as Hkeys.
  rewrite contributing_snoc.
  destruct (Map_has _ _) eqn:Hhas.
  - rewrite Map_get_update. case_decide as Hname.
    + destruct (Map_get name _) as [old|] eqn:Hold; [|done].
      intros [= <-]. simpl.
      destruct (IH _ _ Hold) as (first & rest & -> & Hsum & Hstrat).
      by exists first, (rest ++ [r]).
    + intros (first & rest & -> & ?)%IH. rewrite app_nil_r. eauto.
  - apply Map_has_false in Hhas. unfold Map_set.
    rewrite (proj2 (Map_has_false _ _) Hhas), Map_get_snoc.
    destruct (Map_get name _) as [old|] eqn:Hold.
    + intros [= <-]. rewrite decide_False.
      * destruct (IH _ _ Hold) as (first & rest & -> & ?).
        rewrite app_nil_r. eauto.
      * intros Heq. apply Hhas. rewrite Heq.
        apply Map_get_elem_of in Hold.
        apply list_elem_of_fmap. by exists (name, old).
    + case_decide as Hname; [|done]. intros [= <-].
      apply Map_get_None in Hold. rewrite Hkeys, elem_of_Set_from in Hold.
      rewrite (contributing_nil _ _ Hold). by exists r, [].
Qed.

Lemma is_maximum_unique a b l l' :
  l ≡ₚ l' → is_maximum a l → is_maximum b l' → (a == b)%Q.
Proof.
  intros Hperm [Ha Hmaxa] [Hb Hmaxb]. apply Qle_antisym.
  - apply Hmaxb. by rewrite <- Hperm.
  - apply Hmaxa. by rewrite Hperm.
Qed.

End AttributionFacts.

(** Scenario C processed in the other order. *)
Definition scenarioC_reversed : list ImpactedFeature := reverse scenarioC.

(** X11: a merged feature keeps the change summary and the strategy of the
    first result that reported its name, whichever result brings the
    maximal confidence. *)
Theorem merged_feature_keeps_first_attribution
    (strategies : list (string * Strategy))
    (existingMappings : list (string * FeatureMappingConfig))
    (diffResult : DiffAnalysisResult) :
  let results := processed strategies diffResult existingMappings in
  ∃ ranked,
    (mapChangesWith strategies existingMappings (Some diffResult)).1
    = inr ranked
    ∧ Forall (fun merged =>
        ∃ first rest,
          contributing (featureName merged) results = first :: rest
          ∧ changeSummary merged = changeSummary first
          ∧ strategyUsed merged = strategyUsed first) ranked.
Proof.
  intros results. eexists. split; [apply mapChangesWith_returns|].
  fold results. apply Forall_forall. intros merged Hin.
  rewrite Array_sort_perm in Hin.
  apply list_elem_of_fmap in Hin as ([k v] & -> & Hin). simpl.
  rewrite (mergeFeatures_names _ _ _ Hin).
  apply mergeFeatures_first, elem_of_Map_get; [|done].
  rewrite mergeFeatures_keys. apply NoDup_Set_from.
Qed.

(** X12: the order in which the results are processed changes neither the
    names of the merged features nor, for any name, the confidence and
    the sets of impacted files and of test files (the order inside the
    lists, the metadata and the attribution may change). *)
Theorem aggregation_order_independent
    (results results' : list ImpactedFeature) (name : string) :
  results ≡ₚ results' →
  Forall well_formed results →
  match Map_get name (mergeFeatures [] results),
        Map_get name (mergeFeatures [] results') with
  | Some merged, Some merged' =>
      (confidence merged == confidence merged')%Q
      ∧ (∀ x, x ∈ impactedFiles merged ↔ x ∈ impactedFiles merged')
      ∧ (∀ x, x ∈ testFiles merged ↔ x ∈ testFiles merged')
  | None, None => True
  | _, _ => False
  end.
Proof.
  intros Hperm Hwf.
  assert (Forall well_formed results') as Hwf' by (by rewrite <- Hperm).
  assert (contributing name results ≡ₚ contributing name results') as Hcs.
  { unfold contributing. by rewrite Hperm. }
  destruct (Map_get name (mergeFeatures [] results)) as [merged|] eqn:Hm;
    destruct (Map_get name (mergeFeatures [] results')) as [merged'|] eqn:Hm'.
  - destruct (mergeFeatures_aggregates _ _ _ Hwf Hm)
      as (_ & Hmax & Hfiles & Htests & _).
    destruct (mergeFeatures_aggregates _ _ _ Hwf' Hm')
      as (_ & Hmax' & Hfiles' & Htests' & _).
    split; [eapply is_maximum_unique; [|exact Hmax|exact Hmax'];
            by rewrite Hcs|].
    rewrite Hfiles, Hfiles', Htests, Htests'.
    split; intros x; rewrite !elem_of_Set_from; by rewrite Hcs.
  - apply Map_get_None in Hm'. apply Map_get_elem_of in Hm.
    apply Hm'. rewrite mergeFeatures_keys, elem_of_Set_from, <- Hperm.
    rewrite <- (elem_of_Set_from (A:=string)), <- mergeFeatures_keys.
    apply list_elem_of_fmap. by exists (name, merged).
  - apply Map_get_None in Hm. apply Map_get_elem_of in Hm'.
    apply Hm. rewrite mergeFeatures_keys, elem_of_Set_from, Hperm.
    rewrite <- (elem_of_Set_from (A:=string)), <- mergeFeatures_keys.
    apply list_elem_of_fmap. by exists (name, merged').
  - done.
Qed.

(** Scenario C in both orders: confidence [0.9] and both files. *)
Lemma aggregation_order_scenario_C :
  (confidence <$> Map_values (mergeFeatures [] scenarioC_reversed)
   = [(9 # 10)%Q])
  ∧ (impactedFiles <$> Map_values (mergeFeatures [] scenarioC_reversed)
     = [["b.js"; "a.js"]])
  ∧ match Map_get "payments" (mergeFeatures [] scenarioC),
          Map_get "payments" (mergeFeatures [] scenarioC_reversed) with
    | Some merged, Some merged' =>
        (confidence merged == confidence merged')%Q
        ∧ (∀ x, x ∈ impactedFiles merged ↔ x ∈ impactedFiles merged')
        ∧ (∀ x, x ∈ testFiles merged ↔ x ∈ testFiles merged')
    | None, None => True
    | _, _ => False
    end.
Proof.
  split; [reflexivity|]. split; [reflexivity|].
  apply (aggregation_order_independent scenarioC scenarioC_reversed).
  - unfold scenarioC_reversed. by rewrite reverse_Permutation.
  - repeat constructor; simpl; set_solver.
Defined.

(** ** [feature-mapper.js]: threshold and summary *)

Section ThresholdFacts.

Lemma filter_below_threshold t (l : list ImpactedFeature) :
  Forall (fun f => (confidence f < t)%Q) l →
  List.filter (fun f => Qle_bool t (confidence f)) l = [].
Proof.
  induction 1 as [|f l Hf Hl IH]; [done|]. simpl.
  destruct (Qle_bool t (confidence f)) eqn:Hle; [|done].
  apply Qle_bool_iff in Hle. by apply Qlt_not_le in Hf.
Qed.

Lemma ranked_threshold_prefix t (l : list ImpactedFeature) :
  StronglySorted (fun a b => (confidence b <= confidence a)%Q) l →
  ∃ rest,
    l = List.filter (fun f => Qle_bool t (confidence f)) l ++ rest
    ∧ Forall (fun f => (confidence f < t)%Q) rest.
Proof.
  induction 1 as [|f l Hsorted IH Hf]; [by exists []|]. simpl.
  destruct (Qle_bool t (confidence f)) eqn:Hle.
  - destruct IH as (rest & Heq & Hrest). exists rest.
    split; [|done]. simpl. by rewrite <- Heq.
  - assert (confidence f < t)%Q as Hlt.
    { apply Qnot_le_lt. intros H. apply Qle_bool_iff in H. congruence. }
    assert (Forall (fun g => (confidence g < t)%Q) l) as Hall.
    { eapply Forall_impl; [exact Hf|]. intros g Hg. simpl in Hg.
      by apply Qle_lt_trans with (confidence f). }
    exists (f :: l). rewrite (filter_below_threshold _ _ Hall).
    split; [done|]. by constructor.
Qed.

End ThresholdFacts.

(** X13: applied to the list the mapping step returns, the confidence
    filter keeps a prefix of the ranking: the features it keeps have at
    least the threshold (0.5 when none is given) and come first, in ranked
    order; all the features it drops lie below the threshold. *)
Theorem filterFeaturesByConfidence_keeps_prefix
    (strategies : list (string * Strategy))
    (existingMappings : list (string * FeatureMappingConfig))
    (diffResult : DiffAnalysisResult) (threshold : option Q) :
  ∃ ranked dropped,
    (mapChangesWith strategies existingMappings (Some diffResult)).1
    = inr ranked
    ∧ ranked = filterFeaturesByConfidence ranked threshold ++ dropped
    ∧ Forall (fun f => (default (1 # 2) threshold <= confidence f)%Q)
             (filterFeaturesByConfidence ranked threshold)
    ∧ Forall (fun f => (confidence f < default (1 # 2) threshold)%Q) dropped.
Proof.
  pose proof (Array_sort_sorted byConfidence
                (fun a b => (confidence b <= confidence a)%Q)
                (Map_values (mergeFeatures []
                   (processed strategies diffResult existingMappings)))
                byConfidence_true byConfidence_false) as Hsorted.
  destruct (ranked_threshold_prefix (default (1 # 2)%Q threshold) _
              (Hsorted ltac:(intros a b c ? ?;
                             by apply Qle_trans with (confidence b))))
    as (dropped & Heq & Hdropped).
  eexists _, dropped. split; [apply mapChangesWith_returns|].
  split; [exact Heq|]. split; [|done].
  apply Forall_forall. intros f Hf.
  apply list_elem_of_In, filter_In in Hf as [_ Hf].
  by apply Qle_bool_iff.
Qed.

(** X14: in the summary of a list of features the three confidence bands
    partition the features (their counts add up to [totalFeatures]);
    [totalTestFiles] is the number of files [getTestFilesForFeatures]
    returns, which are the test files of the features without
    repetition; and [strategiesUsed] lists each strategy of a feature
    once. *)
Theorem getSummary_partitions (features : list ImpactedFeature) :
  let s := getSummary features in
  let tests := getTestFilesForFeatures features in
  (highConfidence s + mediumConfidence s + lowConfidence s
   = totalFeatures s)%nat
  ∧ totalTestFiles s = length tests
  ∧ NoDup tests
  ∧ (∀ t, t ∈ tests ↔ ∃ f, f ∈ features ∧ t ∈ testFiles f)
  ∧ NoDup (strategiesUsed s)
  ∧ (∀ x, x ∈ strategiesUsed s ↔ ∃ f, f ∈ features ∧ strategyUsed f = x).
Proof.
  intros s tests. subst s tests. unfold getSummary, getTestFilesForFeatures.
  simpl. split.
  { induction features as [|f features IH]; [done|]. simpl.
    destruct (Qle_bool (8 # 10) (confidence f)) eqn:H8;
      destruct (Qle_bool (5 # 10) (confidence f)) eqn:H5; simpl; try lia.
    exfalso. apply Qle_bool_iff in H8.
    assert (Qle_bool (5 # 10) (confidence f) = true); [|congruence].
    apply Qle_bool_iff. by apply Qle_trans with (8 # 10)%Q. }
  split; [done|]. split; [apply NoDup_Set_from|]. split.
  { intros t. rewrite elem_of_Set_from, list_elem_of_bind. naive_solver. }
  split; [apply NoDup_Set_from|].
  intros x. rewrite elem_of_Set_from, list_elem_of_fmap. naive_solver.
Qed.

(** ** [playwright-integration.js]: the selection and its summary *)

Section SelectionBounds.
Variable env : Collaborators.
Variable allTestFiles : list string.

Lemma filterExc_subset {A} (f : A → Exc bool) (l kept : list A) x :
  filterExc f l = inr kept → x ∈ kept → x ∈ l.
Proof.
  revert kept. induction l as [|y l IH]; intros kept; simpl.
  - by intros [= <-].
  - destruct (f y) as [?|keep]; simpl; [done|].
    destruct (filterExc f l) as [?|rest]; simpl; [done|].
    intros [= <-] Hx. destruct keep.
    + apply elem_of_cons in Hx as [->|Hx]; [left|right; by apply (IH rest)].
    + right. by apply (IH rest).
Qed.

Lemma matchPatterns_subset patterns matches x :
  matchPatterns env allTestFiles patterns = inr matches →
  x ∈ matches → x ∈ allTestFiles.
Proof.
  revert matches. induction patterns as [|p ps IH]; intros matches; simpl.
  - by intros [= <-] ?%elem_of_nil.
  - destruct (filterExc _ _) as [?|here] eqn:Hhere; simpl; [done|].
    destruct (matchPatterns _ _ ps) as [?|more]; simpl; [done|].
    intros [= <-] [Hx|Hx]%elem_of_app.
    + by eapply filterExc_subset.
    + by apply (IH more).
Qed.

Lemma matchTestsToFeature_subset f tests :
  matchTestsToFeature env allTestFiles f = inr tests →
  NoDup tests ∧ ∀ x, x ∈ tests → x ∈ allTestFiles.
Proof.
  unfold matchTestsToFeature.
  destruct (if Nat.ltb 0 (length (testFiles f)) then _ else _)
    as [?|matching] eqn:Hmatching; simpl; [done|].
  intros [= <-]. split; [apply NoDup_Set_from|].
  intros x Hx. rewrite elem_of_Set_from in Hx.
  destruct (Nat.eqb (length matching) 0).
  - unfold matchByName in Hx.
    apply list_elem_of_In, filter_In in Hx as [Hx _].
    by apply list_elem_of_In.
  - destruct (Nat.ltb 0 (length (testFiles f))).
    + by eapply matchPatterns_subset.
    + injection Hmatching as <-. by apply elem_of_nil in Hx.
Qed.

Lemma selectTests_within result impactedFeatures :
  selectTests env allTestFiles impactedFeatures = inr result →
  NoDup (path <$> selectedTests result)
  ∧ (∀ p, p ∈ path <$> selectedTests result →
       p ∈ allTestFiles
       ∧ ∃ f tests, f ∈ impactedFeatures
           ∧ matchTestsToFeature env allTestFiles f = inr tests
           ∧ p ∈ tests)
  ∧ totalAvailable (summary result) = length allTestFiles
  ∧ totalSelected (summary result) = length (selectedTests result).
Proof.
  unfold selectTests.
  destruct (selectLoop env allTestFiles impactedFeatures [] [])
    as [msg|[selected reasons]] eqn:Hloop; [done|].
  intros [= <-]. simpl.
  apply (selectLoop_invariant env allTestFiles _ []) in Hloop
    as (Hnd & Hclaimed & _).
  2: { split; [constructor|]. split; [constructor|].
       by intros f tests p ?%elem_of_nil. }
  split; [done|]. split; [|done].
  intros p (t & -> & Ht)%list_elem_of_fmap.
  rewrite Forall_forall in Hclaimed.
  destruct (Hclaimed t Ht)
    as (earlier & f & later & tests & Hranked & Hmatch & Hin & _).
  simpl in Hranked. split.
  - by apply (matchTestsToFeature_subset f tests).
  - exists f, tests. split; [|done]. rewrite Hranked. set_solver.
Qed.

Lemma NoDup_subset_length (l k : list string) :
  NoDup l → (∀ x, x ∈ l → x ∈ k) → (length l ≤ length k)%nat.
Proof. intros Hnd Hsub. by apply submseteq_length, NoDup_submseteq. Qed.

End SelectionBounds.

(** X15: a selection that returns selects only available test files, each
    at most once, so [totalSelected] never exceeds [totalAvailable]. *)
Theorem selection_within_available
    (env : Collaborators) (allTestFiles : list string)
    (impactedFeatures : list ImpactedFeature) (result : SelectionResult) :
  selectTests env allTestFiles impactedFeatures = inr result →
  (∀ t, t ∈ selectedTests result → path t ∈ allTestFiles)
  ∧ totalAvailable (summary result) = length allTestFiles
  ∧ totalSelected (summary result) = length (selectedTests result)
  ∧ (totalSelected (summary result) ≤ totalAvailable (summary result))%nat.
Proof.
  intros (Hnd & Hin & Havailable & Hselected)%selectTests_within.
  split.
  { intros t Ht. apply Hin. by apply list_elem_of_fmap_2. }
  split; [done|]. split; [done|].
  rewrite Havailable, Hselected, <- (length_fmap path).
  apply NoDup_subset_length; [done|]. intros p Hp. by apply Hin.
Qed.

(** Scenario D: two of the three available files are selected. *)
Lemma selection_within_available_scenario_D :
  ∃ result,
    selectTests scenarioEnv scenarioD_tests [checkoutFeature; cartFeature]
    = inr result
    ∧ totalSelected (summary result) = 2
    ∧ totalAvailable (summary result) = 3
    ∧ (∀ t, t ∈ selectedTests result → path t ∈ scenarioD_tests)
    ∧ (totalSelected (summary result) ≤ totalAvailable (summary result))%nat.
Proof.
  eexists. split; [vm_compute; reflexivity|].
  split; [reflexivity|]. split; [reflexivity|].
  match goal with
  | |- (∀ t, t ∈ selectedTests ?r → _) ∧ _ =>
      destruct (selection_within_available scenarioEnv scenarioD_tests
                  [checkoutFeature; cartFeature] r) as (Hin & _ & _ & Hle)
  end.
  - vm_compute. reflexivity.
  - split; [exact Hin|exact Hle].
Defined.

Section SelectionReasons.
Variable env : Collaborators.
Variable allTestFiles : list string.

(** The entry of [selectionReasons] a feature gives rise to, if any. *)
Definition reasonFor (feature : ImpactedFeature) : option SelectionReason :=
  match matchTestsToFeature env allTestFiles feature with
  | inr featureTests =>
      if Nat.ltb 0 (length featureTests)
      then Some {| reason_feature := featureName feature;
                   reason_confidence := confidence feature;
                   testsSelected := length featureTests;
                   reason_strategy := strategyUsed feature |}
      else None
  | inl _ => None
  end.

Definition featureTestsOf (feature : ImpactedFeature) : list string :=
  match matchTestsToFeature env allTestFiles feature with
  | inr featureTests => featureTests
  | inl _ => []
  end.

Lemma selectLoop_reasons features selected reasons selected' reasons' :
  selectLoop env allTestFiles features selected reasons
  = inr (selected', reasons') →
  reasons' = reasons ++ omap reasonFor features.
Proof.
  revert selected reasons.
  induction features as [|f features IH]; intros selected reasons; simpl.
  - intros [= <- <-]. by rewrite app_nil_r.
  - unfold reasonFor at 1.
    destruct (matchTestsToFeature env allTestFiles f) as [msg|tests];
      simpl; [done|].
    intros ->%IH. destruct (Nat.ltb 0 (length tests)); [|done].
    by rewrite <- app_assoc.
Qed.

Lemma reasons_total features :
  sum_list (testsSelected <$> omap reasonFor features)
  = length (features ≫= featureTestsOf).
Proof.
  induction features as [|f features IH]; [done|].
  cbn [omap list_omap mbind list_bind]. rewrite length_app, <- IH.
  unfold reasonFor, featureTestsOf.
  destruct (matchTestsToFeature env allTestFiles f) as [msg|tests]; [done|].
  by destruct tests.
Qed.

End SelectionReasons.

(** X16: [selectionReasons] has one entry per feature that matches at least
    one test file, in the order of the features; its [testsSelected] is the
    number of files the feature matches, whether or not an earlier feature
    already claimed them, so the counts add up to at least
    [totalSelected]. *)
Theorem selection_reasons_count_matches
    (env : Collaborators) (allTestFiles : list string)
    (impactedFeatures : list ImpactedFeature) (result : SelectionResult) :
  selectTests env allTestFiles impactedFeatures = inr result →
  selectionReasons result = omap (reasonFor env allTestFiles) impactedFeatures
  ∧ (totalSelected (summary result)
     ≤ sum_list (testsSelected <$> selectionReasons result))%nat.
Proof.
  intros Hresult.
  assert (selectionReasons result
          = omap (reasonFor env allTestFiles) impactedFeatures) as Hreasons.
  { revert Hresult. unfold selectTests.
    destruct (selectLoop env allTestFiles impactedFeatures [] [])
      as [msg|[selected reasons]] eqn:Hloop; [done|].
    intros [= <-]. simpl. by apply selectLoop_reasons in Hloop. }
  split; [done|].
  apply selectTests_within in Hresult as (Hnd & Hin & _ & ->).
  rewrite Hreasons, reasons_total, <- (length_fmap path).
  apply NoDup_subset_length; [done|].
  intros p (_ & f & tests & Hf & Hmatch & Hp)%Hin.
  apply list_elem_of_bind. exists f. split; [|done].
  unfold featureTestsOf. by rewrite Hmatch.
Qed.

(** Scenario D: the shared file is counted for both features, selected
    once. *)
Lemma selection_reasons_scenario_D :
  ∃ result,
    selectTests scenarioEnv scenarioD_tests [checkoutFeature; cartFeature]
    = inr result
    ∧ testsSelected <$> selectionReasons result = [1; 2]
    ∧ length (selectedTests result) = 2
    ∧ (totalSelected (summary result)
       ≤ sum_list (testsSelected <$> selectionReasons result))%nat.
Proof.
  eexists. split; [vm_compute; reflexivity|].
  split; [reflexivity|]. split; [reflexivity|].
  match goal with
  | |- (totalSelected (summary ?r) ≤ _)%nat =>
      apply (selection_reasons_count_matches scenarioEnv scenarioD_tests
               [checkoutFeature; cartFeature] r)
  end.
  vm_compute. reflexivity.
Defined.

(** ** [playwright-integration.js]: from glob to regular expression *)

(** The regular expression [matchesPattern] builds from a pattern. *)
Definition globToRegex (pattern : string) : string :=
  replaceAll "?" "."
    (replaceAll "*" "[^/]*" (replaceAll "**" ".*" pattern)).

(** Every [*] of the string follows a [']'], [prev] being the character
    before the string. *)
Fixpoint guarded (prev : ascii) (s : string) : bool :=
  match s with
  | EmptyString => true
  | String a r =>
      (negb (Ascii.eqb a "*") || Ascii.eqb prev "]") && guarded a r
  end.

Lemma prefix_char c a r : String.prefix (String c "") (String a r) = Ascii.eqb c a.
Proof.
  simpl. destruct (Ascii.ascii_dec c a) as [->|Hne].
  - rewrite Ascii.eqb_refl. by destruct r.
  - symmetry. by apply Ascii.eqb_neq.
Qed.

Lemma includes_char c a r :
  includes (String a r) (String c "")
  = (Ascii.eqb c a || includes r (String c ""))%bool.
Proof. cbn [includes]. rewrite prefix_char. by destruct (Ascii.eqb c a). Qed.

Lemma replaceAll_char c rep a r :
  replaceAll (String c "") rep (String a r)
  = if Ascii.eqb c a then rep +:+ replaceAll (String c "") rep r
    else String a (replaceAll (String c "") rep r).
Proof.
  unfold replaceAll. cbn [replace_go String.length Nat.sub].
  by rewrite prefix_char.
Qed.

Lemma replaceAll_char_absent c rep s :
  includes s (String c "") = false → replaceAll (String c "") rep s = s.
Proof.
  induction s as [|a r IH]; [done|].
  rewrite includes_char, replaceAll_char.
  destruct (Ascii.eqb c a); [done|]. simpl. intros Hr. by rewrite IH.
Qed.

Lemma replaceAll_stars_absent rep s :
  includes s "*" = false → replaceAll "**" rep s = s.
Proof.
  unfold replaceAll. induction s as [|a r IH]; [done|].
  rewrite includes_char. intros [Ha Hr]%orb_false_elim.
  cbn [replace_go String.prefix].
  destruct (Ascii.ascii_dec "*" a) as [<-|_]; [done|]. by rewrite IH.
Qed.

Lemma replaceAll_star_guarded s prev :
  guarded prev (replaceAll "*" "[^/]*" s) = true.
Proof.
  revert prev. induction s as [|a r IH]; intros prev; [done|].
  rewrite replaceAll_char. destruct (Ascii.eqb "*" a) eqn:Ha.
  - simpl. apply IH.
  - cbn [guarded]. rewrite Ascii.eqb_sym, Ha. simpl. apply IH.
Qed.

Lemma replaceAll_question_guarded s prev prev' :
  (Ascii.eqb prev "]" = true → Ascii.eqb prev' "]" = true) →
  guarded prev s = true →
  guarded prev' (replaceAll "?" "." s) = true.
Proof.
  revert prev prev'. induction s as [|a r IH]; intros prev prev' Hprev; [done|].
  cbn [guarded]. intros [Ha Hr]%andb_true_iff.
  rewrite replaceAll_char. destruct (Ascii.eqb "?" a) eqn:Hq.
  - apply Ascii.eqb_eq in Hq as <-. simpl.
    apply (IH "?"%char); [done|exact Hr].
  - cbn [guarded]. apply andb_true_iff. split; [|by apply (IH a)].
    apply orb_true_iff in Ha as [Ha|Ha]; apply orb_true_iff; [by left|].
    right. by apply Hprev.
Qed.

Lemma replaceAll_question_gone s :
  includes (replaceAll "?" "." s) "?" = false.
Proof.
  induction s as [|a r IH]; [done|].
  rewrite replaceAll_char. destruct (Ascii.eqb "?" a) eqn:Hq.
  - change ("." +:+ replaceAll "?" "." r)
      with (String "." (replaceAll "?" "." r)).
    by rewrite includes_char, IH.
  - by rewrite includes_char, Hq, IH.
Qed.

Lemma guarded_no_dot_star s prev :
  guarded prev s = true → includes s ".*" = false.
Proof.
  revert prev. induction s as [|a r IH]; intros prev; [done|].
  cbn [guarded]. intros [_ Hr]%andb_true_iff.
  cbn [includes]. rewrite (IH a Hr).
  cbn [String.prefix]. destruct (Ascii.ascii_dec "." a) as [<-|_]; [|done].
  destruct r as [|b r]; [done|].
  cbn [guarded] in Hr. apply andb_true_iff in Hr as [Hb _].
  simpl in Hb. rewrite orb_false_r in Hb.
  rewrite prefix_char, Ascii.eqb_sym. by destruct (Ascii.eqb b "*").
Qed.

(** A directory wildcard loses its meaning on the way. *)
Example globToRegex_directory_wildcard :
  globToRegex "tests/**/login.spec.js" = "tests/.[^/]*/login.spec.js".
Proof. reflexivity. Qed.

(** X17: the regular expression [matchesPattern] tests never contains
    [.*] nor [?]: the [*] of the [.*] written for a [**] is rewritten again
    by the next replacement.  A pattern without [*] and [?] is used as the
    regular expression as it stands, its other characters unescaped. *)
Theorem matchesPattern_regex
    (env : Collaborators) (filePath pattern : string) :
  matchesPattern env filePath pattern
  = match regexTest env (globToRegex pattern) filePath with
    | Some b => inr b
    | None => inl "Invalid regular expression"
    end
  ∧ includes (globToRegex pattern) ".*" = false
  ∧ includes (globToRegex pattern) "?" = false
  ∧ (includes pattern "*" = false → includes pattern "?" = false →
     globToRegex pattern = pattern).
Proof.
  split; [reflexivity|]. split; [|split].
  - unfold globToRegex. apply (guarded_no_dot_star _ "a"%char).
    apply (replaceAll_question_guarded _ "a"%char); [done|].
    apply replaceAll_star_guarded.
  - apply replaceAll_question_gone.
  - intros Hstar Hquestion. unfold globToRegex.
    rewrite (replaceAll_stars_absent _ _ Hstar).
    rewrite (replaceAll_char_absent _ _ _ Hstar).
    by rewrite (replaceAll_char_absent _ _ _ Hquestion).
Qed.

(** ** [playwright-integration.js]: discovery *)

Lemma String_leb_trans (a b c : string) :
  String.leb a b = true → String.leb b c = true → String.leb a c = true.
Proof.
  unfold String.leb. revert b c.
  induction a as [|x a IH]; intros [|y b] [|z c]; simpl; try done.
  unfold Ascii.compare. intros Hab Hbc.
  destruct (N.compare_spec (N_of_ascii x) (N_of_ascii y)),
           (N.compare_spec (N_of_ascii y) (N_of_ascii z)),
           (N.compare_spec (N_of_ascii x) (N_of_ascii z));
    try done; try lia.
  by apply (IH b c).
Qed.

Lemma prefix_append (p s : string) : String.prefix p (p +:+ s) = true.
Proof.
  induction p as [|a p IH]; simpl; [by destruct s|].
  by destruct (Ascii.ascii_dec a a).
Qed.

Section DiscoveryFacts.
Variable env : Collaborators.

Lemma discoverAll_spec dir patterns :
  match discoverAll env dir patterns with
  | inr files =>
      (∀ pattern, pattern ∈ patterns →
         is_Some (discoverGlob env (path_join dir pattern)))
      ∧ ∀ t, t ∈ files ↔
          ∃ pattern matches,
            pattern ∈ patterns
            ∧ discoverGlob env (path_join dir pattern) = Some matches
            ∧ t ∈ matches
  | inl _ =>
      ∃ pattern,
        pattern ∈ patterns ∧ discoverGlob env (path_join dir pattern) = None
  end.
Proof.
  induction patterns as [|p patterns IH]; simpl.
  - split; [by intros ? ?%elem_of_nil|].
    intros t. split; [by intros ?%elem_of_nil|].
    by intros (? & ? & ?%elem_of_nil & _).
  - destruct (discoverGlob env (path_join dir p)) as [files|] eqn:Hp; simpl.
    + destruct (discoverAll env dir patterns) as [msg|more]; simpl.
      * destruct IH as (pattern & Hin & Hnone). exists pattern.
        split; [by right|done].
      * destruct IH as [Hsome IH]. split.
        { intros pattern [->|Hin]%elem_of_cons; [by rewrite Hp|].
          by apply Hsome. }
        intros t. rewrite elem_of_app, IH. split.
        -- intros [Ht|(pattern & matches & Hin & Hglob & Ht)].
           ++ exists p, files. split; [left|done].
           ++ exists pattern, matches. split; [by right|done].
        -- intros (pattern & matches & Hin & Hglob & Ht).
           apply elem_of_cons in Hin as [->|Hin].
           ++ left. congruence.
           ++ right. by exists pattern, matches.
    + exists p. split; [left|done].
Qed.

End DiscoveryFacts.

(** The directory is [tests] when none, or an empty one, is configured, and
    a pattern is joined to it as [path.join] does. *)
Example discovery_patterns :
  path_join (string_or (Some "") "tests") "*.spec.js" = "tests/*.spec.js"
  ∧ path_join (string_or None "tests") "**/*.spec.ts" = "tests/**/*.spec.ts"
  ∧ path_join "tests/" "*.spec.js" = "tests/*.spec.js"
  ∧ path_join "./e2e//" "../unit/./*.js" = "unit/*.js"
  ∧ path_join "/srv/tests" "../../../x/" = "/x/"
  ∧ path_join ".." "../a" = "../../a"
  ∧ path_join "tests" "" = "tests".
Proof. by vm_compute. Qed.

(** X18: [discoverTests] asks the glob for every pattern joined, as
    [path.join] does, to the test directory, which is [tests] when none or
    an empty one is configured; it returns the files some pattern matches,
    each once, in the order of [sort()]; it fails, with a message that
    starts with ["Test discovery failed: "], exactly when the glob of one
    of the patterns fails. *)
Theorem discoverTests_sorted_unique
    (env : Collaborators) (config : PlaywrightConfig) :
  let dir := string_or (testDir config) "tests" in
  let patterns :=
    default ["**/*.spec.js"; "**/*.spec.ts"] (testPatterns config) in
  match discoverTests env config with
  | inr tests =>
      (∀ pattern, pattern ∈ patterns →
         is_Some (discoverGlob env (path_join dir pattern)))
      ∧ StronglySorted (λ a b, String.leb a b = true) tests
      ∧ NoDup tests
      ∧ ∀ t, t ∈ tests ↔
          ∃ pattern matches,
            pattern ∈ patterns
            ∧ discoverGlob env (path_join dir pattern) = Some matches
            ∧ t ∈ matches
  | inl message =>
      String.prefix "Test discovery failed: " message = true
      ∧ ∃ pattern,
          pattern ∈ patterns
          ∧ discoverGlob env (path_join dir pattern) = None
  end.
Proof.
  intros dir patterns. unfold discoverTests. fold dir patterns.
  pose proof (discoverAll_spec env dir patterns) as Hall.
  destruct (discoverAll env dir patterns) as [msg|files].
  - split; [apply prefix_append|done].
  - simpl. destruct Hall as [Hsome Hall]. split; [exact Hsome|].
    split; [|split].
    + apply Array_sort_sorted; [done| |].
      * intros a b Hab. by destruct (String.leb_total a b) as [Hle|Hle];
          [rewrite Hle in Hab|].
      * intros a b c. apply String_leb_trans.
    + rewrite Array_sort_perm. apply NoDup_Set_from.
    + intros t. by rewrite Array_sort_perm, elem_of_Set_from, Hall.
Qed.

(** ** [engine.js]: the analysis as a whole *)

(** The collaborators with another AI provider. *)
Definition withProvider (env : Collaborators)
    (provider : string → Exc string * list LogEntry) : Collaborators :=
  {| glob := glob env;
     minimatch := minimatch env;
     readFile := readFile env;
     annotationMatches := annotationMatches env;
     regexTest := regexTest env;
     gitShow := gitShow env;
     parse := parse env;
     discoverGlob := discoverGlob env;
     analyzeImpact := provider |}.


Lemma selectTests_attribution env allTestFiles impactedFeatures result :
  selectTests env allTestFiles impactedFeatures = inr result →
  ∀ t, t ∈ selectedTests result →
    ∃ f, f ∈ impactedFeatures
         ∧ feature t = featureName f
         ∧ test_confidence t = confidence f
         ∧ strategy t = strategyUsed f.
Proof.
  unfold selectTests.
  destruct (selectLoop env allTestFiles impactedFeatures [] [])
    as [msg|[selected reasons]] eqn:Hloop; [done|].
  intros [= <-] t Ht. simpl in Ht.
  apply (selectLoop_invariant env allTestFiles _ []) in Hloop
    as (_ & Hclaimed & _).
  2: { split; [constructor|]. split; [constructor|].
       by intros f tests p ?%elem_of_nil. }
  rewrite Forall_forall in Hclaimed.
  destruct (Hclaimed t Ht)
    as (earlier & f & later & tests & Hranked & _ & _ & _ & Hattr).
  simpl in Hranked. exists f. split; [|done]. rewrite Hranked. set_solver.
Qed.

Lemma analyze_inv env config options diff result :
  (analyze env config options diff).1 = inr result →
  (mapChangesToFeatures env config (Some diff)).1
  = inr (featureMapping result)
  ∧ diffAnalysis result = diff
  ∧ result_summary result
    = {| filesChanged := length (changes diff);
         featuresDetected := length (featureMapping result);
         summary_testsSelected :=
           length (selectedTests (selection (testSelection result)));
         summary_framework := requestedFramework options;
         summary_reductionPercentage :=
           reductionPercentage (summary (selection (testSelection result)));
         estimatedTimeSaved :=
           calculateTimeSaved
             (summary (selection (testSelection result))) |}
  ∧ framework (testSelection result) = requestedFramework options
  ∧ (featureMapping result = [] ∧
     selection (testSelection result)
     = {| selectedTests := []; selectionReasons := [];
          summary := {| totalAvailable := 0; totalSelected := 0;
                        reductionPercentage := 0%float |} |}
     ∨ featureMapping result ≠ [] ∧
       ∃ integration allTests,
         getIntegration config (requestedFramework options)
         = Some integration
         ∧ discoverTests env integration = inr allTests
         ∧ selectTests env allTests (featureMapping result)
           = inr (selection (testSelection result))).
Proof.
  unfold analyze.
  destruct (mapChangesToFeatures env config (Some diff))
    as [[msg|features] log]; simpl; [done|].
  destruct (aiStep env options diff features) as [ai aiLog].
  unfold selectionStep.
  destruct features as [|f features]; simpl.
  - intros [= <-]. simpl. repeat (split; [done|]). by left.
  - unfold orchestratorSelectTests at 1 2.
    destruct (getIntegration config (requestedFramework options))
      as [integration|]; simpl; [|done].
    destruct (discoverTests env integration) as [?|allTests] eqn:Hall;
      simpl; [done|].
    destruct (selectTests env allTests (f :: features))
      as [?|selected] eqn:Hsel; simpl; [done|].
    intros [= <-]. simpl. repeat (split; [done|]). right.
    split; [done|]. by exists integration, allTests.
Qed.

(** X19: in a result of [analyze] the summary agrees with the parts: the
    counts are those of the mapping and of the selection, no more tests are
    selected than are available, so the estimated time saved, five seconds
    for each test left out, is never negative, and every selected test is
    attributed to a feature of the mapping, with its confidence. *)
Theorem analysis_summary_consistent
    (env : Collaborators) (config : TEOConfig) (options : AnalyzeOptions)
    (diff : DiffAnalysisResult) (result : AnalysisResult) :
  (analyze env config options diff).1 = inr result →
  let chosen := selection (testSelection result) in
  let report := result_summary result in
  filesChanged report = length (changes diff)
  ∧ featuresDetected report = length (featureMapping result)
  ∧ summary_testsSelected report = totalSelected (summary chosen)
  ∧ (totalSelected (summary chosen) ≤ totalAvailable (summary chosen))%nat
  ∧ (estimatedTimeSaved report
     = 5000 * Z.of_nat (totalAvailable (summary chosen)
                        - summary_testsSelected report))%Z
  ∧ (0 ≤ estimatedTimeSaved report)%Z
  ∧ ∀ t, t ∈ selectedTests chosen →
      ∃ f, f ∈ featureMapping result
           ∧ feature t = featureName f
           ∧ test_confidence t = confidence f.
Proof.
  intros (_ & _ & Hreport & _ & Hsel)%analyze_inv chosen report.
  subst report. rewrite Hreport. simpl. fold chosen.
  assert (length (selectedTests chosen) = totalSelected (summary chosen)
          ∧ (totalSelected (summary chosen)
             ≤ totalAvailable (summary chosen))%nat
          ∧ ∀ t, t ∈ selectedTests chosen →
              ∃ f, f ∈ featureMapping result
                   ∧ feature t = featureName f
                   ∧ test_confidence t = confidence f) as (Hlen & Hle & Hattr).
  { destruct Hsel as [[_ Hnone]|(_ & integration & allTests & _ & _ & Hsel)].
    - subst chosen. rewrite Hnone. simpl. split; [done|]. split; [done|].
      by intros t ?%elem_of_nil.
    - fold chosen in Hsel.
      pose proof (selectTests_within _ _ _ _ Hsel)
        as (Hnd & Hin & Havailable & Hselected).
      split; [done|]. split.
      + rewrite Havailable, Hselected, <- (length_fmap path).
        apply NoDup_subset_length; [done|]. intros p Hp. by apply Hin.
      + intros t Ht.
        destruct (selectTests_attribution _ _ _ _ Hsel t Ht)
          as (f & Hf & Hname & Hconf & _).
        by exists f. }
  split; [done|]. split; [done|]. split; [done|]. split; [done|].
  unfold calculateTimeSaved. rewrite Hlen. split; [lia|]. split; [lia|done].
Qed.

(** Scenario A: one of the two available tests is selected. *)
Lemma analysis_summary_scenario_A :
  ∃ result,
    (analyze scenarioEnv scenarioA_config defaultOptions scenarioA_diff).1
    = inr result
    ∧ estimatedTimeSaved (result_summary result) = 5000%Z
    ∧ (totalSelected (summary (selection (testSelection result)))
       ≤ totalAvailable (summary (selection (testSelection result))))%nat.
Proof.
  eexists. split; [vm_compute; reflexivity|]. split; [reflexivity|].
  match goal with
  | |- (totalSelected (summary (selection (testSelection ?r))) ≤ _)%nat =>
      apply (analysis_summary_consistent scenarioEnv scenarioA_config
               defaultOptions scenarioA_diff r)
  end.
  vm_compute. reflexivity.
Defined.

(** The options of scenario A with a framework that is not registered. *)
Definition jestOptions : AnalyzeOptions :=
  {| useAI := None; option_framework := Some "jest" |}.

(** X20: the framework is looked up only when a feature was detected.  With
    a framework that has no integration, [analyze] fails with
    ["Unsupported framework: <name>"] exactly when the mapping is not
    empty; with an empty mapping it returns an empty selection under that
    name. *)
Theorem analysis_unsupported_framework
    (env : Collaborators) (config : TEOConfig) (options : AnalyzeOptions)
    (diff : DiffAnalysisResult) :
  getIntegration config (requestedFramework options) = None →
  match (analyze env config options diff).1 with
  | inl message =>
      message = "Unsupported framework: " +:+ requestedFramework options
      ∧ ∃ f features,
          (mapChangesToFeatures env config (Some diff)).1
          = inr (f :: features)
  | inr result =>
      (mapChangesToFeatures env config (Some diff)).1 = inr []
      ∧ featureMapping result = []
      ∧ selectedTests (selection (testSelection result)) = []
      ∧ framework (testSelection result) = requestedFramework options
      ∧ summary_framework (result_summary result)
        = requestedFramework options
  end.
Proof.
  intros Hnone. unfold analyze.
  pose proof (mapChangesWith_returns
                (initializeStrategies env config)
                (default [] (features config)) diff) as Hreturns.
  fold (mapChangesToFeatures env config (Some diff)) in Hreturns.
  destruct (mapChangesToFeatures env config (Some diff))
    as [[msg|features] log]; simpl in *; [done|].
  destruct (aiStep env options diff features) as [ai aiLog].
  unfold selectionStep.
  destruct features as [|f features]; simpl; [done|].
  unfold orchestratorSelectTests at 1 2. rewrite Hnone. simpl.
  split; [done|]. by exists f, features.
Qed.

(** Scenario A with the framework [jest]: a feature is detected, the
    analysis fails. *)
Lemma analysis_unsupported_framework_jest :
  getIntegration scenarioA_config (requestedFramework jestOptions) = None
  ∧ (analyze scenarioEnv scenarioA_config jestOptions scenarioA_diff).1
    = inl "Unsupported framework: jest".
Proof.
  split; [reflexivity|].
  pose proof (analysis_unsupported_framework scenarioEnv scenarioA_config
                jestOptions scenarioA_diff eq_refl) as H.
  destruct (analyze scenarioEnv scenarioA_config jestOptions
              scenarioA_diff).1 as [message|result] eqn:Hrun.
  - destruct H as [-> _]. reflexivity.
  - exfalso. destruct H as [H _]. vm_compute in H. discriminate H.
Defined.


(** ** [engine.js]: the AI enhancement *)

Lemma Math_min_spec (a b : Q) :
  (Math_min a b <= a ∧ Math_min a b <= b
   ∧ (a <= b → Math_min a b == a)
   ∧ (b <= a → Math_min a b == b))%Q.
Proof.
  unfold Math_min. destruct (Qle_bool a b) eqn:Hab.
  - apply Qle_bool_iff in Hab.
    split; [apply Qle_refl|]. split; [done|]. split; [done|].
    intros Hba. by apply Qle_antisym.
  - assert (b < a)%Q as Hlt.
    { apply Qnot_le_lt. intros Hle%Qle_bool_iff. congruence. }
    split; [by apply Qlt_le_weak|]. split; [apply Qle_refl|].
    split; [|done]. intros Hle. by apply Qle_antisym; [apply Qlt_le_weak|].
Qed.

(** X22: [enhanceFeatures] keeps the features, in order, and copies the
    confidence of the answer to each.  For an answer without a numeric
    confidence every enhanced confidence is [NaN]; for a confidence [c] it
    is the confidence of the feature plus [0.2 * c], capped at 1 and
    without a lower bound: a negative [c] lowers the value, a
    non-negative one never does for a confidence of at most 1.  The answer
    of a provider is the text of its response, so [enhanceWithAI] reports
    the confidence 0.8, no reasoning, and [NaN] for every feature. *)
Theorem enhanceFeatures_bounds
    (features : list ImpactedFeature) (aiResult : AIResult) :
  enhanced_feature <$> enhanceFeatures features aiResult = features
  ∧ Forall
      (λ enhanced : EnhancedFeature,
         aiConfidence enhanced = result_confidence aiResult
         ∧ aiReasoning enhanced = result_reasoning aiResult
         ∧ match result_confidence aiResult with
           | None => enhancedConfidence enhanced = None
           | Some answered =>
               ∃ value,
                 enhancedConfidence enhanced = Some value
                 ∧ let own := confidence (enhanced_feature enhanced) in
                   let raised := (own + answered * (2 # 10))%Q in
                   (value <= 1)%Q
                   ∧ (value <= raised)%Q
                   ∧ ((raised <= 1)%Q → (value == raised)%Q)
                   ∧ ((0 <= answered)%Q → (own <= 1)%Q → (own <= value)%Q)
                   ∧ ((answered <= 0)%Q → (value <= own)%Q)
           end)
      (enhanceFeatures features aiResult)
  ∧ ∀ (env : Collaborators) (diff : DiffAnalysisResult)
      (analysis : AIAnalysis),
      (enhanceWithAI env diff features).1 = inr analysis →
      ai_confidence analysis = (8 # 10)%Q
      ∧ ai_reasoning analysis = None
      ∧ enhanced_feature <$> enhancedFeatures analysis = features
      ∧ Forall (λ enhanced, enhancedConfidence enhanced = None)
               (enhancedFeatures analysis).
Proof.
  assert (∀ result,
            enhanced_feature <$> enhanceFeatures features result = features)
    as Hkeeps.
  { intros result. unfold enhanceFeatures. rewrite <- list_fmap_compose.
    by rewrite <- (list_fmap_id features) at 2. }
  split; [apply Hkeeps|]. split.
  - unfold enhanceFeatures. apply Forall_fmap, Forall_forall.
    intros f _. simpl. split; [done|]. split; [done|].
    destruct (result_confidence aiResult) as [answered|]; [|done].
    simpl. eexists. split; [reflexivity|].
    set (raised := (confidence f + answered * (2 # 10))%Q).
    destruct (Math_min_spec raised 1) as (Hraised & Hone & Hbelow & Habove).
    split; [done|]. split; [done|]. split; [done|]. split.
    + intros Hai Hconf.
      assert (confidence f <= raised)%Q as Hle.
      { subst raised. rewrite <- (Qplus_0_r (confidence f)) at 1.
        apply Qplus_le_r. by apply Qmult_le_0_compat. }
      destruct (Qlt_le_dec 1 raised) as [Hgt|Hle'].
      * rewrite (Habove (Qlt_le_weak _ _ Hgt)). done.
      * by rewrite (Hbelow Hle').
    + intros Hai. eapply Qle_trans; [exact Hraised|].
      subst raised. rewrite <- (Qplus_0_r (confidence f)) at 2.
      apply Qplus_le_r.
      apply (Qle_trans _ (0 * (2 # 10))%Q); [|done].
      by apply Qmult_le_compat_r.
  - intros env diff analysis. unfold enhanceWithAI.
    destruct (analyzeImpact env (buildAIPrompt diff features))
      as [[message|content] entries]; simpl; [done|].
    intros [= <-]. simpl. split; [done|]. split; [done|].
    split; [apply Hkeeps|].
    unfold enhanceFeatures. by apply Forall_fmap, Forall_forall.
Qed.

(** A provider that answers: the analysis holds [NaN] for the feature. *)
Example enhanceWithAI_text_answer :
  let env :=
    withProvider scenarioEnv (λ _, (inr "{ impact_level: high }", [])) in
  ∃ analysis,
    (enhanceWithAI env scenarioA_diff [checkoutFeature]).1 = inr analysis
    ∧ ai_confidence analysis = (8 # 10)%Q
    ∧ enhancedConfidence <$> enhancedFeatures analysis = [None].
Proof. eexists. split; [reflexivity|]. by split. Qed.

(** ** The base AI provider ([BaseAIProvider]) *)

Module ImpactLevel.
Definition CRITICAL : string := "critical".
Definition HIGH : string := "high".
Definition MEDIUM : string := "medium".
Definition LOW : string := "low".
Definition NONE : string := "none".
(** [Object.values(ImpactLevel)]. *)
Definition values : list string := [CRITICAL; HIGH; MEDIUM; LOW; NONE].
End ImpactLevel.

(** [normalizeImpactLevel]: [level] is a string or [undefined]. *)
Definition normalizeImpactLevel (level : option string) : string :=
  match level with
  | Some level =>
      if truthy level
      then let normalized := toLowerCase level in
           if mem normalized ImpactLevel.values then normalized
           else ImpactLevel.MEDIUM
      else ImpactLevel.MEDIUM
  | None => ImpactLevel.MEDIUM
  end.

(** [normalizeConfidence]: [confidence] is a finite number, or a value of
    another type ([None]). *)
Definition normalizeConfidence (confidence : option Q) : Q :=
  match confidence with
  | None => 5 # 10
  | Some confidence =>
      if negb (Qle_bool confidence 1) then (confidence / 100)%Q
      else if negb (Qle_bool 0 confidence) then 0%Q
      else confidence
  end.

Definition noRetryPatterns : list string :=
  [ "invalid_api_key"; "insufficient_quota"; "model_not_found";
    "invalid_request"; "authentication"; "authorization" ].

(** [shouldNotRetry], on the message of the error. *)
Definition shouldNotRetry (message : string) : bool :=
  let errorMessage := toLowerCase message in
  existsb (fun pattern => includes errorMessage pattern) noRetryPatterns.

(** What [withRetry] does besides computing its result. *)
Inductive RetryEffect :=
  | Logged (entry : LogEntry)
  | Called (attempt : nat)
  | Slept (ms : Z).

(** A number of JavaScript. *)
Inductive JsNumber :=
  | Num (q : Q)
  | PosInfinity
  | NegInfinity
  | NaN.

(** [this.maxRetries = config.max_retries || 3]: a missing value, [0] and
    [NaN] give 3. *)
Definition maxRetriesOf (max_retries : option JsNumber) : JsNumber :=
  match max_retries with
  | Some (Num q) => if Qeq_bool q 0 then Num 3 else Num q
  | Some PosInfinity => PosInfinity
  | Some NegInfinity => NegInfinity
  | Some NaN => Num 3
  | None => Num 3
  end.

(** [attempt <= limit] and [attempt < limit]. *)
Definition attempt_le (attempt : nat) (limit : JsNumber) : bool :=
  match limit with
  | Num q => Qle_bool (inject_Z (Z.of_nat attempt)) q
  | PosInfinity => true
  | NegInfinity => false
  | NaN => false
  end.

Definition attempt_lt (attempt : nat) (limit : JsNumber) : bool :=
  match limit with
  | Num q => negb (Qle_bool q (inject_Z (Z.of_nat attempt)))
  | PosInfinity => true
  | NegInfinity => false
  | NaN => false
  end.

Section WithRetry.
Context {A : Type}.
Variable maxRetries : JsNumber.
(** [this.shouldNotRetry], which a provider may override. *)
Variable stops : string → bool.
(** The outcome of the n-th call of [operation()], raced against the
    timeout: a result or the message of the error. *)
Variable operation : nat → Exc A.

(** [Math.min(1000 * Math.pow(2, attempt - 1), 10000)]. *)
Definition backoff (attempt : nat) : Z :=
  Z.min (1000 * 2 ^ (Z.of_nat attempt - 1)) 10000.

(** After the loop: the last error is logged and thrown again; without
    one, reading its message throws before anything is logged. *)
Definition failAfterRetries (lastError : option string)
    (trace : list RetryEffect) : Exc A * list RetryEffect :=
  match lastError with
  | Some message =>
      (throw message,
       trace ++ [Logged (mkLog LError "AI API failed after retries" ""
                           message)])
  | None =>
      (throw "Cannot read properties of undefined (reading 'message')",
       trace)
  end.

(** The loop of [withRetry] from [attempt] on; every round uses one unit
    of [fuel], and [None] stands for a loop that has not ended when the
    fuel is used up. *)
Fixpoint retryLoop (fuel attempt : nat) (lastError : option string)
    (trace : list RetryEffect) : option (Exc A * list RetryEffect) :=
  match fuel with
  | O => None
  | S fuel =>
      if attempt_le attempt maxRetries
      then
        let trace :=
          trace ++ [Logged (mkLog LDebug "AI API attempt"
                              (Z_to_string (Z.of_nat attempt)) "");
                    Called attempt] in
        match operation attempt with
        | inr result =>
            Some (ret result,
                  trace ++ [Logged (mkLog LDebug "AI API success"
                                      (Z_to_string (Z.of_nat attempt)) "")])
        | inl message =>
            let trace :=
              trace ++ [Logged (mkLog LWarn "AI API attempt failed"
                                  (Z_to_string (Z.of_nat attempt))
                                  message)] in
            if stops message
            then Some (failAfterRetries (Some message) trace)
            else retryLoop fuel (S attempt) (Some message)
                   (if attempt_lt attempt maxRetries
                    then trace ++ [Slept (backoff attempt)]
                    else trace)
        end
      else Some (failAfterRetries lastError trace)
  end.

Definition withRetry (fuel : nat) : option (Exc A * list RetryEffect) :=
  retryLoop fuel 1 None [].

End WithRetry.

Definition sleepsOf (trace : list RetryEffect) : list Z :=
  omap (fun effect => match effect with Slept ms => Some ms | _ => None end)
       trace.

Definition callsOf (trace : list RetryEffect) : list nat :=
  omap (fun effect =>
          match effect with Called attempt => Some attempt | _ => None end)
       trace.

Section WithRetryFacts.
Context {A : Type}.
Variable maxRetries : JsNumber.
Variable stops : string → bool.
Variable operation : nat → Exc A.













End WithRetryFacts.




(** Two rate-limited attempts, then an answer: two sleeps, three calls. *)
Example withRetry_third_attempt :
  let operation (attempt : nat) : Exc string :=
    if Nat.ltb attempt 3 then inl "429 rate limit" else inr "answer" in
  ∃ run,
    withRetry (maxRetriesOf None) shouldNotRetry operation 3 = Some run
    ∧ run.1 = inr "answer"
    ∧ callsOf run.2 = [1; 2; 3]%nat
    ∧ sleepsOf run.2 = [1000; 2000]%Z.
Proof. eexists. split; [by vm_compute|]. by vm_compute. Qed.

(** A rejected key ends the loop at once, whatever the case of the
    message. *)
Example withRetry_rejected_key :
  let operation (attempt : nat) : Exc string :=
    inl "Invalid_API_Key supplied" in
  ∃ run,
    withRetry (maxRetriesOf (Some (Num 5))) shouldNotRetry operation 1
    = Some run
    ∧ run.1 = inl "Invalid_API_Key supplied"
    ∧ callsOf run.2 = [1%nat]
    ∧ sleepsOf run.2 = [].
Proof. eexists. split; [by vm_compute|]. by vm_compute. Qed.

(** A limit below 1: no call is made and reading the message of the
    missing error throws. *)
Example withRetry_no_attempt :
  let operation (attempt : nat) : Exc string := inr "answer" in
  withRetry (maxRetriesOf (Some (Num (1 # 2)))) shouldNotRetry operation 1
  = Some (inl "Cannot read properties of undefined (reading 'message')", []).
Proof. by vm_compute. Qed.

(** X24: [normalizeConfidence] answers 0.5 for a value that is not a
    number, keeps a number between 0 and 1, raises a negative one to 0 and
    divides one above 1 by 100; the result lies between 0 and 1 exactly for
    the numbers up to 100. *)
Theorem normalizeConfidence_range (confidence : Q) :
  normalizeConfidence None = (5 # 10)%Q
  ∧ ((0 <= confidence <= 1)%Q →
     normalizeConfidence (Some confidence) = confidence)
  ∧ ((confidence < 0)%Q → normalizeConfidence (Some confidence) = 0%Q)
  ∧ ((1 < confidence)%Q →
     normalizeConfidence (Some confidence) = (confidence / 100)%Q)
  ∧ (in_unit_interval (normalizeConfidence (Some confidence)) = true
     ↔ (confidence <= 100)%Q).
Proof.
  split; [done|]. unfold normalizeConfidence.
  destruct (Qle_bool confidence 1) eqn:Hone; simpl.
  - apply Qle_bool_iff in Hone.
    destruct (Qle_bool 0 confidence) eqn:Hzero; simpl.
    + apply Qle_bool_iff in Hzero.
      split; [done|]. split.
      { intros Hneg. by apply Qlt_not_le in Hneg. }
      split.
      { intros Hgt. by apply Qlt_not_le in Hgt. }
      rewrite in_unit_interval_spec. unfold in_unit. split; [|done].
      intros _. by apply (Qle_trans _ 1).
    + assert (confidence < 0)%Q as Hneg.
      { apply Qnot_le_lt. intros Hle%Qle_bool_iff. congruence. }
      split.
      { intros [Hle _]. by apply Qlt_not_le in Hneg. }
      split; [done|]. split.
      { intros Hgt. by apply Qlt_not_le in Hgt. }
      split; [|done]. intros _. by apply (Qle_trans _ 1).
  - assert (1 < confidence)%Q as Hgt.
    { apply Qnot_le_lt. intros Hle%Qle_bool_iff. congruence. }
    split.
    { intros [_ Hle]. by apply Qlt_not_le in Hgt. }
    split.
    { intros Hneg. exfalso. apply (Qlt_irrefl 0).
      apply (Qlt_trans _ 1); [done|]. by apply (Qlt_trans _ confidence). }
    split; [done|].
    rewrite in_unit_interval_spec. unfold in_unit.
    revert Hgt. destruct confidence as [n d].
    unfold Qlt, Qle, Qdiv, Qmult, Qinv. simpl.
    rewrite !Pos2Z.inj_mul. lia.
Qed.

(** X25: [normalizeImpactLevel] always answers one of the five impact
    levels; it leaves such a level unchanged, ignores the case of its
    argument, and answers [medium] for everything else. *)
Theorem normalizeImpactLevel_valid (level : option string) :
  normalizeImpactLevel level ∈ ImpactLevel.values
  ∧ (∀ valid, valid ∈ ImpactLevel.values →
       normalizeImpactLevel (Some valid) = valid)
  ∧ (∀ s, normalizeImpactLevel (Some (toLowerCase s))
          = normalizeImpactLevel (Some s))
  ∧ (∀ s, toLowerCase s ∉ ImpactLevel.values →
       normalizeImpactLevel (Some s) = ImpactLevel.MEDIUM).
Proof.
  assert (ImpactLevel.MEDIUM ∈ ImpactLevel.values) as Hmedium.
  { unfold ImpactLevel.values. set_solver. }
  split; [|split; [|split]].
  - unfold normalizeImpactLevel. destruct level as [s|]; [|done].
    destruct (truthy s); [|done]. unfold mem. by case_bool_decide.
  - intros valid Hvalid. unfold ImpactLevel.values in Hvalid.
    repeat (apply elem_of_cons in Hvalid as [->|Hvalid]; [done|]).
    by apply elem_of_nil in Hvalid.
  - intros s. unfold normalizeImpactLevel.
    rewrite (toLowerCase_lower_case s). by destruct s.
  - intros s Hs. unfold normalizeImpactLevel, mem.
    destruct (truthy s); [|done]. by case_bool_decide.
Qed.

(** ** [playwright-integration.js] and [test-orchestrator.js]: the output *)

Section GenerateOutput.
(** [generateScript], [JSON.stringify] and [generateTable], which depend on
    the clock and on the serialisation of the run-time. *)
Variable generateScript : list SelectedTest → SelectionSummary → string.
Variable stringify : SelectionResult → string.
Variable generateTable : list SelectedTest → SelectionSummary → string.

(** [PlaywrightIntegration.generateOutput]: the value returned and the
    lines written by [console.log]. *)
Definition generateOutput (selectionResult : SelectionResult)
    (format : string) : Exc string * list string :=
  let paths := join " " (path <$> selectedTests selectionResult) in
  if String.eqb format "paths" then
    (ret paths,
     if truthy paths
     then ["export TEO_TEST_PATHS=" +:+ String "034"%char paths
           +:+ String "034"%char ""]
     else [])
  else if String.eqb format "script" then
    (ret (generateScript (selectedTests selectionResult)
            (summary selectionResult)), [])
  else if String.eqb format "json" then (ret (stringify selectionResult), [])
  else if String.eqb format "playwright-args" then (ret paths, [])
  else if String.eqb format "table" then
    (ret (generateTable (selectedTests selectionResult)
            (summary selectionResult)), [])
  else (throw ("Unsupported output format: " +:+ format), []).

(** [TestOrchestrator.generateOutput]. *)
Definition orchestratorGenerateOutput (config : TEOConfig)
    (selected : TestSelection) (format : string)
    : Exc string * list string :=
  match getIntegration config (framework selected) with
  | None =>
      (throw ("No integration found for framework: "
              +:+ framework selected), [])
  | Some _ => generateOutput (selection selected) format
  end.

End GenerateOutput.

Lemma split_no_separator sep s :
  includes s (String sep "") = false → split sep s = [s].
Proof.
  induction s as [|c s IH]; [done|].
  rewrite includes_char. intros [Hc Hs]%orb_false_elim.
  simpl. rewrite Ascii.eqb_sym, Hc. by rewrite (IH Hs).
Qed.

Lemma split_append sep s r :
  includes s (String sep "") = false →
  split sep (s +:+ String sep r) = s :: split sep r.
Proof.
  induction s as [|c s IH].
  - intros _. simpl. by rewrite Ascii.eqb_refl.
  - rewrite includes_char. intros [Hc Hs]%orb_false_elim.
    simpl. rewrite Ascii.eqb_sym, Hc. by rewrite (IH Hs).
Qed.

Lemma split_join sep (l : list string) :
  l ≠ [] →
  Forall (λ s, includes s (String sep "") = false) l →
  split sep (join (String sep "") l) = l.
Proof.
  intros Hne Hl. induction Hl as [|x l Hx Hl IH]; [done|].
  destruct l as [|y l].
  - by apply split_no_separator.
  - change (join (String sep "") (x :: y :: l))
      with (x +:+ String sep (join (String sep "") (y :: l))).
    rewrite (split_append _ _ _ Hx). f_equal. by apply IH.
Qed.

(** X26: the formats [paths] and [playwright-args] give the selected paths
    joined by blanks.  When a test is selected and no selected path
    contains a blank, splitting the output at the blanks gives the selected
    paths back, in order. *)
Theorem generateOutput_paths_round_trip
    (generateScript generateTable :
       list SelectedTest → SelectionSummary → string)
    (stringify : SelectionResult → string)
    (selectionResult : SelectionResult) (format output : string) :
  format = "paths" ∨ format = "playwright-args" →
  selectedTests selectionResult ≠ [] →
  Forall (λ t, includes (path t) " " = false)
         (selectedTests selectionResult) →
  (generateOutput generateScript stringify generateTable
     selectionResult format).1 = inr output →
  split " " output = path <$> selectedTests selectionResult.
Proof.
  intros Hformat Hne Hblank.
  assert ((generateOutput generateScript stringify generateTable
             selectionResult format).1
          = inr (join " " (path <$> selectedTests selectionResult))) as ->.
  { by destruct Hformat as [-> | ->]. }
  intros [= <-]. apply split_join.
  - by destruct (selectedTests selectionResult).
  - by apply Forall_fmap.
Qed.

(** Scenario D: the two selected paths come back from the output. *)
Lemma generateOutput_scenario_D :
  ∃ result,
    selectTests scenarioEnv scenarioD_tests [checkoutFeature; cartFeature]
    = inr result
    ∧ (generateOutput (λ _ _, "") (λ _, "") (λ _ _, "") result "paths").1
      = inr "tests/shared.spec.js tests/cart.spec.js"
    ∧ split " " "tests/shared.spec.js tests/cart.spec.js"
      = path <$> selectedTests result.
Proof.
  eexists. split; [vm_compute; reflexivity|]. split; [reflexivity|].
  match goal with
  | |- _ = path <$> selectedTests ?r =>
      apply (generateOutput_paths_round_trip
               (λ _ _, "") (λ _ _, "") (λ _, "") r "paths")
  end.
  - by left.
  - done.
  - repeat constructor.
  - reflexivity.
Defined.

(** ** [config.js]: environment variables *)

(** The text before the first occurrence of [sep], and the text after it
    when there is one. *)
Fixpoint cutAt (sep s : string) : string * option string :=
  match dropPrefix sep s with
  | Some rest => ("", Some rest)
  | None =>
      match s with
      | EmptyString => ("", None)
      | String c r => let cut := cutAt sep r in (String c cut.1, cut.2)
      end
  end.

Section SubstituteEnvVars.
(** [process.env]. *)
Variable processEnv : string → option string.

(** The callback of the replacement: [varExpr] is the text between the
    braces, [varName] and [defaultValue] are the first two elements of
    [varExpr.split(':-')]. *)
Definition resolve (varExpr : string) : string :=
  let parts := cutAt ":-" varExpr in
  let varName := parts.1 in
  let defaultValue := (fun rest => (cutAt ":-" rest).1) <$> parts.2 in
  let matched := "${" +:+ varExpr +:+ "}" in
  match processEnv varName with
  | Some value =>
      if truthy value then value
      else match defaultValue with
           | Some value => if truthy value then value else matched
           | None => matched
           end
  | None =>
      match defaultValue with
      | Some value => if truthy value then value else matched
      | None => matched
      end
  end.

(** A match of [/\$\{([^}]+)\}/] at the start of [s]: its group. *)
Definition placeholder (s : string) : option string :=
  match dropPrefix "${" s with
  | Some rest =>
      match dropUntil "}" rest with
      | Some _ =>
          let varExpr := takeUntil "}" rest in
          if truthy varExpr then Some varExpr else None
      | None => None
      end
  | None => None
  end.

(** [s.replace(/\$\{([^}]+)\}/g, callback)]; [skip] characters belong to
    the match just replaced. *)
Fixpoint substitute_go (skip : nat) (s : string) : string :=
  match s with
  | EmptyString => EmptyString
  | String c r =>
      match skip with
      | S k => substitute_go k r
      | O =>
          match placeholder s with
          | Some varExpr =>
              resolve varExpr
              +:+ substitute_go (String.length varExpr + 2) r
          | None => String c (substitute_go 0 r)
          end
      end
  end.

Definition substituteString (s : string) : string := substitute_go 0 s.

End SubstituteEnvVars.

Section SubstituteFacts.
Variable processEnv : string → option string.

Lemma dropPrefix_not_prefix pre s :
  String.prefix pre s = false → dropPrefix pre s = None.
Proof.
  revert s. induction pre as [|a pre IH]; intros [|b s]; simpl; try done.
  destruct (Ascii.ascii_dec a b) as [->|Hne].
  - rewrite Ascii.eqb_refl. apply IH.
  - intros _. by apply Ascii.eqb_neq in Hne as ->.
Qed.

Lemma includes_cons_false c r sub :
  includes (String c r) sub = false →
  String.prefix sub (String c r) = false ∧ includes r sub = false.
Proof. cbn [includes]. by destruct (String.prefix sub (String c r)). Qed.

(** No match starts in [a], nor on its last character, when [a] has no
    occurrence of the two characters and [b] does not start with the
    second. *)
Lemma dropPrefix_two_boundary x y c a b :
  x ≠ y →
  String.prefix (String x (String y "")) (String c a) = false →
  dropPrefix (String x (String y "")) (String c (a +:+ String x b)) = None.
Proof.
  intros Hxy. simpl.
  destruct (Ascii.ascii_dec x c) as [<-|Hne].
  - rewrite Ascii.eqb_refl. destruct a as [|d a]; simpl.
    + intros _. apply Ascii.eqb_neq in Hxy.
      by rewrite Ascii.eqb_sym, Hxy.
    + destruct (Ascii.ascii_dec y d) as [<-|Hne]; [by destruct a|].
      intros _. by apply Ascii.eqb_neq in Hne as ->.
  - intros _. by apply Ascii.eqb_neq in Hne as ->.
Qed.

Lemma takeUntil_append stop s r :
  includes s (String stop "") = false →
  takeUntil stop (s +:+ String stop r) = s
  ∧ dropUntil stop (s +:+ String stop r) = Some r.
Proof.
  induction s as [|c s IH].
  - intros _. simpl. by rewrite Ascii.eqb_refl.
  - rewrite includes_char. intros [Hc Hs]%orb_false_elim.
    simpl. rewrite Ascii.eqb_sym, Hc. destruct (IH Hs) as [-> ->]. done.
Qed.

Lemma substitute_skip x n y :
  substitute_go processEnv (String.length x + n) (x +:+ y)
  = substitute_go processEnv n y.
Proof.
  induction x as [|c x IH]; simpl; [|apply IH].
  destruct y; by destruct n.
Qed.

Lemma substituteString_absent s :
  includes s "${" = false → substituteString processEnv s = s.
Proof.
  unfold substituteString. induction s as [|c s IH]; [done|].
  intros [Hprefix Hs]%includes_cons_false.
  cbn [substitute_go]. unfold placeholder.
  rewrite (dropPrefix_not_prefix _ _ Hprefix). by rewrite (IH Hs).
Qed.

Lemma substituteString_step a varExpr b :
  includes a "${" = false → varExpr ≠ "" → includes varExpr "}" = false →
  substituteString processEnv (a +:+ "${" +:+ varExpr +:+ String "}" b)
  = a +:+ resolve processEnv varExpr +:+ substituteString processEnv b.
Proof.
  intros Ha Hne Hbrace. unfold substituteString.
  induction a as [|c a IH].
  - change ("" +:+ "${" +:+ varExpr +:+ String "}" b)
      with (String "$" (String "{" (varExpr +:+ String "}" b))).
    cbn [substitute_go]. unfold placeholder.
    change (dropPrefix "${"
              (String "$" (String "{" (varExpr +:+ String "}" b))))
      with (Some (varExpr +:+ String "}" b)).
    cbv beta iota.
    destruct (takeUntil_append "}" varExpr b Hbrace) as [-> ->].
    destruct varExpr as [|v varExpr]; [done|]. cbn [truthy].
    change ("" +:+ resolve processEnv (String v varExpr)
            +:+ substitute_go processEnv 0 b)
      with (resolve processEnv (String v varExpr)
            +:+ substitute_go processEnv 0 b).
    f_equal.
    replace (String.length (String v varExpr) + 2)%nat
      with (S (String.length (String v varExpr) + 1)) by lia.
    cbn [substitute_go].
    rewrite (substitute_skip (String v varExpr) 1 (String "}" b)).
    done.
  - apply includes_cons_false in Ha as [Hprefix Ha].
    change (String c a +:+ "${" +:+ varExpr +:+ String "}" b)
      with (String c (a +:+ String "$"
                        (String "{" (varExpr +:+ String "}" b)))).
    cbn [substitute_go]. unfold placeholder.
    rewrite (dropPrefix_two_boundary "$" "{" c a _ ltac:(done) Hprefix).
    change (String c a +:+ resolve processEnv varExpr
            +:+ substitute_go processEnv 0 b)
      with (String c (a +:+ resolve processEnv varExpr
                      +:+ substitute_go processEnv 0 b)).
    f_equal. apply (IH Ha).
Qed.

Lemma cutAt_absent s : includes s ":-" = false → cutAt ":-" s = (s, None).
Proof.
  induction s as [|c s IH]; [done|].
  intros [Hprefix Hs]%includes_cons_false.
  cbn [cutAt]. rewrite (dropPrefix_not_prefix _ _ Hprefix).
  by rewrite (IH Hs).
Qed.

Lemma cutAt_append a b :
  includes a ":-" = false → cutAt ":-" (a +:+ ":-" +:+ b) = (a, Some b).
Proof.
  induction a as [|c a IH]; [done|].
  intros [Hprefix Ha]%includes_cons_false.
  change (String c a +:+ ":-" +:+ b)
    with (String c (a +:+ String ":" (String "-" b))).
  cbn [cutAt].
  rewrite (dropPrefix_two_boundary ":" "-" c a _ ltac:(done) Hprefix).
  change (a +:+ String ":" (String "-" b)) with (a +:+ ":-" +:+ b).
  by rewrite (IH Ha).
Qed.

End SubstituteFacts.

(** An environment with a key, an empty variable and nothing else. *)
Definition scenarioProcessEnv (name : string) : option string :=
  if String.eqb name "API_KEY" then Some "s3cr3t"
  else if String.eqb name "EMPTY" then Some ""
  else None.

(** X27: [substituteEnvVars] replaces, from left to right, every
    [${...}] with a non-empty text without [}] between the braces by what
    the callback answers for that text, and copies everything else: a
    string without [${] is unchanged, and so is [${}]. *)
Theorem substituteString_placeholders (processEnv : string → option string) :
  (∀ s, includes s "${" = false → substituteString processEnv s = s)
  ∧ (∀ a varExpr b,
       includes a "${" = false → varExpr ≠ "" →
       includes varExpr "}" = false →
       substituteString processEnv
         (a +:+ "${" +:+ varExpr +:+ String "}" b)
       = a +:+ resolve processEnv varExpr +:+ substituteString processEnv b)
  ∧ (∀ b, substituteString processEnv ("${}" +:+ b)
          = "${}" +:+ substituteString processEnv b).
Proof.
  split; [apply substituteString_absent|].
  split; [apply substituteString_step|].
  intros b. reflexivity.
Qed.

Example substituteString_scenario :
  substituteString scenarioProcessEnv
    "key=${API_KEY} host=${HOST:-localhost} port=${PORT:-} e=${EMPTY:-x}"
  = "key=s3cr3t host=localhost port=${PORT:-} e=x".
Proof. by vm_compute. Qed.

(** X28: the callback prefers the value of the variable, then the default
    after [:-], then the placeholder as it stands; an empty value and an
    empty default count as absent. *)
Theorem resolve_precedence
    (processEnv : string → option string) (varName : string) :
  includes varName ":-" = false →
  let value :=
    processEnv varName ≫= (λ v, if truthy v then Some v else None) in
  resolve processEnv varName = default ("${" +:+ varName +:+ "}") value
  ∧ ∀ defaultValue,
      includes defaultValue ":-" = false →
      resolve processEnv (varName +:+ ":-" +:+ defaultValue)
      = match value with
        | Some v => v
        | None =>
            if truthy defaultValue then defaultValue
            else "${" +:+ (varName +:+ ":-" +:+ defaultValue) +:+ "}"
        end.
Proof.
  intros Hname value. subst value. split.
  - unfold resolve. rewrite (cutAt_absent _ Hname). simpl.
    destruct (processEnv varName) as [v|]; [|done]. simpl.
    by destruct (truthy v).
  - intros defaultValue Hdefault. unfold resolve.
    rewrite (cutAt_append _ _ Hname). simpl.
    rewrite (cutAt_absent _ Hdefault). simpl.
    destruct (processEnv varName) as [v|]; [|done]. simpl.
    by destruct (truthy v).
Qed.

(** A variable that is set but empty gives way to the default. *)
Lemma resolve_precedence_empty_variable :
  includes "EMPTY" ":-" = false
  ∧ resolve scenarioProcessEnv "EMPTY" = "${EMPTY}"
  ∧ resolve scenarioProcessEnv "EMPTY:-x" = "x".
Proof.
  split; [reflexivity|].
  destruct (resolve_precedence scenarioProcessEnv "EMPTY" eq_refl)
    as [Hplain Hdefault].
  split; [exact Hplain|]. exact (Hdefault "x" eq_refl).
Defined.

(** ** [config.js]: the configuration tree *)

(** A value [yaml.load] returns: [null], a boolean, a number, a string, a
    sequence, a mapping with its entries as [Object.entries] lists them
    (so with property names that are pairwise different), a timestamp
    (a [Date]) or binary data (a [Uint8Array]). *)
Inductive ConfigValue :=
  | CNull
  | CBool (b : bool)
  | CNum (n : JsNumber)
  | CStr (s : string)
  | CArr (items : list ConfigValue)
  | CObj (entries : list (string * ConfigValue))
  | CDate (time : Z)
  | CBinary (bytes : list Z).

(** The prototype of an object. *)
Inductive Prototype (V : Type) :=
  | ObjectPrototype
  | NullPrototype
  | ValuePrototype (value : V).
Arguments ObjectPrototype {V}.
Arguments NullPrototype {V}.
Arguments ValuePrototype {V} value.

(** A value [substituteEnvVars] returns; an object is given by its
    prototype and its own enumerable properties. *)
Inductive JsValue :=
  | VNull
  | VBool (b : bool)
  | VNum (n : JsNumber)
  | VStr (s : string)
  | VArr (items : list JsValue)
  | VObj (proto : Prototype JsValue) (entries : list (string * JsValue))
  | VDate (time : Z)
  | VBinary (bytes : list Z).

(** The prototype after [result.__proto__ = value]: the setter of
    [Object.prototype] takes an object or [null] and ignores everything
    else. *)
Definition setPrototype (value : JsValue) (proto : Prototype JsValue)
    : Prototype JsValue :=
  match value with
  | VNull => NullPrototype
  | VArr _ => ValuePrototype value
  | VObj _ _ => ValuePrototype value
  | VDate _ => ValuePrototype value
  | VBinary _ => ValuePrototype value
  | _ => proto
  end.

(** [result[key] = value] on the object under construction: the key
    [__proto__] reaches the setter and adds no property. *)
Definition setProperty (result : JsValue) (key : string) (value : JsValue)
    : JsValue :=
  match result with
  | VObj proto entries =>
      if String.eqb key "__proto__"
      then VObj (setPrototype value proto) entries
      else VObj proto (Map_set key value entries)
  | other => other
  end.

(** The loop [for (const [key, value] of ...) result[key] = value]. *)
Definition assignAll (entries : list (string * JsValue)) (result : JsValue)
    : JsValue :=
  fold_left (fun result entry => setProperty result entry.1 entry.2)
            entries result.

(** [Object.entries] of a [Uint8Array]: its bytes under their indices. *)
Definition indexed (bytes : list Z) : list (string * Z) :=
  imap (fun index byte => (Z_to_string (Z.of_nat index), byte)) bytes.

Section SubstituteTree.
Variable processEnv : string → option string.

(** [TEOConfig.substituteEnvVars]: a string is substituted, a sequence is
    mapped, and every other object, a [Date] and a [Uint8Array] included,
    is rebuilt from its entries as a plain object. *)
Fixpoint substituteEnvVars (obj : ConfigValue) : JsValue :=
  match obj with
  | CNull => VNull
  | CBool b => VBool b
  | CNum n => VNum n
  | CStr s => VStr (substituteString processEnv s)
  | CArr items => VArr (List.map substituteEnvVars items)
  | CObj entries =>
      assignAll
        (List.map (fun entry : string * ConfigValue =>
                     let '(key, value) := entry in
                     (key, substituteEnvVars value))
                  entries)
        (VObj ObjectPrototype [])
  | CDate _ => VObj ObjectPrototype []
  | CBinary bytes =>
      assignAll
        (List.map (fun entry : string * Z => (entry.1, VNum (Num (inject_Z entry.2))))
                  (indexed bytes))
        (VObj ObjectPrototype [])
  end.

End SubstituteTree.

(** The property names of every mapping are pairwise different. *)
Fixpoint wellKeyed (obj : ConfigValue) : bool :=
  match obj with
  | CArr items => forallb wellKeyed items
  | CObj entries =>
      (bool_decide (NoDup entries.*1)
       && forallb (fun entry : string * ConfigValue =>
                     let '(_, value) := entry in wellKeyed value)
                  entries)%bool
  | _ => true
  end.

(** The strings of a configuration that are values, those under a
    property [__proto__] apart, from left to right. *)
Fixpoint keptStrings (obj : ConfigValue) : list string :=
  match obj with
  | CStr s => [s]
  | CArr items => concat (List.map keptStrings items)
  | CObj entries =>
      concat (List.map (fun entry : string * ConfigValue =>
                          let '(key, value) := entry in
                          if String.eqb key "__proto__" then []
                          else keptStrings value)
                       entries)
  | _ => []
  end.

(** The property names of the mappings of a configuration, [__proto__]
    and the names under it apart, from left to right. *)
Fixpoint keptKeys (obj : ConfigValue) : list string :=
  match obj with
  | CArr items => concat (List.map keptKeys items)
  | CObj entries =>
      concat (List.map (fun entry : string * ConfigValue =>
                          let '(key, value) := entry in
                          if String.eqb key "__proto__" then []
                          else key :: keptKeys value)
                       entries)
  | _ => []
  end.

(** A configuration without timestamp, binary data and property
    [__proto__]. *)
Fixpoint plain (obj : ConfigValue) : bool :=
  match obj with
  | CArr items => forallb plain items
  | CObj entries =>
      forallb (fun entry : string * ConfigValue =>
                 let '(key, value) := entry in
                 (negb (String.eqb key "__proto__") && plain value)%bool)
              entries
  | CDate _ => false
  | CBinary _ => false
  | _ => true
  end.

(** A configuration as a value, every mapping a plain object. *)
Fixpoint asValue (obj : ConfigValue) : JsValue :=
  match obj with
  | CNull => VNull
  | CBool b => VBool b
  | CNum n => VNum n
  | CStr s => VStr s
  | CArr items => VArr (List.map asValue items)
  | CObj entries =>
      VObj ObjectPrototype
        (List.map (fun entry : string * ConfigValue =>
                     let '(key, value) := entry in (key, asValue value))
                  entries)
  | CDate time => VDate time
  | CBinary bytes => VBinary bytes
  end.

(** The strings that are own values of a value, and its own property
    names, from left to right; the prototype is not followed. *)
Fixpoint stringsOf (value : JsValue) : list string :=
  match value with
  | VStr s => [s]
  | VArr items => concat (List.map stringsOf items)
  | VObj _ entries =>
      concat (List.map (fun entry : string * JsValue =>
                          let '(_, value) := entry in stringsOf value)
                       entries)
  | _ => []
  end.

Fixpoint keysOf (value : JsValue) : list string :=
  match value with
  | VArr items => concat (List.map keysOf items)
  | VObj _ entries =>
      concat (List.map (fun entry : string * JsValue =>
                          let '(key, value) := entry in key :: keysOf value)
                       entries)
  | _ => []
  end.

(** Induction on configurations, with the property available for every
    element and every property value. *)
Fixpoint ConfigValue_nested_ind (P : ConfigValue → Prop)
    (Hnull : P CNull) (Hbool : ∀ b, P (CBool b)) (Hnum : ∀ n, P (CNum n))
    (Hstr : ∀ s, P (CStr s))
    (Harr : ∀ items, Forall P items → P (CArr items))
    (Hobj : ∀ entries, Forall (λ entry, P entry.2) entries →
            P (CObj entries))
    (Hdate : ∀ time, P (CDate time))
    (Hbinary : ∀ bytes, P (CBinary bytes))
    (obj : ConfigValue) : P obj :=
  match obj with
  | CNull => Hnull
  | CBool b => Hbool b
  | CNum n => Hnum n
  | CStr s => Hstr s
  | CArr items =>
      Harr items
        ((fix all (l : list ConfigValue) : Forall P l :=
            match l with
            | [] => List.Forall_nil P
            | c :: r =>
                @List.Forall_cons _ P c r
                  (ConfigValue_nested_ind P Hnull Hbool Hnum Hstr Harr Hobj
                     Hdate Hbinary c)
                  (all r)
            end) items)
  | CObj entries =>
      Hobj entries
        ((fix all (l : list (string * ConfigValue))
            : Forall (λ entry, P entry.2) l :=
            match l with
            | [] => List.Forall_nil (λ entry, P entry.2)
            | c :: r =>
                @List.Forall_cons _ (λ entry, P entry.2) c r
                  (ConfigValue_nested_ind P Hnull Hbool Hnum Hstr Harr Hobj
                     Hdate Hbinary c.2)
                  (all r)
            end) entries)
  | CDate time => Hdate time
  | CBinary bytes => Hbinary bytes
  end.

(** The prototype the loop leaves. *)
Definition prototypeAfter (entries : list (string * JsValue))
    (proto : Prototype JsValue) : Prototype JsValue :=
  fold_left (fun proto entry =>
               if String.eqb entry.1 "__proto__"
               then setPrototype entry.2 proto else proto)
            entries proto.

Definition notProto {V} (entry : string * V) : bool :=
  negb (String.eqb entry.1 "__proto__").

Section SubstituteTreeFacts.
Variable processEnv : string → option string.

(** With property names that are pairwise different and new, every
    assignment but that to [__proto__] adds a property. *)
Lemma assignAll_distinct entries proto own :
  NoDup (own.*1 ++ entries.*1) →
  assignAll entries (VObj proto own)
  = VObj (prototypeAfter entries proto)
         (own ++ List.filter notProto entries).
Proof.
  revert proto own. induction entries as [|[key value] entries IH];
    intros proto own Hnd; simpl.
  - by rewrite app_nil_r.
  - unfold notProto at 1. simpl.
    destruct (String.eqb key "__proto__") eqn:Hkey; simpl.
    + apply IH. apply NoDup_app in Hnd as (Hown & Hdisjoint & Hrest).
      apply NoDup_cons in Hrest as [_ Hrest].
      apply NoDup_app. split; [done|]. split; [|done].
      intros x Hx Hin. apply (Hdisjoint x Hx). by right.
    + assert (Map_set key value own = own ++ [(key, value)]) as ->.
      { unfold Map_set.
        rewrite (proj2 (Map_has_false key own)); [done|].
        apply NoDup_app in Hnd as (_ & Hdisjoint & _).
        intros Hin. apply (Hdisjoint key Hin). left. }
      rewrite IH.
      * by rewrite <- app_assoc.
      * rewrite fmap_app, <- app_assoc. done.
Qed.

Lemma wellKeyed_entries entries :
  wellKeyed (CObj entries) = true →
  NoDup entries.*1
  ∧ Forall (λ entry : string * ConfigValue, wellKeyed entry.2 = true)
           entries.
Proof.
  cbn [wellKeyed]. intros [Hnd Hall]%andb_true_iff.
  apply bool_decide_eq_true in Hnd. split; [done|].
  apply Forall_forall. intros [key value] Hin.
  rewrite forallb_forall in Hall.
  by apply list_elem_of_In, Hall in Hin.
Qed.

Lemma substituted_keys entries :
  (List.map (fun entry : string * ConfigValue =>
               let '(key, value) := entry in
               (key, substituteEnvVars processEnv value))
            entries).*1
  = entries.*1.
Proof. induction entries as [|[key value] entries IH]; simpl; by f_equal. Qed.

Lemma substituteEnvVars_object entries :
  wellKeyed (CObj entries) = true →
  ∃ proto,
    substituteEnvVars processEnv (CObj entries)
    = VObj proto
        (List.filter notProto
           (List.map (fun entry : string * ConfigValue =>
                        let '(key, value) := entry in
                        (key, substituteEnvVars processEnv value))
                     entries)).
Proof.
  intros [Hnd _]%wellKeyed_entries. cbn [substituteEnvVars].
  rewrite assignAll_distinct by (simpl; by rewrite substituted_keys).
  by eexists.
Qed.

Lemma indexed_strings bytes proto own :
  Forall (λ entry : string * JsValue, stringsOf entry.2 = []) own →
  stringsOf
    (assignAll
       (List.map (fun entry : string * Z =>
                    (entry.1, VNum (Num (inject_Z entry.2))))
                 bytes)
       (VObj proto own))
  = [].
Proof.
  revert proto own. induction bytes as [|[key byte] bytes IH];
    intros proto own Hown.
  - simpl. induction Hown as [|[k v] own Hv _ IHown]; [done|].
    simpl in *. by rewrite Hv, IHown.
  - simpl. destruct (String.eqb key "__proto__"); [by apply IH|].
    apply IH. unfold Map_set. destruct (Map_has key own).
    + clear -Hown. induction Hown as [|[k v] own Hv Hown IHown]; [done|].
      simpl. case_decide; constructor; done.
    + apply Forall_app. split; [done|]. by constructor.
Qed.

Lemma substituteEnvVars_strings obj :
  wellKeyed obj = true →
  stringsOf (substituteEnvVars processEnv obj)
  = substituteString processEnv <$> keptStrings obj.
Proof.
  induction obj as [| | | |items IH|entries IH| |bytes]
    using ConfigValue_nested_ind; try done.
  - cbn [wellKeyed substituteEnvVars stringsOf keptStrings].
    intros Hall. rewrite forallb_forall in Hall.
    induction IH as [|item items Hitem _ IH]; [done|].
    simpl. rewrite fmap_app, Hitem, IH; [done| |].
    + intros x Hx. apply Hall. by right.
    + apply Hall. by left.
  - intros Hwell.
    destruct (substituteEnvVars_object entries Hwell) as [proto ->].
    apply wellKeyed_entries in Hwell as [_ Hwell].
    cbn [stringsOf keptStrings].
    induction IH as [|[key value] entries Hvalue _ IH]; [done|].
    apply Forall_cons in Hwell as [Hhere Hrest]. simpl in *.
    unfold notProto at 1. simpl.
    destruct (String.eqb key "__proto__"); simpl; [by apply IH|].
    by rewrite fmap_app, (Hvalue Hhere), (IH Hrest).
  - intros _. cbn [substituteEnvVars]. by rewrite indexed_strings by constructor.
Qed.

Lemma substituteEnvVars_keys obj :
  wellKeyed obj = true →
  plain obj = true →
  keysOf (substituteEnvVars processEnv obj) = keptKeys obj.
Proof.
  induction obj as [| | | |items IH|entries IH| |bytes]
    using ConfigValue_nested_ind; try done.
  - cbn [wellKeyed plain substituteEnvVars keysOf keptKeys].
    intros Hall Hplain. rewrite forallb_forall in Hall, Hplain.
    induction IH as [|item items Hitem _ IH]; [done|].
    simpl. rewrite Hitem, IH; [done| | | |].
    + intros x Hx. apply Hall. by right.
    + intros x Hx. apply Hplain. by right.
    + apply Hall. by left.
    + apply Hplain. by left.
  - intros Hwell Hplain.
    destruct (substituteEnvVars_object entries Hwell) as [proto ->].
    apply wellKeyed_entries in Hwell as [_ Hwell].
    cbn [plain] in Hplain. cbn [keysOf keptKeys].
    induction IH as [|[key value] entries Hvalue _ IH]; [done|].
    apply Forall_cons in Hwell as [Hhere Hrest]. simpl in *.
    apply andb_true_iff in Hplain as [[Hkey Hvplain]%andb_true_iff Hplain].
    unfold notProto at 1. simpl.
    apply negb_true_iff in Hkey. rewrite Hkey. simpl.
    by rewrite (Hvalue Hhere Hvplain), (IH Hrest Hplain).
Qed.

Lemma substituteEnvVars_not_proto obj :
  wellKeyed obj = true →
  "__proto__" ∉ keysOf (substituteEnvVars processEnv obj)
  ∨ ¬ plain obj = true.
Proof.
  intros Hwell. destruct (plain obj) eqn:Hplain; [|by right]. left.
  rewrite (substituteEnvVars_keys obj Hwell Hplain). clear Hwell.
  induction obj as [| | | |items IH|entries IH| |bytes]
    using ConfigValue_nested_ind; try (by intros ?%elem_of_nil).
  - cbn [plain keptKeys] in *. rewrite forallb_forall in Hplain.
    intros (l & Hl & Hin)%list_elem_of_In%in_concat.
    apply list_elem_of_In in Hin.
    apply in_map_iff in Hl as (item & <- & Hitem).
    rewrite Forall_forall in IH.
    apply (IH item); [by apply list_elem_of_In| |done]. by apply Hplain.
  - cbn [plain keptKeys] in *. rewrite forallb_forall in Hplain.
    intros (l & Hl & Hin)%list_elem_of_In%in_concat.
    apply list_elem_of_In in Hin.
    apply in_map_iff in Hl as ([key value] & <- & Hentry).
    apply Hplain in Hentry as Hok.
    apply andb_true_iff in Hok as [Hkey Hvplain].
    apply negb_true_iff in Hkey. rewrite ?Hkey in Hin.
    apply String.eqb_neq in Hkey.
    apply elem_of_cons in Hin as [Heq|Hin]; [done|].
    rewrite Forall_forall in IH.
    apply (IH (key, value)); [by apply list_elem_of_In|done|done].
Qed.

Lemma substituteEnvVars_absent obj :
  wellKeyed obj = true → plain obj = true →
  Forall (λ s, includes s "${" = false) (keptStrings obj) →
  substituteEnvVars processEnv obj = asValue obj.
Proof.
  induction obj as [| | | s |items IH|entries IH| |bytes]
    using ConfigValue_nested_ind; try done.
  - intros _ _ Hs. simpl. f_equal. apply substituteString_absent.
    simpl in Hs. by inversion Hs.
  - cbn [wellKeyed plain substituteEnvVars keptStrings asValue].
    intros Hwell Hplain Hall. f_equal.
    rewrite forallb_forall in Hwell, Hplain.
    induction IH as [|item items Hitem _ IH]; [done|].
    simpl in *. apply Forall_app in Hall as [Hhere Hrest].
    rewrite Hitem, IH; [done| | | | | |]; try done.
    + intros x Hx. apply Hwell. by right.
    + intros x Hx. apply Hplain. by right.
    + apply Hwell. by left.
    + apply Hplain. by left.
  - intros Hwell Hplain Hall.
    apply wellKeyed_entries in Hwell as Hparts. destruct Hparts as [Hnd Hvalues].
    cbn [substituteEnvVars].
    rewrite assignAll_distinct by (simpl; by rewrite substituted_keys).
    cbn [plain keptStrings asValue] in *. simpl. clear Hwell Hnd.
    assert (prototypeAfter
              (List.map (fun entry : string * ConfigValue =>
                           let '(key, value) := entry in
                           (key, substituteEnvVars processEnv value))
                        entries) ObjectPrototype
            = ObjectPrototype) as ->.
    { generalize (@ObjectPrototype JsValue). clear -Hplain.
      induction entries as [|[key value] entries IHe]; intros proto;
        [done|].
      simpl in *.
      apply andb_true_iff in Hplain as [[Hkey _]%andb_true_iff Hplain].
      apply negb_true_iff in Hkey. unfold prototypeAfter. simpl.
      rewrite Hkey. by apply IHe. }
    f_equal.
    induction IH as [|[key value] entries Hvalue _ IH]; [done|].
    apply Forall_cons in Hvalues as [Hhere Hrest]. simpl in *.
    apply andb_true_iff in Hplain as [[Hkey Hvplain]%andb_true_iff Hplain].
    unfold notProto at 1. simpl.
    pose proof Hkey as Hkey'. apply negb_true_iff in Hkey'.
    rewrite Hkey' in Hall. rewrite Hkey. simpl.
    apply Forall_app in Hall as [Hvall Hall].
    by rewrite (Hvalue Hhere Hvplain Hvall), (IH Hplain Hall Hrest).
Qed.

End SubstituteTreeFacts.

Lemma prototypeAfter_none entries proto :
  "__proto__" ∉ entries.*1 → prototypeAfter entries proto = proto.
Proof.
  revert proto. induction entries as [|[key value] entries IH];
    intros proto Hnone; [done|].
  unfold prototypeAfter. simpl.
  destruct (String.eqb key "__proto__") eqn:Hkey.
  - apply String.eqb_eq in Hkey as ->. exfalso. apply Hnone. left.
  - apply IH. intros Hin. apply Hnone. by right.
Qed.

Lemma prototypeAfter_proto entries proto value :
  NoDup entries.*1 → ("__proto__", value) ∈ entries →
  prototypeAfter entries proto = setPrototype value proto.
Proof.
  revert proto. induction entries as [|[key v] entries IH];
    intros proto Hnd Hin; [by apply elem_of_nil in Hin|].
  simpl in Hnd. apply NoDup_cons in Hnd as [Hkey Hnd].
  unfold prototypeAfter. simpl.
  apply elem_of_cons in Hin as [[= <- <-]|Hin].
  - simpl. by apply prototypeAfter_none.
  - destruct (String.eqb key "__proto__") eqn:Hk.
    + apply String.eqb_eq in Hk as ->. exfalso. apply Hkey.
      apply list_elem_of_fmap. by exists ("__proto__", value).
    + by apply IH.
Qed.

(** A configuration with a substituted string under a name that holds a
    placeholder, a timestamp, and a property [__proto__]. *)
Definition scenarioConfig : ConfigValue :=
  CObj [ ("${API_KEY}", CArr [CStr "${API_KEY}"; CNum (Num 3); CNull]);
         ("since", CDate 0);
         ("__proto__", CObj [("endpoint", CStr "${HOST:-localhost}")]);
         ("endpoint", CStr "https://${HOST:-localhost}/v1") ].

(** X29: on a configuration whose mappings have pairwise different
    property names, [substituteEnvVars] rewrites the strings that are
    values and no property name; a property [__proto__] is not copied: its
    value becomes the prototype of the result, and the strings under it
    are no own values of the result.  A configuration without timestamp,
    binary data and property [__proto__] keeps its property names, and
    none of them is [__proto__]; if moreover none of its strings holds
    [${], the result is the configuration itself. *)
Theorem substituteEnvVars_strings_only
    (processEnv : string → option string) (obj : ConfigValue) :
  wellKeyed obj = true →
  stringsOf (substituteEnvVars processEnv obj)
  = substituteString processEnv <$> keptStrings obj
  ∧ (plain obj = true →
     keysOf (substituteEnvVars processEnv obj) = keptKeys obj
     ∧ ("__proto__" ∉ keysOf (substituteEnvVars processEnv obj))
     ∧ (Forall (λ s, includes s "${" = false) (keptStrings obj) →
        substituteEnvVars processEnv obj = asValue obj))
  ∧ (∀ entries, obj = CObj entries →
       ∃ proto,
         substituteEnvVars processEnv obj
         = VObj proto
             (List.filter notProto
                (List.map (fun entry : string * ConfigValue =>
                             let '(key, value) := entry in
                             (key, substituteEnvVars processEnv value))
                          entries))
         ∧ ∀ value, ("__proto__", value) ∈ entries →
             proto = setPrototype (substituteEnvVars processEnv value)
                                  ObjectPrototype).
Proof.
  intros Hwell. split; [by apply substituteEnvVars_strings|].
  split.
  - intros Hplain. split; [by apply substituteEnvVars_keys|].
    split; [|by apply substituteEnvVars_absent].
    by destruct (substituteEnvVars_not_proto processEnv obj Hwell).
  - intros entries ->.
    apply wellKeyed_entries in Hwell as [Hnd _].
    cbn [substituteEnvVars].
    rewrite assignAll_distinct by (simpl; by rewrite substituted_keys).
    eexists. split; [reflexivity|].
    intros value Hin.
    apply prototypeAfter_proto; [simpl; by rewrite substituted_keys|].
    apply list_elem_of_In, in_map_iff. exists ("__proto__", value).
    split; [done|]. by apply list_elem_of_In.
Qed.

(** In the scenario the string of the sequence and the endpoint are
    substituted, the name [${API_KEY}] is kept, the timestamp becomes an
    empty object and the mapping under [__proto__] the prototype. *)
Lemma substituteEnvVars_scenario :
  wellKeyed scenarioConfig = true
  ∧ substituteEnvVars scenarioProcessEnv scenarioConfig
    = VObj (ValuePrototype
              (VObj ObjectPrototype [("endpoint", VStr "localhost")]))
        [ ("${API_KEY}", VArr [VStr "s3cr3t"; VNum (Num 3); VNull]);
          ("since", VObj ObjectPrototype []);
          ("endpoint", VStr "https://localhost/v1") ]
  ∧ stringsOf (substituteEnvVars scenarioProcessEnv scenarioConfig)
    = substituteString scenarioProcessEnv <$> keptStrings scenarioConfig.
Proof.
  split; [reflexivity|]. split; [by vm_compute|].
  by apply (substituteEnvVars_strings_only scenarioProcessEnv scenarioConfig).
Defined.
